(** * Universe.py: generator and length-prefixed writer

    A shallow embedding of [src/Universe.py].  Python values are modelled
    as follows:
    - [int] as [Z]; [str] as [string] (its UTF-8 bytes); [bytes] as
      [list byte];
    - [float] as the 64-bit IEEE-754 pattern, a [Z] in [0, 2^64), with the
      arithmetic of module [Float] (round to nearest, ties to even);
    - [dict] as an association list in insertion order, updated by
      [dict_set];
    - exceptions as the [Raise] alternative of [result];
    - the module-level [random] generator as an explicit stream of draws
      threaded through the generation functions;
    - the output file as its byte contents and the position of the handle. *)

From Stdlib Require Import ZArith List String Ascii Bool Lia Arith.
From Stdlib Require Import Strings.Byte DecimalString DecimalZ QArith Qabs.
Import ListNotations.

Set Warnings "-register-all".

Local Open Scope string_scope.
Local Open Scope Z_scope.

(* ------------------------------------------------------------------ *)
(** * Exceptions *)

Inductive exn : Type :=
| ValueError          (* random.randint on an empty range; I/O on a closed file *)
| IndexError          (* random.choice on an empty sequence *)
| ZeroDivisionError   (* float division by zero *)
| PicklingError       (* memo id too large for LONG_BINGET *)
| StructError         (* struct.pack('<Q', n) with n out of range *)
| OSError             (* seek to a negative offset *)
| AttributeError      (* method call on None *)
| OverflowError.      (* math.floor of an infinity *)

Inductive result (A : Type) : Type :=
| Ok (a : A)
| Raise (e : exn).
Arguments Ok {A} a.
Arguments Raise {A} e.

(* ------------------------------------------------------------------ *)
(** * Bytes and fixed-width integers *)

Definition byte_of_Z (z : Z) : byte :=
  match Byte.of_N (Z.to_N (z mod 256)) with
  | Some b => b
  | None => x00
  end.

Definition Z_of_byte (b : byte) : Z := Z.of_N (Byte.to_N b).

(** [k] bytes of [z], least significant first: [struct.pack('<I' / '<Q')]
    on a value that fits; the bytes of [z mod 256^k] otherwise. *)
Fixpoint le_bytes (k : nat) (z : Z) : list byte :=
  match k with
  | O => []
  | S k' => byte_of_Z z :: le_bytes k' (z / 256)
  end.

Fixpoint le_value (bs : list byte) : Z :=
  match bs with
  | [] => 0
  | b :: bs' => Z_of_byte b + 256 * le_value bs'
  end.

(** Most significant byte first ([struct.pack('>d')] writes the float's
    pattern this way). *)
Definition be_bytes (k : nat) (z : Z) : list byte := rev (le_bytes k z).

Definition len {A : Type} (l : list A) : Z := Z.of_nat (List.length l).

(** [struct.pack('<Q', n)]: [struct.error] unless [0 <= n < 2^64]. *)
Definition struct_pack_Q (n : Z) : result (list byte) :=
  if (0 <=? n) && (n <? 2 ^ 64) then Ok (le_bytes 8 n) else Raise StructError.

(* ------------------------------------------------------------------ *)
(** * Strings *)

(** [str(i)] / [f"{i}"] for an [int]. *)
Definition str (i : Z) : string := NilZero.string_of_int (Z.to_int i).

Definition bytes_of_str (s : string) : list byte := list_byte_of_string s.

(** [range(n)]: empty when [n <= 0]. *)
Definition range (n : Z) : list Z := map Z.of_nat (seq 0 (Z.to_nat n)).

(* ------------------------------------------------------------------ *)
(** * Floats: IEEE-754 binary64 *)

Module Float.

(** A [float] is its 64-bit pattern: sign (bit 63), biased exponent
    (bits 52..62), fraction (bits 0..51). *)
Definition float := Z.

Definition wf (x : float) : Prop := 0 <= x < 2 ^ 64.

Definition sign (x : float) : bool := Z.testbit x 63.
Definition expo (x : float) : Z := (x / 2 ^ 52) mod 2048.
Definition frac (x : float) : Z := x mod 2 ^ 52.

(** The number a pattern stands for: [Fin neg m e] is [(-1)^neg * m * 2^e]. *)
Inductive view : Type :=
| NaN
| Inf (neg : bool)
| Fin (neg : bool) (m e : Z).

Definition classify (x : float) : view :=
  if expo x =? 2047 then (if frac x =? 0 then Inf (sign x) else NaN)
  else if expo x =? 0 then Fin (sign x) (frac x) (-1074)
  else Fin (sign x) (2 ^ 52 + frac x) (expo x - 1075).

Definition sign_bits (neg : bool) : Z := if neg then 2 ^ 63 else 0.
Definition zero (neg : bool) : float := sign_bits neg.
Definition inf (neg : bool) : float := sign_bits neg + 2047 * 2 ^ 52.
Definition nan : float := 2047 * 2 ^ 52 + 2 ^ 51.

(** [2^k] for [k >= 0], [1] otherwise: a ratio [n / d] scaled by [2^k] is
    [(n * pow2 k) / (d * pow2 (-k))]. *)
Definition pow2 (k : Z) : Z := 2 ^ Z.max 0 k.

(** Nearest integer to [n / d], ties to even. *)
Definition rne_div (n d : Z) : Z :=
  let q := n / d in
  let r := n mod d in
  if 2 * r <? d then q
  else if d <? 2 * r then q + 1
  else if Z.even q then q else q + 1.

(** [floor (log2 (n / d))] for [n, d > 0]. *)
Definition ilog2_ratio (n d : Z) : Z :=
  let l := Z.log2 n - Z.log2 d in
  if d * pow2 l <=? n * pow2 (- l) then l else l - 1.

(** Pattern of the double nearest to [n / d] (ties to even), [n, d > 0];
    overflow gives infinity, the subnormal range is rounded on the
    [2^-1074] grid. *)
Definition round_pos (n d : Z) : float :=
  let e := Z.max (ilog2_ratio n d - 52) (-1074) in
  let m := rne_div (n * pow2 (- e)) (d * pow2 e) in
  Z.min ((e + 1074) * 2 ^ 52 + m) (2047 * 2 ^ 52).

Definition round_ratio (neg : bool) (n d : Z) : float :=
  sign_bits neg + (if n =? 0 then 0 else round_pos n d).

Definition signed (neg : bool) (m : Z) : Z := if neg then - m else m.

(** [x + y] *)
Definition add (x y : float) : float :=
  match classify x, classify y with
  | NaN, _ | _, NaN => nan
  | Inf s, Inf t => if Bool.eqb s t then inf s else nan
  | Inf s, Fin _ _ _ => inf s
  | Fin _ _ _, Inf t => inf t
  | Fin s m e, Fin t m' e' =>
      let e0 := Z.min e e' in
      let n := signed s (m * 2 ^ (e - e0)) + signed t (m' * 2 ^ (e' - e0)) in
      if n =? 0 then zero (s && t)
      else round_ratio (n <? 0) (Z.abs n * pow2 e0) (pow2 (- e0))
  end.

(** [-x] *)
Definition opp (x : float) : float :=
  if sign x then x - 2 ^ 63 else x + 2 ^ 63.

(** [x - y] *)
Definition sub (x y : float) : float := add x (opp y).

(** [x * y] *)
Definition mul (x y : float) : float :=
  match classify x, classify y with
  | NaN, _ | _, NaN => nan
  | Inf s, Inf t => inf (xorb s t)
  | Inf s, Fin t m _ | Fin s m _, Inf t =>
      if m =? 0 then nan else inf (xorb s t)
  | Fin s m e, Fin t m' e' =>
      round_ratio (xorb s t) (m * m' * pow2 (e + e')) (pow2 (- (e + e')))
  end.

Definition is_zero (x : float) : bool :=
  match classify x with
  | Fin _ m _ => m =? 0
  | _ => false
  end.

(** The quotient of [x] by a [y] that is not zero. *)
Definition div_value (x y : float) : float :=
  match classify x, classify y with
  | NaN, _ | _, NaN => nan
  | Inf _, Inf _ => nan
  | Inf s, Fin t _ _ => inf (xorb s t)
  | Fin s _ _, Inf t => zero (xorb s t)
  | Fin s m e, Fin t m' e' =>
      round_ratio (xorb s t) (m * pow2 (e - e')) (m' * pow2 (e' - e))
  end.

(** [x / y]: Python raises [ZeroDivisionError] when [y == 0.0]. *)
Definition div (x y : float) : result float :=
  if is_zero y then Raise ZeroDivisionError else Ok (div_value x y).

(** [x < y] *)
Definition ltb (x y : float) : bool :=
  match classify x, classify y with
  | NaN, _ | _, NaN => false
  | Inf s, Inf t => s && negb t
  | Inf s, Fin _ _ _ => s
  | Fin _ _ _, Inf t => negb t
  | Fin s m e, Fin t m' e' =>
      let e0 := Z.min e e' in
      signed s (m * 2 ^ (e - e0)) <? signed t (m' * 2 ^ (e' - e0))
  end.

(** [float(i)] for an [int] literal or operand (the conversion rounds to
    nearest; the integers of this program are exactly representable). *)
Definition of_int (i : Z) : float := round_ratio (i <? 0) (Z.abs i) 1.

(** A non-negative decimal literal [n / d], correctly rounded. *)
Definition of_ratio (n d : Z) : float := round_ratio false n d.

(** The value of a finite float in units of [2^-1074] (every finite double
    is an integer number of them); [0] for infinities and NaN. *)
Definition ulps (x : float) : Z :=
  match classify x with
  | Fin s m e => signed s (m * 2 ^ (e + 1074))
  | _ => 0
  end.

Definition is_finite (x : float) : bool :=
  match classify x with
  | Fin _ _ _ => true
  | _ => false
  end.

(** The value of a finite float as a rational. *)
Definition value (x : float) : Q := Qmake (ulps x) (Z.to_pos (2 ^ 1074)).

End Float.

Abbreviation float := Float.float.

(* ------------------------------------------------------------------ *)
(** * Dictionaries and the values handed to the pickler *)

(** A [dict] with [str] keys, in insertion order. *)
Definition dict (V : Type) : Type := list (string * V).

(** [d[k] = v]: replaces the value of an existing key in place, appends a
    new key at the end. *)
Fixpoint dict_set {V : Type} (d : dict V) (k : string) (v : V) : dict V :=
  match d with
  | [] => [(k, v)]
  | (k', v') :: d' =>
      if String.eqb k' k then (k', v) :: d' else (k', v') :: dict_set d' k v
  end.

Definition keys {V : Type} (d : dict V) : list string := map fst d.

(** The values [to_dict] builds: nested dicts and lists of strings,
    floats and booleans. *)
Inductive pyval : Type :=
| PStr (s : string)
| PFloat (x : float)
| PBool (b : bool)
| PList (l : list pyval)
| PDict (d : list (string * pyval)).

Definition float_dict (d : dict float) : pyval :=
  PDict (map (fun kv => (fst kv, PFloat (snd kv))) d).

(* ------------------------------------------------------------------ *)
(** * Data classes for celestial objects *)

Module Planet.
Record t : Type := mk
  { code : string; mass : float; temperature : float;
    has_life : bool; minerals : dict float }.
Definition to_dict (self : t) : pyval :=
  PDict [ ("code", PStr (code self));
          ("mass", PFloat (mass self));
          ("temperature", PFloat (temperature self));
          ("has_life", PBool (has_life self));
          ("minerals", float_dict (minerals self)) ].
End Planet.

Module Star.
Record t : Type := mk
  { code : string; mass : float; temperature : float;
    spectral_type : string; planets : list Planet.t }.
Definition to_dict (self : t) : pyval :=
  PDict [ ("code", PStr (code self));
          ("mass", PFloat (mass self));
          ("temperature", PFloat (temperature self));
          ("spectral_type", PStr (spectral_type self));
          ("planets", PList (map Planet.to_dict (planets self))) ].
End Star.

Module BlackHole.
Record t : Type := mk { code : string; mass : float; spin : float }.
Definition to_dict (self : t) : pyval :=
  PDict [ ("code", PStr (code self));
          ("mass", PFloat (mass self));
          ("spin", PFloat (spin self)) ].
End BlackHole.

Module Nebula.
Record t : Type := mk
  { code : string; mass : float; temperature : float;
    composition : dict float }.
Definition to_dict (self : t) : pyval :=
  PDict [ ("code", PStr (code self));
          ("mass", PFloat (mass self));
          ("temperature", PFloat (temperature self));
          ("composition", float_dict (composition self)) ].
End Nebula.

Module Asteroid.
Record t : Type := mk
  { code : string; mass : float; composition : dict float }.
Definition to_dict (self : t) : pyval :=
  PDict [ ("code", PStr (code self));
          ("mass", PFloat (mass self));
          ("composition", float_dict (composition self)) ].
End Asteroid.

Module Comet.
Record t : Type := mk
  { code : string; mass : float; tail_length_km : float }.
Definition to_dict (self : t) : pyval :=
  PDict [ ("code", PStr (code self));
          ("mass", PFloat (mass self));
          ("tail_length_km", PFloat (tail_length_km self)) ].
End Comet.

Module Galaxy.
Record t : Type := mk
  { code : string;
    stars : list Star.t;
    black_holes : list BlackHole.t;
    nebulae : list Nebula.t;
    asteroids : list Asteroid.t;
    comets : list Comet.t }.
Definition to_dict (self : t) : pyval :=
  PDict [ ("code", PStr (code self));
          ("stars", PList (map Star.to_dict (stars self)));
          ("black_holes", PList (map BlackHole.to_dict (black_holes self)));
          ("nebulae", PList (map Nebula.to_dict (nebulae self)));
          ("asteroids", PList (map Asteroid.to_dict (asteroids self)));
          ("comets", PList (map Comet.to_dict (comets self))) ].
End Galaxy.

Module Universe.
Record t : Type := mk { galaxies : list Galaxy.t }.
Definition to_dict (self : t) : pyval :=
  PDict [ ("galaxies", PList (map Galaxy.to_dict (galaxies self))) ].
End Universe.

(* ------------------------------------------------------------------ *)
(** * The random source

    The state of the [random] module is the stream of draws still to
    come.  Every call of the module consumes one draw and maps it into
    the range the call documents, so that each outcome the call can have
    is the image of some stream. *)

Definition rng : Type := nat -> Z.

Definition next (r : rng) : Z * rng := (r O, fun n => r (S n)).

(** Computations that read the random source and may raise. *)
Definition M (A : Type) : Type := rng -> result (A * rng).

Definition ret {A : Type} (a : A) : M A := fun r => Ok (a, r).

Definition bind {A B : Type} (c : M A) (k : A -> M B) : M B :=
  fun r =>
    match c r with
    | Ok (a, r') => k a r'
    | Raise e => Raise e
    end.

Definition lift {A : Type} (x : result A) : M A :=
  fun r =>
    match x with
    | Ok a => Ok (a, r)
    | Raise e => Raise e
    end.

Notation "x <- c ;; k" := (bind c (fun x => k))
  (at level 61, c at next level, right associativity).

(** [for x in l: out.append(f(x))] *)
Fixpoint for_each {A B : Type} (f : A -> M B) (l : list A) : M (list B) :=
  match l with
  | [] => ret []
  | x :: l' => y <- f x ;; ys <- for_each f l' ;; ret (y :: ys)
  end.

(** [random.random()]: a multiple of [2^-53] in [[0, 1)]. *)
Definition random_random : M float :=
  fun r => let (d, r') := next r in Ok (Float.of_ratio (d mod 2 ^ 53) (2 ^ 53), r').

(** [random.uniform(a, b)] is [a + (b - a) * random()]. *)
Definition random_uniform (a b : float) : M float :=
  u <- random_random ;;
  ret (Float.add a (Float.mul (Float.sub b a) u)).

(** [random.randint(a, b)]: an integer of [[a, b]]; [ValueError] on an
    empty range, before anything is drawn. *)
Definition random_randint (a b : Z) : M Z :=
  fun r =>
    if b <? a then Raise ValueError
    else let (d, r') := next r in Ok (a + d mod (b - a + 1), r').

(** [random.choice(seq)] *)
Definition random_choice {A : Type} (seq : list A) : M A :=
  fun r =>
    match seq with
    | [] => Raise IndexError
    | x :: _ =>
        let (d, r') := next r in Ok (nth (Z.to_nat (d mod len seq)) seq x, r')
    end.

(* ------------------------------------------------------------------ *)
(** * Global configuration *)

(** The count constants of the module, which the specification treats as
    the configuration of a run. *)
Record Config : Type := mkConfig
  { NUM_GALAXIES : Z;
    STAR_COUNT_RANGE : Z * Z;
    PLANET_COUNT_RANGE : Z * Z;
    BH_COUNT_RANGE : Z * Z;
    NEBULA_COUNT_RANGE : Z * Z;
    ASTEROID_COUNT_RANGE : Z * Z;
    COMET_COUNT_RANGE : Z * Z }.

(** The values the source file sets. *)
Definition default_config : Config :=
  {| NUM_GALAXIES := 200;
     STAR_COUNT_RANGE := (10, 200);
     PLANET_COUNT_RANGE := (0, 15);
     BH_COUNT_RANGE := (0, 3);
     NEBULA_COUNT_RANGE := (0, 5);
     ASTEROID_COUNT_RANGE := (50, 200);
     COMET_COUNT_RANGE := (10, 50) |}.

Definition TARGET_FILE_SIZE : Z := 50 * 1024 ^ 3.

Definition MIN_MASS : float := Eval vm_compute in Float.of_ratio (10 ^ 20) 1.
Definition MAX_MASS : float := Eval vm_compute in Float.of_ratio (10 ^ 40) 1.
Definition MIN_TEMP : float := Eval vm_compute in Float.of_int 2.
Definition MAX_TEMP : float := Eval vm_compute in Float.of_ratio (10 ^ 7) 1.

Definition MINERAL_TYPES : list string :=
  [ "Iron"; "Silicon"; "Magnesium"; "Oxygen";
    "Carbon"; "Nickel"; "Sulfur"; "Aluminum" ].

Definition LIFE_PROBABILITY : float := Eval vm_compute in Float.of_ratio 5 10000.

(* ------------------------------------------------------------------ *)
(** * Utility functions *)

Definition random_mass : M float := random_uniform MIN_MASS MAX_MASS.

Definition random_temperature : M float := random_uniform MIN_TEMP MAX_TEMP.

(** [sum(weights)]: left to right from the integer [0]. *)
Definition py_sum (l : list float) : float :=
  fold_left Float.add l (Float.of_int 0).

(** [{mineral: wt / total for mineral, wt in pairs}], filled in order;
    the first failing division aborts it. *)
Fixpoint dict_of_quotients (pairs : list (string * float)) (total : float)
    (acc : dict float) : result (dict float) :=
  match pairs with
  | [] => Ok acc
  | (mineral, wt) :: rest =>
      match Float.div wt total with
      | Ok q => dict_of_quotients rest total (dict_set acc mineral q)
      | Raise e => Raise e
      end
  end.

Definition random_minerals : M (dict float) :=
  weights <- for_each (fun _ => random_random) MINERAL_TYPES ;;
  let total := py_sum weights in
  lift (dict_of_quotients (combine MINERAL_TYPES weights) total []).

Definition random_bool_chance (p : float) : M bool :=
  u <- random_random ;; ret (Float.ltb u p).

(** [math.floor(x)]: [ValueError] for a NaN, [OverflowError] for an
    infinity. *)
Definition math_floor (x : float) : result Z :=
  match Float.classify x with
  | Float.NaN => Raise ValueError
  | Float.Inf _ => Raise OverflowError
  | Float.Fin s m e =>
      Ok (if 0 <=? e then Float.signed s m * 2 ^ e
          else Float.signed s m / 2 ^ (- e))
  end.

(** [string.ascii_uppercase] and [string.digits] *)
Definition ascii_uppercase : string := "ABCDEFGHIJKLMNOPQRSTUVWXYZ".
Definition digits : string := "0123456789".

(** [s[i]] for a [str]: a negative index counts from the end. *)
Definition str_index (s : string) (i : Z) : result string :=
  let n := Z.of_nat (String.length s) in
  let j := if i <? 0 then i + n else i in
  if (0 <=? j) && (j <? n)
  then match String.get (Z.to_nat j) s with
       | Some c => Ok (String c EmptyString)
       | None => Raise IndexError
       end
  else Raise IndexError.

(** [random.choices(population, k=k)] without weights:
    [n = len(population) + 0.0] and
    [[population[floor(random() * n)] for i in repeat(None, k)]]. *)
Definition random_choices (population : string) (k : Z) : M (list string) :=
  let n := Float.add (Float.of_int (Z.of_nat (String.length population)))
                     (Float.zero false) in
  for_each (fun _ =>
    u <- random_random ;;
    i <- lift (math_floor (Float.mul u n)) ;;
    lift (str_index population i)) (range k).

(** [''.join(parts)] *)
Definition join (parts : list string) : string :=
  fold_right String.append EmptyString parts.

(** [random_name(prefix, length)]; [length] defaults to 6. *)
Definition random_name (prefix : string) (length : Z) : M string :=
  rand_part <- random_choices (ascii_uppercase ++ digits) length ;;
  ret (prefix ++ "-" ++ join rand_part).

(* ------------------------------------------------------------------ *)
(** * Generation functions *)

Section Generation.

Variable cfg : Config.

Definition generate_planets (gal_idx star_idx : Z) : M (list Planet.t) :=
  num_planets <- random_randint (fst (PLANET_COUNT_RANGE cfg))
                                (snd (PLANET_COUNT_RANGE cfg)) ;;
  for_each (fun pidx =>
    let code := "G" ++ str gal_idx ++ "-S" ++ str star_idx ++ "-P" ++ str pidx in
    mass <- random_mass ;;
    temp <- random_temperature ;;
    has_life <- random_bool_chance LIFE_PROBABILITY ;;
    minerals <- random_minerals ;;
    ret (Planet.mk code mass temp has_life minerals)) (range num_planets).

Definition spectral_types : list string := ["O"; "B"; "A"; "F"; "G"; "K"; "M"].

Definition generate_stars (gal_idx : Z) : M (list Star.t) :=
  num_stars <- random_randint (fst (STAR_COUNT_RANGE cfg))
                              (snd (STAR_COUNT_RANGE cfg)) ;;
  for_each (fun sidx =>
    let code := "G" ++ str gal_idx ++ "-S" ++ str sidx in
    mass <- random_mass ;;
    temp <- random_temperature ;;
    spec <- random_choice spectral_types ;;
    planets <- generate_planets gal_idx sidx ;;
    ret (Star.mk code mass temp spec planets)) (range num_stars).

Definition generate_black_holes (gal_idx : Z) : M (list BlackHole.t) :=
  num_bh <- random_randint (fst (BH_COUNT_RANGE cfg)) (snd (BH_COUNT_RANGE cfg)) ;;
  for_each (fun bidx =>
    let code := "G" ++ str gal_idx ++ "-BH" ++ str bidx in
    m <- random_mass ;;
    let mass := Float.mul m (Float.of_ratio 1000 1) in
    spin <- random_random ;;
    ret (BlackHole.mk code mass spin)) (range num_bh).

Definition generate_nebulae (gal_idx : Z) : M (list Nebula.t) :=
  num_neb <- random_randint (fst (NEBULA_COUNT_RANGE cfg))
                            (snd (NEBULA_COUNT_RANGE cfg)) ;;
  for_each (fun nidx =>
    let code := "G" ++ str gal_idx ++ "-N" ++ str nidx in
    m <- random_mass ;;
    mass <- lift (Float.div m (Float.of_ratio 10 1)) ;;
    t <- random_temperature ;;
    temp <- lift (Float.div t (Float.of_ratio 10 1)) ;;
    comp <- random_minerals ;;
    ret (Nebula.mk code mass temp comp)) (range num_neb).

Definition generate_asteroids (gal_idx : Z) : M (list Asteroid.t) :=
  num_ast <- random_randint (fst (ASTEROID_COUNT_RANGE cfg))
                            (snd (ASTEROID_COUNT_RANGE cfg)) ;;
  for_each (fun aidx =>
    let code := "G" ++ str gal_idx ++ "-A" ++ str aidx in
    m <- random_mass ;;
    mass <- lift (Float.div m (Float.of_ratio 1000 1)) ;;
    comp <- random_minerals ;;
    ret (Asteroid.mk code mass comp)) (range num_ast).

Definition generate_comets (gal_idx : Z) : M (list Comet.t) :=
  num_com <- random_randint (fst (COMET_COUNT_RANGE cfg))
                            (snd (COMET_COUNT_RANGE cfg)) ;;
  for_each (fun cidx =>
    let code := "G" ++ str gal_idx ++ "-C" ++ str cidx in
    m <- random_mass ;;
    mass <- lift (Float.div m (Float.of_ratio (10 ^ 6) 1)) ;;
    tail <- random_uniform (Float.of_ratio 1000 1) (Float.of_ratio 100000 1) ;;
    ret (Comet.mk code mass tail)) (range num_com).

Definition generate_galaxies : M (list Galaxy.t) :=
  for_each (fun gal_idx =>
    let code := "G" ++ str gal_idx in
    stars <- generate_stars gal_idx ;;
    black_holes <- generate_black_holes gal_idx ;;
    nebulae <- generate_nebulae gal_idx ;;
    asteroids <- generate_asteroids gal_idx ;;
    comets <- generate_comets gal_idx ;;
    ret (Galaxy.mk code stars black_holes nebulae asteroids comets))
    (range (NUM_GALAXIES cfg)).

End Generation.

(* ------------------------------------------------------------------ *)
(** * pickle, protocol 5

    [pickle.dumps(obj, protocol=pickle.HIGHEST_PROTOCOL)] and
    [pickle.loads] on the values of [pyval], at the level of the opcodes
    of the pickle virtual machine.  The pickler memoises objects by
    identity; the strings that reach it from [to_dict] are the key
    literals, the mineral names and the spectral letters of the module
    (one object each) and the generated codes (pairwise different), so
    the model shares a string exactly when it has been written before.
    Lists and dicts are built afresh by [to_dict] and never shared. *)

Module Pickle.

Local Open Scope list_scope.

Inductive op : Type :=
| PROTO (n : Z)
| FRAME (n : Z)
| EMPTY_DICT
| EMPTY_LIST
| MEMOIZE
| BINGET (i : Z)
| LONG_BINGET (i : Z)
| SHORT_BINUNICODE (s : string)
| BINUNICODE (s : string)
| BINUNICODE8 (s : string)
| BINFLOAT (x : float)
| NEWTRUE
| NEWFALSE
| MARK
| APPEND
| APPENDS
| SETITEM
| SETITEMS
| STOP.

Definition strlen (s : string) : Z := len (bytes_of_str s).

(** The bytes of an opcode and its argument. *)
Definition ser (o : op) : list byte :=
  match o with
  | PROTO n => [x80; byte_of_Z n]
  | FRAME n => x95 :: le_bytes 8 n
  | EMPTY_DICT => [x7d]
  | EMPTY_LIST => [x5d]
  | MEMOIZE => [x94]
  | BINGET i => [x68; byte_of_Z i]
  | LONG_BINGET i => x6a :: le_bytes 4 i
  | SHORT_BINUNICODE s => x8c :: byte_of_Z (strlen s) :: bytes_of_str s
  | BINUNICODE s => x58 :: le_bytes 4 (strlen s) ++ bytes_of_str s
  | BINUNICODE8 s => x8d :: le_bytes 8 (strlen s) ++ bytes_of_str s
  | BINFLOAT x => x47 :: be_bytes 8 x
  | NEWTRUE => [x88]
  | NEWFALSE => [x89]
  | MARK => [x28]
  | APPEND => [x61]
  | APPENDS => [x65]
  | SETITEM => [x73]
  | SETITEMS => [x75]
  | STOP => [x2e]
  end.

Definition ser_all (ops : list op) : list byte := flat_map ser ops.

(** An argument fits the field its opcode gives it; the pickler raises
    where one would not. *)
Definition op_ok (o : op) : bool :=
  match o with
  | PROTO n | BINGET n => (0 <=? n) && (n <? 256)
  | LONG_BINGET n => (0 <=? n) && (n <? 2 ^ 32)
  | FRAME n | BINFLOAT n => (0 <=? n) && (n <? 2 ^ 64)
  | SHORT_BINUNICODE s => strlen s <? 256
  | BINUNICODE s => strlen s <? 2 ^ 32
  | BINUNICODE8 s => strlen s <? 2 ^ 64
  | _ => true
  end.

(** ** The pickler *)

(** What [save] does, in order: [Save] marks the entry of a [save] call
    (where a full frame is committed), [W o] the write of an opcode. *)
Inductive ev : Type :=
| Save
| W (o : op).

(** The memo: entry [i] is the string memoised as [i], or [None] for a
    list or dict. *)
Definition memo : Type := list (option string).

Fixpoint memo_find (s : string) (m : memo) : option nat :=
  match m with
  | [] => None
  | e :: m' =>
      if match e with Some s' => String.eqb s' s | None => false end
      then Some O
      else option_map S (memo_find s m')
  end.

Definition get (i : nat) : op :=
  if Z.of_nat i <? 256 then BINGET (Z.of_nat i) else LONG_BINGET (Z.of_nat i).

Definition str_op (s : string) : op :=
  if strlen s <=? 255 then SHORT_BINUNICODE s
  else if 4294967295 <? strlen s then BINUNICODE8 s
  else BINUNICODE s.

Definition save_str (s : string) (m : memo) : list ev * memo :=
  match memo_find s m with
  | Some i => ([Save; W (get i)], m)
  | None => ([Save; W (str_op s); W MEMOIZE], m ++ [Some s])
  end.

Definition BATCHSIZE : nat := 1000.

Section Batches.

(** The [save] method, for the elements of a container. *)
Variable save : pyval -> memo -> list ev * memo.

(** The items of a list of two or more, after the first [MARK]: the
    batch is closed by [APPENDS] after [BATCHSIZE] items and at the end,
    and a new [MARK] opens the next one.  [c] counts the items of the
    open batch. *)
Fixpoint batch_appends (l : list pyval) (c : nat) (m : memo) : list ev * memo :=
  match l with
  | [] => ([], m)
  | x :: l' =>
      let (e1, m1) := save x m in
      match l' with
      | [] => (e1 ++ [W APPENDS], m1)
      | _ =>
          if Nat.eqb (S c) BATCHSIZE then
            let (e2, m2) := batch_appends l' O m1 in
            (e1 ++ [W APPENDS; W MARK] ++ e2, m2)
          else
            let (e2, m2) := batch_appends l' (S c) m1 in
            (e1 ++ e2, m2)
      end
  end.

(** The items of a dict of two or more, after the first [MARK]: a batch
    that reaches [BATCHSIZE] items is closed by [SETITEMS] and another
    one is opened, which [SETITEMS] closes at the end even when it is
    empty. *)
Fixpoint batch_setitems (d : list (string * pyval)) (c : nat) (m : memo)
    : list ev * memo :=
  match d with
  | [] => ([W SETITEMS], m)
  | (k, x) :: d' =>
      let (e1, m1) := save_str k m in
      let (e2, m2) := save x m1 in
      if Nat.eqb (S c) BATCHSIZE then
        let (e3, m3) := batch_setitems d' O m2 in
        (e1 ++ e2 ++ [W SETITEMS; W MARK] ++ e3, m3)
      else
        let (e3, m3) := batch_setitems d' (S c) m2 in
        (e1 ++ e2 ++ e3, m3)
  end.

End Batches.

Fixpoint save (v : pyval) (m : memo) : list ev * memo :=
  match v with
  | PStr s => save_str s m
  | PFloat x => ([Save; W (BINFLOAT x)], m)
  | PBool b => ([Save; W (if b then NEWTRUE else NEWFALSE)], m)
  | PList l =>
      let m0 := m ++ [None] in
      match l with
      | [] => ([Save; W EMPTY_LIST; W MEMOIZE], m0)
      | [x] =>
          let (e, m1) := save x m0 in
          ([Save; W EMPTY_LIST; W MEMOIZE] ++ e ++ [W APPEND], m1)
      | _ =>
          let (e, m1) := batch_appends save l O m0 in
          ([Save; W EMPTY_LIST; W MEMOIZE; W MARK] ++ e, m1)
      end
  | PDict d =>
      let m0 := m ++ [None] in
      match d with
      | [] => ([Save; W EMPTY_DICT; W MEMOIZE], m0)
      | [(k, x)] =>
          let (e1, m1) := save_str k m0 in
          let (e2, m2) := save x m1 in
          ([Save; W EMPTY_DICT; W MEMOIZE] ++ e1 ++ e2 ++ [W SETITEM], m2)
      | _ =>
          let (e, m1) := batch_setitems save d O m0 in
          ([Save; W EMPTY_DICT; W MEMOIZE; W MARK] ++ e, m1)
      end
  end.

(** ** Framing *)

Definition FRAME_SIZE_MIN : Z := 4.
Definition FRAME_SIZE_TARGET : Z := 64 * 1024.

Definition blen (ops : list op) : Z := len (ser_all ops).

(** Strings of [FRAME_SIZE_TARGET] bytes or more are written outside the
    frames. *)
Definition is_large (o : op) : bool :=
  match o with
  | BINUNICODE s | BINUNICODE8 s => FRAME_SIZE_TARGET <=? strlen s
  | _ => false
  end.

Definition commit_frame (cur : list op) : list op :=
  if FRAME_SIZE_MIN <=? blen cur then FRAME (blen cur) :: cur else cur.

(** [cur] is the frame being filled. *)
Fixpoint framer (cur : list op) (evs : list ev) : list op :=
  match evs with
  | [] => commit_frame cur
  | Save :: evs' =>
      if FRAME_SIZE_TARGET <=? blen cur
      then commit_frame cur ++ framer [] evs'
      else framer cur evs'
  | W o :: evs' =>
      if is_large o
      then commit_frame cur ++ o :: framer [] evs'
      else framer (cur ++ [o]) evs'
  end.

(** [Pickler.dump]: the protocol header, then the framed opcodes of
    [save(obj)] and [STOP]. *)
Definition dump (obj : pyval) : list op :=
  PROTO 5 :: framer [] (fst (save obj []) ++ [W STOP]).

Definition dumps (obj : pyval) : result (list byte) :=
  let ops := dump obj in
  if forallb op_ok ops then Ok (ser_all ops) else Raise PicklingError.

(** ** The unpickler *)














End Pickle.

(* ------------------------------------------------------------------ *)
(** * File writing logic *)

(** A file opened for binary writing: the bytes it holds (what a reader
    sees once the handle is flushed), the position of the handle and
    whether it has been closed. *)
Record file : Type := mkFile
  { contents : list byte; position : Z; closed : bool }.

(** [open(filename, 'wb')]: the file is created or truncated. *)
Definition file_open : file := mkFile [] 0 false.

(** [f.seek(offset)] *)
Definition file_seek (f : file) (offset : Z) : result file :=
  if closed f then Raise ValueError
  else if offset <? 0 then Raise OSError
  else Ok (mkFile (contents f) offset false).

(** [f.write(bs)]: the bytes go to the position of the handle; a gap
    between the end of the file and that position reads as zeros. *)
Definition file_write (f : file) (bs : list byte) : result file :=
  if closed f then Raise ValueError
  else
    match bs with
    | [] => Ok f
    | _ =>
        let pos := Z.to_nat (position f) in
        let old := (contents f ++ repeat x00 (pos - List.length (contents f)))%list in
        Ok (mkFile (firstn pos old ++ bs ++ skipn (pos + List.length bs) old)%list
                   (position f + len bs) false)
    end.

Definition file_close (f : file) : file :=
  mkFile (contents f) (position f) true.

Module UniverseWriter.

Record t : Type := mk
  { filename : string; target_size : Z; file_of : option file }.

(** A method either returns or raises; the object keeps the state it
    had reached in both cases. *)
Definition outcome : Type := (option exn * t)%type.

Definition init (filename : string) (target_size : Z) : t :=
  mk filename target_size None.

Definition enter (self : t) : t :=
  mk (filename self) (target_size self) (Some file_open).

Definition set_file (self : t) (f : file) : t :=
  mk (filename self) (target_size self) (Some f).

(** [self.file.seek(self.target_size - 1); self.file.write(b'\0');
    self.file.flush()] *)
Definition pad_file (self : t) : outcome :=
  match file_of self with
  | None => (Some AttributeError, self)
  | Some f =>
      match file_seek f (target_size self - 1) with
      | Raise e => (Some e, self)
      | Ok f1 =>
          match file_write f1 [x00] with
          | Raise e => (Some e, set_file self f1)
          | Ok f2 => (None, set_file self f2)
          end
      end
  end.

Definition write_universe (self : t) (universe : Universe.t) : outcome :=
  let uni_dict := Universe.to_dict universe in
  match Pickle.dumps uni_dict with
  | Raise e => (Some e, self)
  | Ok data =>
      let length := len data in
      match file_of self with
      | None => (Some AttributeError, self)
      | Some f =>
          match struct_pack_Q length with
          | Raise e => (Some e, self)
          | Ok prefix =>
              match file_write f prefix with
              | Raise e => (Some e, self)
              | Ok f1 =>
                  match file_write f1 data with
                  | Raise e => (Some e, set_file self f1)
                  | Ok f2 => (None, set_file self f2)
                  end
              end
          end
      end
  end.

(** [__exit__]: pads, then closes; it returns [None], so an exception
    of the body is raised again after it. *)
Definition exit (self : t) : outcome :=
  match pad_file self with
  | (Some e, self') => (Some e, self')
  | (None, self') =>
      match file_of self' with
      | Some f => (None, set_file self' (file_close f))
      | None => (None, self')
      end
  end.

(** [with UniverseWriter(filename, target_size) as writer: body(writer)] *)
Definition with_writer (filename : string) (target_size : Z)
    (body : t -> outcome) : outcome :=
  let writer := enter (init filename target_size) in
  let (e, w1) := body writer in
  match exit w1 with
  | (Some e', w2) => (Some e', w2)
  | (None, w2) => (e, w2)
  end.

(** The bytes of the output file, empty when it was never opened. *)
Definition output (self : t) : list byte :=
  match file_of self with
  | Some f => contents f
  | None => []
  end.

End UniverseWriter.

(* ------------------------------------------------------------------ *)
(** * Main execution *)

Definition UNIVERSE_FILE : string := "universe.bin".

Section Main.

(** [random.seed(s)]: the stream the generator produces from seed [s];
    the previous state of the module is discarded. *)
Variable seeded : Z -> rng.

Definition random_seed (s : Z) (previous : rng) : rng := seeded s.

(** The generation half of [main], for a seed and a configuration. *)
Definition generate_universe (cfg : Config) (seed : Z) (previous : rng)
    : result Universe.t :=
  match generate_galaxies cfg (random_seed seed previous) with
  | Ok (galaxies, _) => Ok (Universe.mk galaxies)
  | Raise e => Raise e
  end.

(** [main]: the exception it ends with, if any, and the output file. *)
Definition main_with (cfg : Config) (seed target_size : Z) (previous : rng)
    : option exn * list byte :=
  match generate_universe cfg seed previous with
  | Raise e => (Some e, [])
  | Ok universe =>
      let (e, w) :=
        UniverseWriter.with_writer UNIVERSE_FILE target_size
          (fun writer => UniverseWriter.write_universe writer universe) in
      (e, UniverseWriter.output w)
  end.

Definition main : rng -> option exn * list byte :=
  main_with default_config 42 TARGET_FILE_SIZE.

End Main.

(** The writer alone: [write_universe] inside the [with] block. *)
Definition write_and_pad (universe : Universe.t) (target_size : Z)
    : UniverseWriter.outcome :=
  UniverseWriter.with_writer UNIVERSE_FILE target_size
    (fun writer => UniverseWriter.write_universe writer universe).

(* ------------------------------------------------------------------ *)
(** * Notions used by the statements *)

(** The bytes of a file of contents [c] once a zero byte has been written
    at offset [t - 1]. *)
Definition padded (c : list byte) (t : Z) : list byte :=
  let pos := Z.to_nat (t - 1) in
  let old := (c ++ repeat x00 (pos - List.length c))%list in
  (firstn pos old ++ [x00] ++ skipn (pos + 1) old)%list.

(** What [write_universe] writes: the length prefix, then the payload. *)
Definition written (data : list byte) : list byte :=
  (le_bytes 8 (len data) ++ data)%list.



(** The codes of a list are those of its positions: element [i] has code
    [fmt i]. *)
Definition positional {A : Type} (code : A -> string) (fmt : Z -> string)
    (l : list A) : Prop :=
  map code l = map fmt (range (len l)).

(** All the codes directly inside a galaxy. *)
Definition object_codes (g : Galaxy.t) : list string :=
  (map Star.code (Galaxy.stars g) ++ map BlackHole.code (Galaxy.black_holes g)
   ++ map Nebula.code (Galaxy.nebulae g) ++ map Asteroid.code (Galaxy.asteroids g)
   ++ map Comet.code (Galaxy.comets g))%list.

(** The codes of star [si] of galaxy [gi]. *)
Definition star_codes_ok (gi si : Z) (s : Star.t) : Prop :=
  Star.code s = "G" ++ str gi ++ "-S" ++ str si /\
  positional Planet.code
    (fun pi => "G" ++ str gi ++ "-S" ++ str si ++ "-P" ++ str pi) (Star.planets s) /\
  NoDup (map Planet.code (Star.planets s)).

(** The codes of galaxy [gi] and of everything in it. *)
Definition galaxy_codes_ok (gi : Z) (g : Galaxy.t) : Prop :=
  Galaxy.code g = "G" ++ str gi /\
  positional Star.code (fun i => "G" ++ str gi ++ "-S" ++ str i) (Galaxy.stars g) /\
  positional BlackHole.code (fun i => "G" ++ str gi ++ "-BH" ++ str i)
    (Galaxy.black_holes g) /\
  positional Nebula.code (fun i => "G" ++ str gi ++ "-N" ++ str i) (Galaxy.nebulae g) /\
  positional Asteroid.code (fun i => "G" ++ str gi ++ "-A" ++ str i)
    (Galaxy.asteroids g) /\
  positional Comet.code (fun i => "G" ++ str gi ++ "-C" ++ str i) (Galaxy.comets g) /\
  NoDup (object_codes g) /\
  (forall si s, nth_error (Galaxy.stars g) si = Some s ->
     star_codes_ok gi (Z.of_nat si) s).


Definition well_formed (range : Z * Z) : Prop :=
  0 <= fst range <= snd range.

(** The configurations the specification calls valid. *)
Definition valid_config (cfg : Config) : Prop :=
  0 <= NUM_GALAXIES cfg /\
  well_formed (STAR_COUNT_RANGE cfg) /\ well_formed (PLANET_COUNT_RANGE cfg) /\
  well_formed (BH_COUNT_RANGE cfg) /\ well_formed (NEBULA_COUNT_RANGE cfg) /\
  well_formed (ASTEROID_COUNT_RANGE cfg) /\ well_formed (COMET_COUNT_RANGE cfg).

(** A computation that, whatever the draws, returns or raises
    [ZeroDivisionError]. *)
Definition only_zero_division {A : Type} (c : M A) : Prop :=
  forall r, (exists a r', c r = Ok (a, r')) \/ c r = Raise ZeroDivisionError.




(** One galaxy, every count range [(0, 0)]. *)
Definition empty_config : Config :=
  {| NUM_GALAXIES := 1;
     STAR_COUNT_RANGE := (0, 0);
     PLANET_COUNT_RANGE := (0, 0);
     BH_COUNT_RANGE := (0, 0);
     NEBULA_COUNT_RANGE := (0, 0);
     ASTEROID_COUNT_RANGE := (0, 0);
     COMET_COUNT_RANGE := (0, 0) |}.

(** The random outcome in which every draw is [0]. *)
Definition zero_draws : rng := fun _ => 0.

(** A small configuration and a stream of draws for examples. *)
Definition small_config : Config :=
  {| NUM_GALAXIES := 2;
     STAR_COUNT_RANGE := (1, 2);
     PLANET_COUNT_RANGE := (0, 1);
     BH_COUNT_RANGE := (1, 1);
     NEBULA_COUNT_RANGE := (1, 1);
     ASTEROID_COUNT_RANGE := (0, 1);
     COMET_COUNT_RANGE := (1, 1) |}.

Definition sample_draws : rng := fun n => Z.of_nat n * 1234567890123457 + 17.

(* ------------------------------------------------------------------ *)
(** * The unpickler on opcodes, and reading a Universe back *)

Module Unpickle.

Import Pickle.
Local Open Scope list_scope.












End Unpickle.



(** ** The inverse of [to_dict] *)
















(** The Universe generated from [small_config] and [sample_draws]. *)
Definition sample_universe : Universe.t :=
  Eval vm_compute in
    match generate_galaxies small_config sample_draws with
    | Ok (galaxies, _) => Universe.mk galaxies
    | Raise _ => Universe.mk []
    end.

(** [x] is a finite float that is not negative, of value [U * 2^-1074]. *)
Definition nonneg_fin (x : float) (U : Z) : Prop :=
  exists m e, Float.classify x = Float.Fin false m e /\
              0 <= m /\ -1074 <= e /\ U = m * 2 ^ (e + 1074).

(** The sum of the values of a composition, as a rational. *)
Definition total_value (d : dict float) : Q :=
  fold_right (fun kv acc => Qplus (Float.value (snd kv)) acc) (0 # 1)%Q d.

(** The sum of the values of a composition, in units of [2^-1074]. *)
Definition total_ulps (d : dict float) : Z :=
  fold_right (fun kv acc => Float.ulps (snd kv) + acc) 0 d.

(** A composition as the specification describes it: one weight per
    mineral name, each finite and not negative, the weights summing to
    1 within [10^-9]. *)
Definition composition_ok (d : dict float) : Prop :=
  map fst d = MINERAL_TYPES /\
  Forall (fun kv => Float.is_finite (snd kv) = true /\
                    (0 <= Float.value (snd kv))%Q) d /\
  (Qabs (total_value d - 1) <= 1 # 1000000000)%Q.

(** The draw that the [i]-th call of [random.random()] turns into a
    weight. *)
Definition weight_draw (r : rng) (i : nat) : Z := r i mod 2 ^ 53.

(** A weight as [random.random()] returns it, in units of [2^-1074]:
    zero, or at least [2^-54] and below 1. *)
Definition weight (w : float) (W : Z) : Prop :=
  nonneg_fin w W /\ (W = 0 \/ (2 ^ 1020 <= W /\ W < 2 ^ 1074)).

Definition sumZ (l : list Z) : Z := fold_right Z.add 0 l.

(** The weights that the draws at the indices [idxs] turn into. *)
Definition weights_of (r : rng) (idxs : list nat) : list float :=
  map (fun i => Float.of_ratio (weight_draw r i) (2 ^ 53)) idxs.

(** [n] lies in the count range [(lo, hi)], ends included. *)
Definition in_range (rg : Z * Z) (n : Z) : Prop := fst rg <= n <= snd rg.

(** The numbers of objects of a galaxy, and of planets of each of its
    stars, lie in the ranges of the configuration. *)
Definition counts_ok (cfg : Config) (g : Galaxy.t) : Prop :=
  in_range (STAR_COUNT_RANGE cfg) (len (Galaxy.stars g)) /\
  in_range (BH_COUNT_RANGE cfg) (len (Galaxy.black_holes g)) /\
  in_range (NEBULA_COUNT_RANGE cfg) (len (Galaxy.nebulae g)) /\
  in_range (ASTEROID_COUNT_RANGE cfg) (len (Galaxy.asteroids g)) /\
  in_range (COMET_COUNT_RANGE cfg) (len (Galaxy.comets g)) /\
  Forall (fun s => in_range (PLANET_COUNT_RANGE cfg) (len (Star.planets s)))
         (Galaxy.stars g).

(** Every star of the galaxy has one of the seven spectral letters. *)
Definition spectral_ok (g : Galaxy.t) : Prop :=
  Forall (fun s => In (Star.spectral_type s) spectral_types) (Galaxy.stars g).

(** The galaxies of [sample_universe]. *)
Definition sample_galaxies : list Galaxy.t := Universe.galaxies sample_universe.

(** [P] holds of every composition inside a galaxy: the minerals of
    each planet, the composition of each nebula and of each asteroid. *)
Definition each_composition (P : dict float -> Prop) (g : Galaxy.t) : Prop :=
  Forall (fun s => Forall (fun p => P (Planet.minerals p)) (Star.planets s))
         (Galaxy.stars g) /\
  Forall (fun n => P (Nebula.composition n)) (Galaxy.nebulae g) /\
  Forall (fun a => P (Asteroid.composition a)) (Galaxy.asteroids g).

(** Every composition inside a galaxy is as [composition_ok] describes. *)
Definition compositions_ok (g : Galaxy.t) : Prop :=
  each_composition composition_ok g.

(** A finite float of [[0, 1)]. *)
Definition unit_interval (x : float) : Prop :=
  Float.is_finite x = true /\ (0 <= Float.value x)%Q /\ (Float.value x < 1)%Q.

(** The spin of every black hole of the galaxy is in [[0, 1)]. *)
Definition spins_ok (g : Galaxy.t) : Prop :=
  Forall (fun b => unit_interval (BlackHole.spin b)) (Galaxy.black_holes g).

(** [U] units of [2^-1074] are the value of some double: a significand of
    at most 53 bits times a power of two of the grid. *)
Definition representable (U : Z) : Prop :=
  exists m e, 0 <= m < 2 ^ 53 /\ -1074 <= e /\ U = m * 2 ^ (e + 1074).

(** [x] is a finite float with [lo <= x <= hi]. *)
Definition between (lo hi x : float) : Prop :=
  Float.is_finite x = true /\
  (Float.value lo <= Float.value x)%Q /\ (Float.value x <= Float.value hi)%Q.

(** The ends of the tail length of a comet, in km. *)
Definition MIN_TAIL : float := Eval vm_compute in Float.of_ratio 1000 1.
Definition MAX_TAIL : float := Eval vm_compute in Float.of_ratio 100000 1.

(** The masses and temperatures of the stars and planets of a galaxy and
    the tail lengths of its comets lie between the ends that
    [random.uniform] was given. *)
Definition uniform_values_ok (g : Galaxy.t) : Prop :=
  Forall (fun s =>
            between MIN_MASS MAX_MASS (Star.mass s) /\
            between MIN_TEMP MAX_TEMP (Star.temperature s) /\
            Forall (fun p => between MIN_MASS MAX_MASS (Planet.mass p) /\
                             between MIN_TEMP MAX_TEMP (Planet.temperature p))
                   (Star.planets s))
         (Galaxy.stars g) /\
  Forall (fun c => between MIN_TAIL MAX_TAIL (Comet.tail_length_km c))
         (Galaxy.comets g).

(** The characters [random_name] draws from. *)
Definition name_alphabet : list ascii :=
  list_ascii_of_string (ascii_uppercase ++ digits).

(** The masses of the black holes, nebulae, asteroids and comets of a
    galaxy and the temperatures of its nebulae lie between the ends of
    [random_mass] and [random_temperature] scaled as generation scales
    them ([* 1e3], [/ 10.0], [/ 1e3], [/ 1e6]). *)
Definition scaled_values_ok (g : Galaxy.t) : Prop :=
  Forall (fun b =>
            between (Float.mul MIN_MASS (Float.of_ratio 1000 1))
                    (Float.mul MAX_MASS (Float.of_ratio 1000 1))
                    (BlackHole.mass b)) (Galaxy.black_holes g) /\
  Forall (fun n =>
            between (Float.div_value MIN_MASS (Float.of_ratio 10 1))
                    (Float.div_value MAX_MASS (Float.of_ratio 10 1))
                    (Nebula.mass n) /\
            between (Float.div_value MIN_TEMP (Float.of_ratio 10 1))
                    (Float.div_value MAX_TEMP (Float.of_ratio 10 1))
                    (Nebula.temperature n)) (Galaxy.nebulae g) /\
  Forall (fun a =>
            between (Float.div_value MIN_MASS (Float.of_ratio 1000 1))
                    (Float.div_value MAX_MASS (Float.of_ratio 1000 1))
                    (Asteroid.mass a)) (Galaxy.asteroids g) /\
  Forall (fun c =>
            between (Float.div_value MIN_MASS (Float.of_ratio (10 ^ 6) 1))
                    (Float.div_value MAX_MASS (Float.of_ratio (10 ^ 6) 1))
                    (Comet.mass c)) (Galaxy.comets g).

(* ================================================================== *)
(** * Properties *)

(** ** Bytes and fixed-width integers *)

Lemma Z_of_byte_range (b : byte) : 0 <= Z_of_byte b < 256.
Proof.
  unfold Z_of_byte. pose proof (Byte.to_N_bounded b) as H.
  split; [apply N2Z.is_nonneg | ]. lia.
Qed.


Lemma byte_of_Z_of_byte (b : byte) : byte_of_Z (Z_of_byte b) = b.
Proof.
  unfold byte_of_Z, Z_of_byte.
  pose proof (Byte.to_N_bounded b) as Hb.
  rewrite Z.mod_small by lia.
  rewrite N2Z.id, Byte.of_to_N. reflexivity.
Qed.

Lemma le_bytes_length (k : nat) (z : Z) : List.length (le_bytes k z) = k.
Proof.
  revert z. induction k as [|k IH]; intros z; simpl; [reflexivity | now rewrite IH].
Qed.


Lemma le_value_range (bs : list byte) :
  0 <= le_value bs < 256 ^ len bs.
Proof.
  unfold len. induction bs as [|b bs IH].
  - simpl. lia.
  - cbn [le_value List.length]. rewrite Nat2Z.inj_succ, Z.pow_succ_r by lia.
    pose proof (Z_of_byte_range b). lia.
Qed.

Lemma le_bytes_le_value (bs : list byte) :
  le_bytes (List.length bs) (le_value bs) = bs.
Proof.
  induction bs as [|b bs IH]; [reflexivity | ].
  cbn [le_value List.length le_bytes].
  pose proof (Z_of_byte_range b) as Hb.
  assert (Hd : (Z_of_byte b + 256 * le_value bs) / 256 = le_value bs).
  { rewrite Z.mul_comm, Z.div_add by lia. rewrite Z.div_small by lia. lia. }
  assert (Hm : byte_of_Z (Z_of_byte b + 256 * le_value bs) = b).
  { rewrite <- (byte_of_Z_of_byte b) at 2. unfold byte_of_Z.
    rewrite Z.mul_comm, Z.mod_add by lia. reflexivity. }
  rewrite Hm, Hd, IH. reflexivity.
Qed.


Lemma be_bytes_length (k : nat) (z : Z) : List.length (be_bytes k z) = k.
Proof. unfold be_bytes. rewrite length_rev. apply le_bytes_length. Qed.

Lemma len_app {A : Type} (l1 l2 : list A) : len (l1 ++ l2)%list = len l1 + len l2.
Proof. unfold len. rewrite length_app. lia. Qed.

Lemma len_nonneg {A : Type} (l : list A) : 0 <= len l.
Proof. unfold len. lia. Qed.

Lemma struct_pack_Q_ok (n : Z) :
  0 <= n < 2 ^ 64 -> struct_pack_Q n = Ok (le_bytes 8 n).
Proof.
  intros [H1 H2]. unfold struct_pack_Q.
  apply Z.leb_le in H1. apply Z.ltb_lt in H2. now rewrite H1, H2.
Qed.

(** ** The output file *)

Section FileFacts.

Local Open Scope list_scope.

Lemma file_write_append (f : file) (bs : list byte) :
  closed f = false -> position f = len (contents f) ->
  file_write f bs = Ok (mkFile (contents f ++ bs) (position f + len bs) false).
Proof.
  destruct f as [c p cl]. simpl. intros -> ->. unfold file_write. simpl.
  destruct bs as [|b bs].
  - rewrite app_nil_r. unfold len. simpl. now rewrite Z.add_0_r.
  - unfold len. rewrite Nat2Z.id, Nat.sub_diag. simpl repeat. rewrite app_nil_r.
    rewrite firstn_all, skipn_all2 by lia. now rewrite app_nil_r.
Qed.

Lemma file_write_byte (f : file) (b : byte) :
  closed f = false ->
  file_write f [b] =
    Ok (mkFile (let pos := Z.to_nat (position f) in
                let old := contents f ++ repeat x00 (pos - List.length (contents f)) in
                firstn pos old ++ [b] ++ skipn (pos + 1) old)
               (position f + 1) false).
Proof. intros Hc. unfold file_write. rewrite Hc. reflexivity. Qed.

Lemma padded_beyond (c : list byte) (t : Z) :
  len c < t -> padded c t = c ++ repeat x00 (Z.to_nat (t - len c)).
Proof.
  unfold len, padded. intros Ht. cbv zeta.
  set (n := List.length c) in *.
  assert (Hpos : Z.to_nat (t - 1) = (n + (Z.to_nat (t - 1) - n))%nat) by lia.
  set (k := (Z.to_nat (t - 1) - n)%nat) in *.
  rewrite Hpos.
  assert (Hl : List.length (c ++ repeat x00 k) = (n + k)%nat)
    by (rewrite length_app, repeat_length; reflexivity).
  rewrite firstn_all2 by lia. rewrite skipn_all2 by lia.
  rewrite app_nil_r, <- app_assoc. f_equal.
  replace (Z.to_nat (t - Z.of_nat n)) with (k + 1)%nat by lia.
  now rewrite repeat_app.
Qed.

Lemma padded_within (c : list byte) (t : Z) :
  1 <= t <= len c ->
  padded c t = firstn (Z.to_nat (t - 1)) c ++ [x00] ++ skipn (Z.to_nat t) c.
Proof.
  unfold len, padded. intros Ht. cbv zeta.
  replace (Z.to_nat (t - 1) - List.length c)%nat with O by lia.
  simpl repeat. rewrite app_nil_r.
  replace (Z.to_nat (t - 1) + 1)%nat with (Z.to_nat t) by lia. reflexivity.
Qed.

Lemma padded_length (c : list byte) (t : Z) :
  1 <= t -> len (padded c t) = Z.max (len c) t.
Proof.
  intros Ht. destruct (Z_lt_le_dec (len c) t) as [H|H].
  - rewrite padded_beyond by assumption. rewrite len_app.
    unfold len at 2. rewrite repeat_length. lia.
  - rewrite padded_within by lia. unfold len in *.
    rewrite !length_app, length_firstn, length_skipn.
    cbn [List.length]. lia.
Qed.

Lemma padded_last (c : list byte) (t : Z) (d : byte) :
  1 <= t -> nth (Z.to_nat (t - 1)) (padded c t) d = x00.
Proof.
  intros Ht. unfold padded. cbv zeta.
  set (pos := Z.to_nat (t - 1)).
  set (old := c ++ repeat x00 (pos - List.length c)).
  assert (Hold : (pos <= List.length old)%nat).
  { unfold old. rewrite length_app, repeat_length. lia. }
  rewrite app_nth2; rewrite length_firstn, Nat.min_l by assumption; [ | lia].
  now rewrite Nat.sub_diag.
Qed.

Lemma padded_within_unchanged (c : list byte) (t : Z) :
  1 <= t <= len c ->
  (padded c t = c <-> nth (Z.to_nat (t - 1)) c x00 = x00).
Proof.
  intros Ht. split.
  - intros H. rewrite <- H at 1. apply padded_last. lia.
  - intros H. rewrite padded_within by assumption.
    unfold len in Ht.
    rewrite <- (firstn_skipn (Z.to_nat (t - 1)) c) at 3. f_equal.
    assert (Hlt : (Z.to_nat (t - 1) < List.length c)%nat) by lia.
    rewrite <- (firstn_skipn (Z.to_nat (t - 1)) c) in H.
    rewrite app_nth2 in H; rewrite length_firstn, Nat.min_l in * by lia; [ | lia].
    rewrite Nat.sub_diag in H.
    replace (Z.to_nat t) with (1 + Z.to_nat (t - 1))%nat by lia.
    rewrite <- skipn_skipn.
    destruct (skipn (Z.to_nat (t - 1)) c) as [|b rest] eqn:E.
    + apply (f_equal (@List.length byte)) in E. rewrite length_skipn in E.
      simpl in E. lia.
    + simpl in *. now subst b.
Qed.

Lemma pad_file_spec (self : UniverseWriter.t) (f : file) :
  UniverseWriter.file_of self = Some f -> closed f = false ->
  1 <= UniverseWriter.target_size self ->
  UniverseWriter.pad_file self =
    (None, UniverseWriter.set_file self
             (mkFile (padded (contents f) (UniverseWriter.target_size self))
                     (UniverseWriter.target_size self) false)).
Proof.
  intros Hf Hc Ht. unfold UniverseWriter.pad_file. rewrite Hf.
  unfold file_seek. rewrite Hc.
  destruct (Z.ltb_spec (UniverseWriter.target_size self - 1) 0); [lia | ].
  rewrite file_write_byte by reflexivity. simpl.
  unfold padded, UniverseWriter.set_file. simpl.
  replace (UniverseWriter.target_size self - 1 + 1)
    with (UniverseWriter.target_size self) by lia.
  reflexivity.
Qed.

Lemma write_universe_spec (filename : string) (t : Z) (u : Universe.t)
    (data : list byte) :
  Pickle.dumps (Universe.to_dict u) = Ok data -> len data < 2 ^ 64 ->
  UniverseWriter.write_universe (UniverseWriter.enter (UniverseWriter.init filename t)) u =
    (None, UniverseWriter.mk filename t
             (Some (mkFile (le_bytes 8 (len data) ++ data) (8 + len data) false))).
Proof.
  intros Hd Hl. unfold UniverseWriter.write_universe. rewrite Hd.
  rewrite struct_pack_Q_ok by (pose proof (len_nonneg data); lia).
  cbn [UniverseWriter.enter UniverseWriter.init UniverseWriter.file_of
       UniverseWriter.filename UniverseWriter.target_size].
  rewrite (file_write_append file_open) by reflexivity.
  cbn [contents position file_open app].
  rewrite file_write_append; [ | reflexivity | ].
  - reflexivity.
  - cbn [contents position]. unfold len. now rewrite le_bytes_length.
Qed.

End FileFacts.

(** ** The writer: layout and size of the output file *)

Section WriterFacts.

Local Open Scope list_scope.

Lemma written_length (data : list byte) : len (written data) = 8 + len data.
Proof. unfold written. rewrite len_app. unfold len. now rewrite le_bytes_length. Qed.

(** The whole run of the writer on a payload that fits the prefix: the
    bytes written, then the effect of the padding write. *)
Lemma write_and_pad_output (u : Universe.t) (t : Z) (data : list byte) :
  Pickle.dumps (Universe.to_dict u) = Ok data -> len data < 2 ^ 64 -> 1 <= t ->
  exists w, write_and_pad u t = (None, w) /\
            UniverseWriter.output w = padded (written data) t.
Proof.
  intros Hd Hl Ht. unfold write_and_pad, UniverseWriter.with_writer.
  rewrite (write_universe_spec _ _ _ _ Hd Hl).
  unfold UniverseWriter.exit.
  erewrite pad_file_spec; [ | reflexivity | reflexivity | assumption ].
  cbn. eexists. split; reflexivity.
Qed.


(** The run of the writer on the empty Universe, used by the boundary
    cases below. *)
Lemma dumps_empty_universe :
  Pickle.dumps (Universe.to_dict (Universe.mk [])) =
    Ok [x80; x05; x95; x11; x00; x00; x00; x00; x00; x00; x00; x7d; x94;
        x8c; x08; x67; x61; x6c; x61; x78; x69; x65; x73; x94; x5d; x94;
        x73; x2e].
Proof. vm_compute. reflexivity. Qed.








End WriterFacts.

(** ** Codes *)

Section CodeFacts.

Lemma to_int_not_nil (z : Z) :
  Z.to_int z <> Decimal.Pos Decimal.Nil /\ Z.to_int z <> Decimal.Neg Decimal.Nil.
Proof.
  split; intros H; pose proof (DecimalZ.of_to z) as Hz; rewrite H in Hz;
    simpl in Hz; subst z; discriminate H.
Qed.

Lemma str_inj (i j : Z) : str i = str j -> i = j.
Proof.
  unfold str. intros H.
  apply (f_equal NilZero.int_of_string) in H.
  destruct (to_int_not_nil i) as [Hi1 Hi2], (to_int_not_nil j) as [Hj1 Hj2].
  rewrite !NilZero.isi in H by assumption.
  injection H as H. now apply DecimalZ.to_int_inj.
Qed.

Lemma append_inj_r (p a b : string) : p ++ a = p ++ b -> a = b.
Proof.
  induction p as [|c p IH]; simpl; intros H; [exact H | ].
  injection H as H. auto.
Qed.

Lemma NoDup_map_inj {A B : Type} (f : A -> B) (l : list A) :
  (forall a b, f a = f b -> a = b) -> NoDup l -> NoDup (map f l).
Proof.
  intros Hf H. induction H as [|x l Hx _ IH]; simpl; constructor; [ | exact IH].
  intros Hin. apply in_map_iff in Hin. destruct Hin as (y & Hy & Hin).
  apply Hf in Hy. now subst y.
Qed.

Lemma range_NoDup (n : Z) : NoDup (range n).
Proof.
  unfold range. apply NoDup_map_inj.
  - intros a b. apply Nat2Z.inj.
  - apply seq_NoDup.
Qed.

Lemma range_length (n : Z) : List.length (range n) = Z.to_nat n.
Proof. unfold range. now rewrite length_map, length_seq. Qed.

Lemma range_len_range (n : Z) : range (len (range n)) = range n.
Proof. unfold len. rewrite range_length. unfold range. now rewrite Nat2Z.id. Qed.

Lemma range_nth_error (n : Z) (i : nat) (x : Z) :
  nth_error (range n) i = Some x -> x = Z.of_nat i.
Proof.
  unfold range. rewrite nth_error_map.
  destruct (nth_error (seq 0 (Z.to_nat n)) i) as [k|] eqn:E; [ | discriminate].
  intros [= <-].
  assert (Hi : (i < Z.to_nat n)%nat).
  { pose proof (proj1 (nth_error_Some (seq 0 (Z.to_nat n)) i)) as Hs.
    rewrite length_seq in Hs. apply Hs. congruence. }
  apply nth_error_nth with (d := O) in E.
  rewrite seq_nth in E by exact Hi. simpl in E. now subst k.
Qed.

Lemma positional_NoDup {A : Type} (code : A -> string) (fmt : Z -> string)
    (l : list A) :
  (forall i j, fmt i = fmt j -> i = j) -> positional code fmt l ->
  NoDup (map code l).
Proof.
  intros Hinj Hp. rewrite Hp.
  apply NoDup_map_inj; [exact Hinj | apply range_NoDup].
Qed.

Lemma positional_nth {A : Type} (code : A -> string) (fmt : Z -> string)
    (l : list A) (i : nat) (x : A) :
  positional code fmt l -> nth_error l i = Some x -> code x = fmt (Z.of_nat i).
Proof.
  intros Hp Hx. apply (map_nth_error code) in Hx. rewrite Hp in Hx.
  rewrite nth_error_map in Hx.
  destruct (nth_error (range (len l)) i) as [k|] eqn:E; [ | discriminate].
  apply range_nth_error in E. subst k. now injection Hx as <-.
Qed.

End CodeFacts.

(** ** The generation monad *)

Section MonadFacts.

Lemma bind_Ok {A B : Type} (c : M A) (k : A -> M B) (r r' : rng) (b : B) :
  bind c k r = Ok (b, r') ->
  exists a r1, c r = Ok (a, r1) /\ k a r1 = Ok (b, r').
Proof.
  unfold bind. destruct (c r) as [[a r1]|e]; [ | discriminate].
  intros H. now exists a, r1.
Qed.

Lemma for_each_Forall2 {A B : Type} (f : A -> M B) (P : A -> B -> Prop) :
  (forall x r y r', f x r = Ok (y, r') -> P x y) ->
  forall l r ys r', for_each f l r = Ok (ys, r') -> Forall2 P l ys.
Proof.
  intros Hf l. induction l as [|x l IH]; intros r ys r' H.
  - injection H as <- _. constructor.
  - cbn [for_each] in H.
    apply bind_Ok in H. destruct H as (y & r1 & Hy & H).
    apply bind_Ok in H. destruct H as (ys' & r2 & Hys & H).
    injection H as <- _. constructor; eauto.
Qed.

Lemma Forall2_positional {A : Type} (code : A -> string) (fmt : Z -> string)
    (n : Z) (l : list A) :
  Forall2 (fun i x => code x = fmt i) (range n) l -> positional code fmt l.
Proof.
  intros H. unfold positional.
  assert (Hlen : len l = len (range n)).
  { unfold len. f_equal. symmetry. eapply Forall2_length; eassumption. }
  rewrite Hlen, range_len_range. clear Hlen.
  induction H as [|i x idxs xs Hx _ IH]; [reflexivity | ].
  simpl. now rewrite Hx, IH.
Qed.

(** A counted loop whose body gives element [i] the code [fmt i]. *)
Lemma counted_loop_positional {A : Type} (code : A -> string) (fmt : Z -> string)
    (lo hi : Z) (body : Z -> M A) (r r' : rng) (l : list A) :
  (forall i r y r', body i r = Ok (y, r') -> code y = fmt i) ->
  (num <- random_randint lo hi ;; for_each body (range num)) r = Ok (l, r') ->
  positional code fmt l.
Proof.
  intros Hb H. apply bind_Ok in H. destruct H as (num & r1 & _ & H).
  eapply Forall2_positional, for_each_Forall2; [ | exact H].
  exact Hb.
Qed.

End MonadFacts.

Ltac inv_bind H :=
  repeat (cbv beta zeta in H; apply bind_Ok in H;
          let a := fresh "a" in let r := fresh "r" in let Ha := fresh "Ha" in
          destruct H as (a & r & Ha & H));
  cbv beta zeta in H; unfold ret in H; injection H as <- _.

(** ** Codes of the generated objects *)

Section GeneratedCodes.

Variable cfg : Config.

Lemma Forall2_nth_error_r {A B : Type} (P : A -> B -> Prop) (l1 : list A)
    (l2 : list B) :
  Forall2 P l1 l2 ->
  forall i y, nth_error l2 i = Some y ->
  exists x, nth_error l1 i = Some x /\ P x y.
Proof.
  induction 1 as [|a b l1 l2 Hab _ IH]; intros i y Hy.
  - destruct i; discriminate.
  - destruct i as [|i]; simpl in *.
    + injection Hy as <-. now exists a.
    + now apply IH.
Qed.

Lemma Forall2_range_nth {B : Type} (P : Z -> B -> Prop) (n : Z) (l : list B) :
  Forall2 P (range n) l ->
  forall i y, nth_error l i = Some y -> P (Z.of_nat i) y.
Proof.
  intros H i y Hy.
  destruct (Forall2_nth_error_r P _ _ H i y Hy) as (x & Hx & HP).
  apply range_nth_error in Hx. now subst x.
Qed.

Lemma generate_planets_codes (gi si : Z) (r r' : rng) (ps : list Planet.t) :
  generate_planets cfg gi si r = Ok (ps, r') ->
  positional Planet.code
    (fun pi => "G" ++ str gi ++ "-S" ++ str si ++ "-P" ++ str pi) ps.
Proof.
  unfold generate_planets. apply counted_loop_positional.
  intros i r0 y r0' H. inv_bind H. reflexivity.
Qed.

Lemma planet_fmt_inj (gi si i j : Z) :
  "G" ++ str gi ++ "-S" ++ str si ++ "-P" ++ str i =
  "G" ++ str gi ++ "-S" ++ str si ++ "-P" ++ str j -> i = j.
Proof.
  intros H. do 5 apply append_inj_r in H. now apply str_inj.
Qed.

Lemma generate_stars_codes (gi : Z) (r r' : rng) (ss : list Star.t) :
  generate_stars cfg gi r = Ok (ss, r') ->
  positional Star.code (fun i => "G" ++ str gi ++ "-S" ++ str i) ss /\
  (forall si s, nth_error ss si = Some s -> star_codes_ok gi (Z.of_nat si) s).
Proof.
  unfold generate_stars. intros H.
  apply bind_Ok in H. destruct H as (num & r1 & _ & H).
  assert (HF : Forall2 (star_codes_ok gi) (range num) ss).
  { eapply for_each_Forall2; [ | exact H].
    intros i r0 s r0' Hb. cbv beta zeta in Hb.
    apply bind_Ok in Hb. destruct Hb as (mass & r2 & _ & Hb).
    apply bind_Ok in Hb. destruct Hb as (temp & r3 & _ & Hb).
    apply bind_Ok in Hb. destruct Hb as (spec & r4 & _ & Hb).
    apply bind_Ok in Hb. destruct Hb as (planets & r5 & Hp & Hb).
    injection Hb as <- _. apply generate_planets_codes in Hp.
    split; [reflexivity | ]. split; [exact Hp | ].
    eapply positional_NoDup; [ | exact Hp].
    intros a b. apply planet_fmt_inj. }
  split.
  - eapply Forall2_positional, Forall2_impl; [ | exact HF].
    intros a b Hab. apply Hab.
  - apply Forall2_range_nth with (n := num). exact HF.
Qed.

Lemma generate_black_holes_codes (gi : Z) (r r' : rng) (l : list BlackHole.t) :
  generate_black_holes cfg gi r = Ok (l, r') ->
  positional BlackHole.code (fun i => "G" ++ str gi ++ "-BH" ++ str i) l.
Proof.
  unfold generate_black_holes. apply counted_loop_positional.
  intros i r0 y r0' H. inv_bind H. reflexivity.
Qed.

Lemma generate_nebulae_codes (gi : Z) (r r' : rng) (l : list Nebula.t) :
  generate_nebulae cfg gi r = Ok (l, r') ->
  positional Nebula.code (fun i => "G" ++ str gi ++ "-N" ++ str i) l.
Proof.
  unfold generate_nebulae. apply counted_loop_positional.
  intros i r0 y r0' H. inv_bind H. reflexivity.
Qed.

Lemma generate_asteroids_codes (gi : Z) (r r' : rng) (l : list Asteroid.t) :
  generate_asteroids cfg gi r = Ok (l, r') ->
  positional Asteroid.code (fun i => "G" ++ str gi ++ "-A" ++ str i) l.
Proof.
  unfold generate_asteroids. apply counted_loop_positional.
  intros i r0 y r0' H. inv_bind H. reflexivity.
Qed.

Lemma generate_comets_codes (gi : Z) (r r' : rng) (l : list Comet.t) :
  generate_comets cfg gi r = Ok (l, r') ->
  positional Comet.code (fun i => "G" ++ str gi ++ "-C" ++ str i) l.
Proof.
  unfold generate_comets. apply counted_loop_positional.
  intros i r0 y r0' H. inv_bind H. reflexivity.
Qed.

End GeneratedCodes.

Section GalaxyCodes.

Variable cfg : Config.

Lemma positional_In {A : Type} (code : A -> string) (fmt : Z -> string)
    (l : list A) (x : string) :
  positional code fmt l -> In x (map code l) -> exists i, x = fmt i.
Proof.
  intros Hp Hin. rewrite Hp in Hin. apply in_map_iff in Hin.
  destruct Hin as (i & Hi & _). now exists i.
Qed.

Ltac tag_clash H :=
  do 2 apply append_inj_r in H; cbn [append] in H; discriminate H.

Lemma tagged_inj (a b c : string) (i j : Z) :
  a ++ b ++ c ++ str i = a ++ b ++ c ++ str j -> i = j.
Proof. intros H. do 3 apply append_inj_r in H. now apply str_inj. Qed.

Lemma object_codes_NoDup (gi : Z) (g : Galaxy.t) :
  positional Star.code (fun i => "G" ++ str gi ++ "-S" ++ str i) (Galaxy.stars g) ->
  positional BlackHole.code (fun i => "G" ++ str gi ++ "-BH" ++ str i)
    (Galaxy.black_holes g) ->
  positional Nebula.code (fun i => "G" ++ str gi ++ "-N" ++ str i) (Galaxy.nebulae g) ->
  positional Asteroid.code (fun i => "G" ++ str gi ++ "-A" ++ str i)
    (Galaxy.asteroids g) ->
  positional Comet.code (fun i => "G" ++ str gi ++ "-C" ++ str i) (Galaxy.comets g) ->
  NoDup (object_codes g).
Proof.
  intros Hs Hb Hn Ha Hc. unfold object_codes.
  assert (Ns := positional_NoDup _ _ _ (tagged_inj _ _ _) Hs).
  assert (Nb := positional_NoDup _ _ _ (tagged_inj _ _ _) Hb).
  assert (Nn := positional_NoDup _ _ _ (tagged_inj _ _ _) Hn).
  assert (Na := positional_NoDup _ _ _ (tagged_inj _ _ _) Ha).
  assert (Nc := positional_NoDup _ _ _ (tagged_inj _ _ _) Hc).
  repeat apply NoDup_app; try assumption; intros x Hx Hy;
    repeat (apply in_app_or in Hy; destruct Hy as [Hy|Hy]);
    match goal with
    | P : positional ?c _ _, H : In x (map ?c _) |- _ =>
        destruct (positional_In _ _ _ _ P H) as [i Hi]; clear H
    end;
    match goal with
    | P : positional ?c _ _, H : In x (map ?c _) |- _ =>
        destruct (positional_In _ _ _ _ P H) as [j Hj]; clear H
    end;
    rewrite Hi in Hj; tag_clash Hj.
Qed.

(** C4: in every generated Universe the code of the galaxy at index gi
    is "G{gi}", the codes of its stars, black holes, nebulae, asteroids
    and comets are "G{gi}-S{i}", "G{gi}-BH{i}", "G{gi}-N{i}",
    "G{gi}-A{i}" and "G{gi}-C{i}" for their indices i, the planets of
    star si have codes "G{gi}-S{si}-P{i}"; none of this depends on the
    draws, and the codes are pairwise different within the Universe
    (galaxies), within a galaxy (all its objects) and within a star
    (planets). *)
Theorem generated_codes_unique (r r' : rng) (gs : list Galaxy.t) :
  generate_galaxies cfg r = Ok (gs, r') ->
  positional Galaxy.code (fun gi => "G" ++ str gi) gs /\
  NoDup (map Galaxy.code gs) /\
  (forall gi g, nth_error gs gi = Some g -> galaxy_codes_ok (Z.of_nat gi) g).
Proof.
  unfold generate_galaxies. intros H.
  assert (HF : Forall2 galaxy_codes_ok (range (NUM_GALAXIES cfg)) gs).
  { eapply for_each_Forall2; [ | exact H].
    intros gi r0 g r0' Hb. cbv beta zeta in Hb.
    apply bind_Ok in Hb. destruct Hb as (stars & r1 & Hs & Hb).
    apply bind_Ok in Hb. destruct Hb as (bhs & r2 & Hbh & Hb).
    apply bind_Ok in Hb. destruct Hb as (nebs & r3 & Hn & Hb).
    apply bind_Ok in Hb. destruct Hb as (asts & r4 & Ha & Hb).
    apply bind_Ok in Hb. destruct Hb as (coms & r5 & Hc & Hb).
    injection Hb as <- _.
    apply generate_stars_codes in Hs. destruct Hs as [Hs Hst].
    apply generate_black_holes_codes in Hbh.
    apply generate_nebulae_codes in Hn.
    apply generate_asteroids_codes in Ha.
    apply generate_comets_codes in Hc.
    unfold galaxy_codes_ok. cbn [Galaxy.code Galaxy.stars Galaxy.black_holes
      Galaxy.nebulae Galaxy.asteroids Galaxy.comets].
    repeat (split; [first [reflexivity | assumption] | ]).
    split; [ | exact Hst].
    apply object_codes_NoDup with (gi := gi); assumption. }
  assert (Hp : positional Galaxy.code (fun gi => "G" ++ str gi) gs).
  { eapply Forall2_positional, Forall2_impl; [ | exact HF].
    intros a b Hab. apply Hab. }
  split; [exact Hp | ]. split.
  - eapply positional_NoDup; [ | exact Hp].
    intros i j Hij. apply append_inj_r in Hij. now apply str_inj.
  - apply Forall2_range_nth with (n := NUM_GALAXIES cfg). exact HF.
Qed.

End GalaxyCodes.

Lemma generated_codes_unique_witness :
  exists gs r',
    generate_galaxies small_config sample_draws = Ok (gs, r') /\
    NoDup (map Galaxy.code gs) /\
    (forall gi g, nth_error gs gi = Some g -> galaxy_codes_ok (Z.of_nat gi) g).
Proof.
  destruct (generate_galaxies small_config sample_draws) as [[gs r']|e] eqn:E.
  - exists gs, r'. split; [reflexivity | ].
    apply (generated_codes_unique small_config sample_draws r' gs E).
  - vm_compute in E. discriminate E.
Defined.

(** ** Determinism *)


(** ** Configuration errors *)

Section ConfigErrors.

Variable cfg : Config.








End ConfigErrors.



(** ** Totality of generation *)

Section Totality.

Lemma ozd_ret {A : Type} (a : A) : only_zero_division (ret a).
Proof. intros r. left. now exists a, r. Qed.

Lemma ozd_bind {A B : Type} (c : M A) (k : A -> M B) :
  only_zero_division c -> (forall a, only_zero_division (k a)) ->
  only_zero_division (bind c k).
Proof.
  intros Hc Hk r. unfold bind.
  destruct (Hc r) as [(a & r1 & ->)| ->]; [apply Hk | now right].
Qed.

Lemma ozd_for_each {A B : Type} (f : A -> M B) (l : list A) :
  (forall x, only_zero_division (f x)) -> only_zero_division (for_each f l).
Proof.
  intros Hf. induction l as [|x l IH]; cbn [for_each].
  - apply ozd_ret.
  - apply ozd_bind; [apply Hf | intros y].
    apply ozd_bind; [exact IH | intros ys; apply ozd_ret].
Qed.

Lemma ozd_random : only_zero_division random_random.
Proof. intros r. left. unfold random_random. cbn [next]. eauto. Qed.

Lemma ozd_uniform (a b : float) : only_zero_division (random_uniform a b).
Proof.
  unfold random_uniform. apply ozd_bind; [apply ozd_random | intros; apply ozd_ret].
Qed.

Lemma ozd_randint (rg : Z * Z) :
  fst rg <= snd rg -> only_zero_division (random_randint (fst rg) (snd rg)).
Proof.
  intros H r. left. unfold random_randint.
  destruct (Z.ltb_spec (snd rg) (fst rg)); [lia | ]. cbn [next]. eauto.
Qed.

Lemma ozd_choice {A : Type} (x : A) (l : list A) :
  only_zero_division (random_choice (x :: l)).
Proof. intros r. left. unfold random_choice. cbn [next]. eauto. Qed.

Lemma ozd_div (x y : float) : only_zero_division (lift (Float.div x y)).
Proof.
  intros r. unfold lift, Float.div.
  destruct (Float.is_zero y); [now right | left; eauto].
Qed.

Lemma dict_of_quotients_cases (pairs : list (string * float)) (total : float)
    (acc : dict float) :
  (exists d, dict_of_quotients pairs total acc = Ok d) \/
  dict_of_quotients pairs total acc = Raise ZeroDivisionError.
Proof.
  revert acc. induction pairs as [|[k wt] rest IH]; intros acc; cbn [dict_of_quotients].
  - left. now exists acc.
  - unfold Float.div. destruct (Float.is_zero total); [now right | apply IH].
Qed.

Lemma ozd_minerals : only_zero_division random_minerals.
Proof.
  unfold random_minerals. apply ozd_bind.
  - apply ozd_for_each. intros _. apply ozd_random.
  - intros weights r. unfold lift.
    destruct (dict_of_quotients_cases (combine MINERAL_TYPES weights)
                (py_sum weights) []) as [[d ->]| ->]; [left; eauto | now right].
Qed.

(** Under a valid configuration the only exception generation can end
    with is the division by zero of [random_minerals]. *)
Lemma generation_only_zero_division (cfg : Config) :
  valid_config cfg -> only_zero_division (generate_galaxies cfg).
Proof.
  intros (Hn & Hs & Hp & Hb & Hne & Ha & Hc).
  unfold well_formed in *.
  unfold generate_galaxies. apply ozd_for_each. intros gi. cbv beta zeta.
  apply ozd_bind.
  { unfold generate_stars. apply ozd_bind; [apply ozd_randint; lia | intros n].
    apply ozd_for_each. intros si. cbv beta zeta.
    apply ozd_bind; [apply ozd_uniform | intros mass].
    apply ozd_bind; [apply ozd_uniform | intros temp].
    apply ozd_bind; [apply ozd_choice | intros spec].
    apply ozd_bind; [ | intros; apply ozd_ret].
    unfold generate_planets. apply ozd_bind; [apply ozd_randint; lia | intros np].
    apply ozd_for_each. intros pi. cbv beta zeta.
    apply ozd_bind; [apply ozd_uniform | intros pm].
    apply ozd_bind; [apply ozd_uniform | intros pt].
    apply ozd_bind;
      [unfold random_bool_chance; apply ozd_bind;
         [apply ozd_random | intros; apply ozd_ret] | intros life].
    apply ozd_bind; [apply ozd_minerals | intros; apply ozd_ret]. }
  intros stars. apply ozd_bind.
  { unfold generate_black_holes. apply ozd_bind; [apply ozd_randint; lia | intros n].
    apply ozd_for_each. intros i. cbv beta zeta.
    apply ozd_bind; [apply ozd_uniform | intros m].
    apply ozd_bind; [apply ozd_random | intros; apply ozd_ret]. }
  intros bhs. apply ozd_bind.
  { unfold generate_nebulae. apply ozd_bind; [apply ozd_randint; lia | intros n].
    apply ozd_for_each. intros i. cbv beta zeta.
    apply ozd_bind; [apply ozd_uniform | intros m].
    apply ozd_bind; [apply ozd_div | intros mass].
    apply ozd_bind; [apply ozd_uniform | intros t].
    apply ozd_bind; [apply ozd_div | intros temp].
    apply ozd_bind; [apply ozd_minerals | intros; apply ozd_ret]. }
  intros nebs. apply ozd_bind.
  { unfold generate_asteroids. apply ozd_bind; [apply ozd_randint; lia | intros n].
    apply ozd_for_each. intros i. cbv beta zeta.
    apply ozd_bind; [apply ozd_uniform | intros m].
    apply ozd_bind; [apply ozd_div | intros mass].
    apply ozd_bind; [apply ozd_minerals | intros; apply ozd_ret]. }
  intros asts. apply ozd_bind.
  { unfold generate_comets. apply ozd_bind; [apply ozd_randint; lia | intros n].
    apply ozd_for_each. intros i. cbv beta zeta.
    apply ozd_bind; [apply ozd_uniform | intros m].
    apply ozd_bind; [apply ozd_div | intros mass].
    apply ozd_bind; [apply ozd_uniform | intros; apply ozd_ret]. }
  intros coms. apply ozd_ret.
Qed.

Lemma counted_loop_zero {B : Type} (body : Z -> M B) (r : rng) :
  bind (random_randint 0 0) (fun n => for_each body (range n)) r =
    Ok ([], snd (next r)).
Proof.
  unfold bind, random_randint. cbn [Z.ltb Z.compare next snd].
  now rewrite Z.mod_1_r.
Qed.

(** The boundary scenario: with every count range (0, 0) and one galaxy
    the result is the galaxy "G0" with its five collections empty,
    whatever the draws. *)
Lemma empty_config_one_empty_galaxy (r : rng) :
  exists r',
    generate_galaxies empty_config r = Ok ([Galaxy.mk "G0" [] [] [] [] []], r').
Proof.
  assert (Hs : forall gi r, generate_stars empty_config gi r = Ok ([], snd (next r)))
    by (intros; apply counted_loop_zero).
  assert (Hb : forall gi r, generate_black_holes empty_config gi r = Ok ([], snd (next r)))
    by (intros; apply counted_loop_zero).
  assert (Hn : forall gi r, generate_nebulae empty_config gi r = Ok ([], snd (next r)))
    by (intros; apply counted_loop_zero).
  assert (Ha : forall gi r, generate_asteroids empty_config gi r = Ok ([], snd (next r)))
    by (intros; apply counted_loop_zero).
  assert (Hc : forall gi r, generate_comets empty_config gi r = Ok ([], snd (next r)))
    by (intros; apply counted_loop_zero).
  unfold generate_galaxies.
  change (range (NUM_GALAXIES empty_config)) with [0].
  cbn [for_each]. unfold bind. rewrite Hs, Hb, Hn, Ha, Hc.
  eexists. reflexivity.
Qed.


End Totality.

(** ** pickle: the bytes of an opcode are read back as that opcode *)

Section ParseFacts.

Import Pickle.
Local Open Scope list_scope.









End ParseFacts.

(** ** pickle: frames do not change what is unpickled *)

Section FrameFacts.

Import Pickle Unpickle.
Local Open Scope list_scope.

















End FrameFacts.

(** ** pickle: what [save] writes unpickles to the value saved *)

Section SaveFacts.

Import Pickle Unpickle.
Local Open Scope list_scope.








Lemma dict_set_fresh {V : Type} (d : dict V) (k : string) (v : V) :
  ~ In k (map fst d) -> dict_set d k v = d ++ [(k, v)].
Proof.
  induction d as [|[k' v'] d IH]; intros Hn; [reflexivity | ].
  cbn [dict_set]. cbn [map fst In] in Hn.
  destruct (String.eqb_spec k' k) as [->|Hne]; [tauto | ].
  cbn [app]. rewrite IH by tauto. reflexivity.
Qed.


End SaveFacts.

Section SaveCorrect.

Import Pickle Unpickle.
Local Open Scope list_scope.



End SaveCorrect.

Section RoundTrip.

Import Pickle Unpickle.
Local Open Scope list_scope.
















End RoundTrip.



(* ------------------------------------------------------------------ *)
(** * Floating-point arithmetic and the mineral compositions *)

Section Pow2.

Import Float.

Lemma pow2_pos (k : Z) : 0 < pow2 k.
Proof. unfold pow2. apply Z.pow_pos_nonneg; lia. Qed.

Lemma pow2_nonneg (k : Z) : 0 <= k -> pow2 k = 2 ^ k.
Proof. intros H. unfold pow2. now rewrite Z.max_r. Qed.

Lemma pow2_nonpos (k : Z) : k <= 0 -> pow2 k = 1.
Proof. intros H. unfold pow2. now rewrite Z.max_l. Qed.

(** Scaling a ratio by [2^j]: one factor [c] relates both sides. *)
Lemma pow2_shift (k j : Z) :
  0 <= j ->
  exists c, 0 < c /\ pow2 (k + j) * c = pow2 k * 2 ^ j /\
            pow2 (- (k + j)) * c = pow2 (- k).
Proof.
  intros Hj.
  destruct (Z_le_gt_dec 0 k) as [Hk|Hk].
  - exists 1. rewrite (pow2_nonneg (k + j)), (pow2_nonneg k),
      (pow2_nonpos (- (k + j))), (pow2_nonpos (- k)) by lia.
    rewrite Z.pow_add_r by lia. lia.
  - destruct (Z_le_gt_dec 0 (k + j)) as [Hkj|Hkj].
    + exists (2 ^ (- k)). rewrite (pow2_nonneg (k + j)), (pow2_nonpos (- (k + j))),
        (pow2_nonpos k), (pow2_nonneg (- k)) by lia.
      split; [apply Z.pow_pos_nonneg; lia | ].
      rewrite !Z.mul_1_l. split; [ | reflexivity].
      rewrite <- Z.pow_add_r by lia. f_equal; lia.
    + exists (2 ^ j). rewrite (pow2_nonpos (k + j)), (pow2_nonneg (- (k + j))),
        (pow2_nonpos k), (pow2_nonneg (- k)) by lia.
      split; [apply Z.pow_pos_nonneg; lia | ].
      rewrite !Z.mul_1_l. split; [reflexivity | ].
      rewrite <- Z.pow_add_r by lia. f_equal; lia.
Qed.

(** Units of [2^-1074]: one factor [s] turns the scaled ratio into them. *)
Lemma pow2_scale (e : Z) :
  -1074 <= e ->
  exists s, 0 < s /\ 2 ^ (e + 1074) = pow2 e * s /\ 2 ^ 1074 = pow2 (- e) * s.
Proof.
  intros He. destruct (Z_le_gt_dec 0 e) as [H|H].
  - exists (2 ^ 1074). rewrite (pow2_nonneg e), (pow2_nonpos (- e)) by lia.
    split; [reflexivity | ]. rewrite Z.pow_add_r by lia. lia.
  - exists (2 ^ (e + 1074)). rewrite (pow2_nonpos e), (pow2_nonneg (- e)) by lia.
    split; [apply Z.pow_pos_nonneg; lia | ].
    rewrite Z.mul_1_l. split; [reflexivity | ].
    rewrite <- Z.pow_add_r by lia. f_equal; lia.
Qed.

Lemma rne_div_spec (N D : Z) :
  0 <= N -> 0 < D ->
  2 * Z.abs (rne_div N D * D - N) <= D /\
  forall a b, a * D <= N -> N < b * D -> a <= rne_div N D <= b.
Proof.
  intros HN HD. unfold rne_div.
  pose proof (Z.div_mod N D ltac:(lia)) as Hdm.
  pose proof (Z.mod_pos_bound N D HD) as Hr.
  set (q := N / D) in *. set (r := N mod D) in *.
  assert (Hq : forall a b, a * D <= N -> N < b * D -> a <= q < b).
  { intros a b Ha Hb. split.
    - apply Z.div_le_lower_bound; lia.
    - apply Z.div_lt_upper_bound; lia. }
  split.
  - destruct (Z.ltb_spec (2 * r) D); [nia | ].
    destruct (Z.ltb_spec D (2 * r)); [nia | ].
    destruct (Z.even q); nia.
  - intros a b Ha Hb. specialize (Hq a b Ha Hb).
    destruct (Z.ltb_spec (2 * r) D); [lia | ].
    destruct (Z.ltb_spec D (2 * r)); [lia | ].
    destruct (Z.even q); lia.
Qed.

Lemma pow2_split (a b : Z) : 0 <= a -> 0 <= b -> 2 ^ (a + b) = 2 ^ a * 2 ^ b.
Proof. intros. now apply Z.pow_add_r. Qed.

Lemma ilog2_ratio_spec (n d : Z) :
  0 < n -> 0 < d ->
  let l := ilog2_ratio n d in
  d * pow2 l <= n * pow2 (- l) /\ n * pow2 (- (l + 1)) < d * pow2 (l + 1).
Proof.
  intros Hn Hd. unfold ilog2_ratio.
  pose proof (Z.log2_spec n Hn) as [Hn1 Hn2].
  pose proof (Z.log2_spec d Hd) as [Hd1 Hd2].
  pose proof (Z.log2_nonneg n) as Ha. pose proof (Z.log2_nonneg d) as Hb.
  set (a := Z.log2 n) in *. set (b := Z.log2 d) in *.
  rewrite <- !Z.add_1_r in *.
  assert (Pa : 0 < 2 ^ a) by (apply Z.pow_pos_nonneg; lia).
  assert (Pb : 0 < 2 ^ b) by (apply Z.pow_pos_nonneg; lia).
  destruct (Z.leb_spec (d * pow2 (a - b)) (n * pow2 (- (a - b)))) as [Ht|Ht].
  - split; [exact Ht | ].
    destruct (Z_le_gt_dec 0 (a - b + 1)) as [H|H].
    + rewrite (pow2_nonneg (a - b + 1)), (pow2_nonpos (- (a - b + 1))) by lia.
      pose proof (pow2_split (a - b + 1) b ltac:(lia) ltac:(lia)) as E.
      replace (a - b + 1 + b) with (a + 1) in E by lia.
      assert (0 < 2 ^ (a - b + 1)) by (apply Z.pow_pos_nonneg; lia). nia.
    + rewrite (pow2_nonpos (a - b + 1)), (pow2_nonneg (- (a - b + 1))) by lia.
      pose proof (pow2_split (- (a - b + 1)) (a + 1) ltac:(lia) ltac:(lia)) as E.
      replace (- (a - b + 1) + (a + 1)) with b in E by lia.
      assert (0 < 2 ^ (- (a - b + 1))) by (apply Z.pow_pos_nonneg; lia). nia.
  - replace (a - b - 1 + 1) with (a - b) by lia. split; [ | lia].
    destruct (Z_le_gt_dec 0 (a - b - 1)) as [H|H].
    + rewrite (pow2_nonneg (a - b - 1)), (pow2_nonpos (- (a - b - 1))) by lia.
      pose proof (pow2_split (a - b - 1) (b + 1) ltac:(lia) ltac:(lia)) as E.
      replace (a - b - 1 + (b + 1)) with a in E by lia.
      assert (0 < 2 ^ (a - b - 1)) by (apply Z.pow_pos_nonneg; lia). nia.
    + rewrite (pow2_nonpos (a - b - 1)), (pow2_nonneg (- (a - b - 1))) by lia.
      pose proof (pow2_split (- (a - b - 1)) a ltac:(lia) ltac:(lia)) as E.
      replace (- (a - b - 1) + a) with (b + 1) in E by lia.
      assert (0 < 2 ^ (- (a - b - 1))) by (apply Z.pow_pos_nonneg; lia). nia.
Qed.

End Pow2.

Section Rounding.

Import Float.

Lemma sign_small (x : Z) : 0 <= x < 2 ^ 63 -> sign x = false.
Proof.
  intros [H0 H1]. unfold sign.
  destruct (Z.eq_dec x 0) as [->|Hx]; [reflexivity | ].
  apply Z.bits_above_log2; [exact H0 | ].
  apply Z.log2_lt_pow2; lia.
Qed.

Lemma classify_zero : nonneg_fin 0 0.
Proof. exists 0, (-1074). repeat split; (reflexivity || lia). Qed.

(** The pattern [(e + 1074) * 2^52 + M] for a significand [M] of 53 bits
    (or [2^53], after a carry) decodes to [M * 2^e]. *)
Lemma classify_normal (M e : Z) :
  2 ^ 52 <= M <= 2 ^ 53 -> -1074 <= e <= 970 ->
  (e + 1074) * 2 ^ 52 + M < 2047 * 2 ^ 52 /\
  nonneg_fin ((e + 1074) * 2 ^ 52 + M) (M * 2 ^ (e + 1074)).
Proof.
  intros HM He.
  change (2 ^ 52) with 4503599627370496 in *.
  change (2 ^ 53) with 9007199254740992 in *.
  split; [lia | ].
  set (x := (e + 1074) * 4503599627370496 + M).
  assert (Hx : 0 <= x < 2 ^ 63)
    by (change (2 ^ 63) with 9223372036854775808; unfold x; lia).
  pose proof (sign_small x Hx) as Hs.
  destruct (Z_lt_le_dec M 9007199254740992) as [Hlt|Hge].
  - assert (Hq : x / 4503599627370496 = e + 1075)
      by (symmetry; apply Z.div_unique with (r := M - 4503599627370496);
          unfold x; lia).
    assert (Hr : x mod 4503599627370496 = M - 4503599627370496)
      by (symmetry; apply Z.mod_unique with (q := e + 1075); unfold x; lia).
    exists M, e. unfold classify, expo, frac.
    change (2 ^ 52) with 4503599627370496. rewrite Hq, Hr, Hs.
    rewrite Z.mod_small by lia.
    destruct (Z.eqb_spec (e + 1075) 2047); [lia | ].
    destruct (Z.eqb_spec (e + 1075) 0); [lia | ].
    repeat split; try lia. f_equal; lia.
  - assert (HM' : M = 9007199254740992) by lia. subst M.
    assert (Hq : x / 4503599627370496 = e + 1076)
      by (symmetry; apply Z.div_unique with (r := 0); unfold x; lia).
    assert (Hr : x mod 4503599627370496 = 0)
      by (symmetry; apply Z.mod_unique with (q := e + 1076); unfold x; lia).
    exists 4503599627370496, (e + 1). unfold classify, expo, frac.
    change (2 ^ 52) with 4503599627370496. rewrite Hq, Hr, Hs.
    rewrite Z.mod_small by lia.
    destruct (Z.eqb_spec (e + 1076) 2047); [lia | ].
    destruct (Z.eqb_spec (e + 1076) 0); [lia | ].
    change (0 =? 0) with true. cbv iota.
    repeat split; try lia.
    + f_equal; lia.
    + replace (e + 1 + 1074) with (1 + (e + 1074)) by lia.
      rewrite (Z.pow_add_r 2 1 (e + 1074)) by lia. change (2 ^ 1) with 2. lia.
Qed.

(** Rounding a ratio of the normal range: the result is a finite float
    within a relative [2^-53] of the ratio. *)
Lemma round_pos_spec (n d : Z) :
  0 < n -> 0 < d -> d <= n * 2 ^ 1022 -> n < d * 2 ^ 1023 ->
  exists U, nonneg_fin (round_pos n d) U /\
            Z.abs (U * d - n * 2 ^ 1074) * 2 ^ 53 <= n * 2 ^ 1074.
Proof.
  intros Hn Hd Hlo Hhi. unfold round_pos.
  destruct (ilog2_ratio_spec n d Hn Hd) as [L1 L2].
  set (l := ilog2_ratio n d) in *.
  assert (Hl : -1022 <= l <= 1022).
  { split.
    - destruct (Z_le_gt_dec (-1022) l) as [|C]; [assumption | exfalso].
      rewrite (pow2_nonpos (l + 1)), (pow2_nonneg (- (l + 1))) in L2 by lia.
      assert (2 ^ 1022 <= 2 ^ (- (l + 1))) by (apply Z.pow_le_mono_r; lia).
      nia.
    - destruct (Z_le_gt_dec l 1022) as [|C]; [assumption | exfalso].
      rewrite (pow2_nonneg l), (pow2_nonpos (- l)) in L1 by lia.
      assert (2 ^ 1023 <= 2 ^ l) by (apply Z.pow_le_mono_r; lia).
      nia. }
  rewrite Z.max_l by lia.
  set (e := l - 52) in *.
  set (N := n * pow2 (- e)). set (D := d * pow2 e).
  assert (HD : 0 < D) by (pose proof (pow2_pos e); unfold D; nia).
  assert (HN : 0 < N) by (pose proof (pow2_pos (- e)); unfold N; nia).
  assert (B1 : 2 ^ 52 * D <= N).
  { destruct (pow2_shift e 52 ltac:(lia)) as (c & Hc & E1 & E2).
    replace (e + 52) with l in * by (unfold e; lia).
    unfold N, D. rewrite <- E2.
    replace (2 ^ 52 * (d * pow2 e)) with (d * (pow2 e * 2 ^ 52)) by ring.
    rewrite <- E1. nia. }
  assert (B2 : N < 2 ^ 53 * D).
  { destruct (pow2_shift e 53 ltac:(lia)) as (c & Hc & E1 & E2).
    replace (e + 53) with (l + 1) in * by (unfold e; lia).
    unfold N, D. rewrite <- E2.
    replace (2 ^ 53 * (d * pow2 e)) with (d * (pow2 e * 2 ^ 53)) by ring.
    rewrite <- E1. nia. }
  destruct (rne_div_spec N D ltac:(lia) HD) as [R1 R2].
  specialize (R2 (2 ^ 52) (2 ^ 53) B1 B2).
  set (M := rne_div N D) in *.
  destruct (classify_normal M e R2 ltac:(unfold e; lia)) as [Hb Hc].
  rewrite Z.min_l by lia.
  exists (M * 2 ^ (e + 1074)). split; [exact Hc | ].
  destruct (pow2_scale e ltac:(unfold e; lia)) as (s & Hs & S1 & S2).
  rewrite S1, S2.
  replace (M * (pow2 e * s) * d - n * (pow2 (- e) * s)) with ((M * D - N) * s)
    by (unfold N, D; ring).
  replace (n * (pow2 (- e) * s)) with (N * s) by (unfold N; ring).
  rewrite Z.abs_mul, (Z.abs_eq s) by lia.
  assert (Z.abs (M * D - N) * 2 ^ 53 <= N).
  { change (2 ^ 53) with (2 * 2 ^ 52). change (2 ^ 52) with 4503599627370496 in *. lia. }
  nia.
Qed.

Lemma round_ratio_spec (n d : Z) :
  0 <= n -> 0 < d -> (n = 0 \/ (d <= n * 2 ^ 1022 /\ n < d * 2 ^ 1023)) ->
  exists U, nonneg_fin (round_ratio false n d) U /\
            Z.abs (U * d - n * 2 ^ 1074) * 2 ^ 53 <= n * 2 ^ 1074.
Proof.
  intros Hn Hd Hr. unfold round_ratio, sign_bits. rewrite Z.add_0_l.
  destruct (Z.eqb_spec n 0) as [->|Hne].
  - exists 0. split; [exact classify_zero | simpl; lia].
  - destruct Hr as [|[H1 H2]]; [contradiction | ].
    apply round_pos_spec; lia.
Qed.

End Rounding.

Section Arithmetic.

Import Float.

Lemma pow2_cross (e e' : Z) :
  -1074 <= e -> -1074 <= e' ->
  pow2 (e - e') * 2 ^ (e' + 1074) = pow2 (e' - e) * 2 ^ (e + 1074).
Proof.
  intros He He'. destruct (Z_le_gt_dec e' e) as [H|H].
  - rewrite (pow2_nonneg (e - e')), (pow2_nonpos (e' - e)) by lia.
    rewrite <- Z.pow_add_r by lia. rewrite Z.mul_1_l. f_equal; lia.
  - rewrite (pow2_nonpos (e - e')), (pow2_nonneg (e' - e)) by lia.
    rewrite <- Z.pow_add_r by lia. rewrite Z.mul_1_l. f_equal; lia.
Qed.

Lemma nonneg_fin_nonneg (x : float) (U : Z) : nonneg_fin x U -> 0 <= U.
Proof.
  intros (m & e & _ & Hm & He & ->).
  apply Z.mul_nonneg_nonneg; [exact Hm | apply Z.pow_nonneg; lia].
Qed.

Lemma nonneg_fin_ulps (x : float) (U : Z) :
  nonneg_fin x U -> ulps x = U /\ is_finite x = true.
Proof.
  intros (m & e & Hc & Hm & He & ->). unfold ulps, is_finite. rewrite Hc.
  split; reflexivity.
Qed.

Lemma nonneg_fin_is_zero (x : float) (U : Z) :
  nonneg_fin x U -> is_zero x = (U =? 0).
Proof.
  intros (m & e & Hc & Hm & He & ->). unfold is_zero. rewrite Hc.
  assert (0 < 2 ^ (e + 1074)) by (apply Z.pow_pos_nonneg; lia).
  destruct (Z.eqb_spec m 0) as [->|Hne]; [reflexivity | ].
  symmetry. apply Z.eqb_neq. nia.
Qed.

(** Bounds of a ratio [n' / d'] read off the value [X] it stands for. *)
Lemma ratio_bounds (X d' n' a b k c : Z) :
  0 < a -> 0 < b -> 0 < c -> 0 < d' -> c = a * b ->
  a <= X -> X < k * c -> X * d' = n' * c ->
  d' <= n' * b /\ n' < d' * k.
Proof.
  intros Ha Hb Hc Hd -> HaX HXk Hid. split.
  - apply (Z.mul_le_mono_pos_r _ _ a Ha). nia.
  - apply (Z.mul_lt_mono_pos_r (a * b) _ _ Hc). nia.
Qed.

(** Addition of finite floats that are not negative. *)
Lemma add_spec (a b : float) (A B : Z) :
  nonneg_fin a A -> nonneg_fin b B ->
  (A + B = 0 \/ (2 ^ 52 <= A + B /\ A + B < 2 ^ 2097)) ->
  exists U, nonneg_fin (add a b) U /\ Z.abs (U - (A + B)) * 2 ^ 53 <= A + B.
Proof.
  intros (m & e & Ha & Hm & He & ->) (m' & e' & Hb & Hm' & He' & ->) Hr.
  unfold add. rewrite Ha, Hb. cbv zeta. unfold signed.
  set (e0 := Z.min e e').
  set (n := m * 2 ^ (e - e0) + m' * 2 ^ (e' - e0)).
  assert (He0 : -1074 <= e0) by (unfold e0; lia).
  assert (Hsum : m * 2 ^ (e + 1074) + m' * 2 ^ (e' + 1074) = n * 2 ^ (e0 + 1074)).
  { unfold n. rewrite Z.mul_add_distr_r, <- !Z.mul_assoc, <- !Z.pow_add_r
      by (unfold e0; lia).
    f_equal; do 2 f_equal; lia. }
  rewrite Hsum in *.
  assert (Hn : 0 <= n).
  { unfold n. apply Z.add_nonneg_nonneg; apply Z.mul_nonneg_nonneg;
      try assumption; apply Z.pow_nonneg; lia. }
  assert (Hp : 0 < 2 ^ (e0 + 1074)) by (apply Z.pow_pos_nonneg; lia).
  destruct (Z.eqb_spec n 0) as [Hz|Hnz].
  - exists 0. split; [exact classify_zero | ]. rewrite Hz. simpl. lia.
  - destruct (Z.ltb_spec n 0) as [Hlt|_]; [clear - Hn Hlt; lia | ].
    rewrite Z.abs_eq by exact Hn.
    destruct Hr as [Hr|[Hr1 Hr2]];
      [apply Z.mul_eq_0 in Hr; destruct Hr as [Hr|Hr];
       [contradiction | rewrite Hr in Hp; discriminate Hp] | ].
    destruct (pow2_scale e0 He0) as (s & Hs & S1 & S2).
    pose proof (pow2_pos e0) as P1. pose proof (pow2_pos (- e0)) as P2.
    set (n' := n * pow2 e0) in *. set (d' := pow2 (- e0)) in *.
    assert (Hid : n * 2 ^ (e0 + 1074) * d' = n' * 2 ^ 1074)
      by (rewrite S1, S2; unfold n', d'; ring).
    assert (Hn' : 0 < n')
      by (unfold n'; apply Z.mul_pos_pos; [clear - Hn Hnz; lia | exact P1]).
    destruct (round_ratio_spec n' d' (Z.lt_le_incl _ _ Hn') P2) as (U & HU & Herr).
    { right.
      apply (ratio_bounds (n * 2 ^ (e0 + 1074)) d' n' (2 ^ 52) (2 ^ 1022)
               (2 ^ 1023) (2 ^ 1074));
        solve [reflexivity | assumption]. }
    exists U. split; [exact HU | ].
    rewrite <- Hid in Herr.
    replace (U * d' - n * 2 ^ (e0 + 1074) * d')
      with ((U - n * 2 ^ (e0 + 1074)) * d') in Herr by ring.
    rewrite Z.abs_mul, (Z.abs_eq d') in Herr by exact (Z.lt_le_incl _ _ P2).
    apply (Z.mul_le_mono_pos_r _ _ d' P2).
    rewrite <- Z.mul_assoc, (Z.mul_comm (2 ^ 53) d'), Z.mul_assoc. exact Herr.
Qed.

(** Division of finite floats that are not negative, by one that is not
    zero. *)
Lemma div_spec (w t : float) (W T : Z) :
  nonneg_fin w W -> nonneg_fin t T -> 0 < T ->
  (W = 0 \/ (T <= W * 2 ^ 1022 /\ W < T * 2 ^ 1023)) ->
  exists Q, nonneg_fin (div_value w t) Q /\
            Z.abs (Q * T - W * 2 ^ 1074) * 2 ^ 53 <= W * 2 ^ 1074.
Proof.
  intros (m & e & Hw & Hm & He & ->) (m' & e' & Ht & Hm' & He' & ->) HT Hr.
  unfold div_value. rewrite Hw, Ht. cbn [xorb].
  set (W := m * 2 ^ (e + 1074)) in *. set (T := m' * 2 ^ (e' + 1074)) in *.
  set (n' := m * pow2 (e - e')). set (d' := m' * pow2 (e' - e)).
  pose proof (pow2_pos (e - e')) as P1. pose proof (pow2_pos (e' - e)) as P2.
  assert (Pe : 0 < 2 ^ (e + 1074)) by (apply Z.pow_pos_nonneg; lia).
  assert (Pe' : 0 < 2 ^ (e' + 1074)) by (apply Z.pow_pos_nonneg; lia).
  assert (Hm'0 : 0 < m') by (unfold T in HT; nia).
  assert (Hd' : 0 < d') by (unfold d'; nia).
  assert (Hn' : 0 <= n') by (unfold n'; nia).
  assert (Hid : n' * T = d' * W).
  { unfold n', d', T, W. pose proof (pow2_cross e e' He He') as E.
    replace (m * pow2 (e - e') * (m' * 2 ^ (e' + 1074)))
      with (m * m' * (pow2 (e - e') * 2 ^ (e' + 1074))) by ring.
    rewrite E. ring. }
  assert (HW : 0 <= W) by (unfold W; nia).
  destruct (round_ratio_spec n' d' Hn' Hd') as (Q & HQ & Herr).
  { destruct Hr as [Hr|[Hr1 Hr2]].
    - left. unfold W in Hr. unfold n'. nia.
    - right. assert (0 < W) by nia. split.
      + apply (Z.mul_le_mono_pos_r _ _ W); [lia | ]. nia.
      + apply (Z.mul_lt_mono_pos_r T); [lia | ]. nia. }
  exists Q. split; [exact HQ | ].
  apply (Z.mul_le_mono_pos_r _ _ d' Hd').
  replace (Z.abs (Q * T - W * 2 ^ 1074) * 2 ^ 53 * d')
    with (Z.abs (Q * T - W * 2 ^ 1074) * Z.abs d' * 2 ^ 53)
    by (rewrite (Z.abs_eq d') by lia; ring).
  rewrite <- Z.abs_mul.
  replace ((Q * T - W * 2 ^ 1074) * d')
    with ((Q * d' - n' * 2 ^ 1074) * T) by (ring_simplify; nia).
  rewrite Z.abs_mul, (Z.abs_eq T) by lia.
  replace (W * 2 ^ 1074 * d') with (n' * 2 ^ 1074 * T) by nia.
  nia.
Qed.

(** [random.random()]: zero for the draw 0, a float of [[2^-54, 1)]
    otherwise. *)
Lemma random_spec (k : Z) :
  0 <= k < 2 ^ 53 ->
  exists W, nonneg_fin (of_ratio k (2 ^ 53)) W /\
            (k = 0 -> W = 0) /\ (0 < k -> 2 ^ 1020 <= W < 2 ^ 1074).
Proof.
  intros Hk. unfold of_ratio.
  destruct (round_ratio_spec k (2 ^ 53) ltac:(lia) eq_refl) as (W & HW & Herr).
  { destruct (Z.eq_dec k 0); [now left | right].
    change (2 ^ 1022) with (2 ^ 53 * 2 ^ 969).
    assert (0 < 2 ^ 969) by reflexivity.
    assert (0 < 2 ^ 1023) by reflexivity.
    assert (0 < 2 ^ 53) by reflexivity. split; nia. }
  exists W. split; [exact HW | ].
  pose proof (nonneg_fin_nonneg _ _ HW) as HW0.
  change (2 ^ 1074) with (2 ^ 53 * 2 ^ 1021) in *.
  change (2 ^ 1020 <= W < 2 ^ 53 * 2 ^ 1021)
    with (2 ^ 1020 <= W < 2 ^ 53 * (2 * 2 ^ 1020)).
  change (2 ^ 1021) with (2 * 2 ^ 1020) in Herr.
  assert (P : 0 < 2 ^ 1020) by reflexivity.
  set (c := 2 ^ 1020) in *.
  change (2 ^ 53) with 9007199254740992 in *.
  split; [intros ->; lia | intros Hpos; nia].
Qed.

End Arithmetic.

Section Sums.

Import Float.

Lemma pow_1020_large : 9007199254740992 <= 2 ^ 1020.
Proof. change 9007199254740992 with (2 ^ 53). apply Z.pow_le_mono_r; lia. Qed.

Lemma pow_1023_large : 32 <= 2 ^ 1023.
Proof. change 32 with (2 ^ 5). apply Z.pow_le_mono_r; lia. Qed.

(** The sum of an accumulator [P] near [S] and a weight [W] is zero or
    in the range where [add] rounds with a relative error. *)
Lemma add_range (P W S j c k : Z) :
  0 <= P -> 0 <= W -> 0 <= j ->
  (W = 0 \/ (c <= W /\ W < 18014398509481984 * c)) ->
  P <= 2 * S /\ (S = 0 -> P = 0) /\ (c <= S -> c <= 2 * P) ->
  (S = 0 \/ c <= S) -> S <= j * (18014398509481984 * c) ->
  9007199254740992 <= c -> 32 <= k -> j <= 7 ->
  P + W = 0 \/
  (4503599627370496 <= P + W /\ P + W < k * (18014398509481984 * c)).
Proof.
  intros HP0 HW0 Hj HW HPS HS HSj Hc Hk Hj7.
  destruct (Z.eq_dec (P + W) 0) as [|Hne]; [now left | right].
  assert (j * (18014398509481984 * c) <= 7 * (18014398509481984 * c)) by nia.
  assert (32 * (18014398509481984 * c) <= k * (18014398509481984 * c)) by nia.
  lia.
Qed.

Lemma fold_add_spec (ws : list float) (Ws : list Z) :
  Forall2 weight ws Ws ->
  forall acc P S j,
  nonneg_fin acc P -> 0 <= j -> j + len ws <= 8 ->
  Z.abs (P - S) * 2 ^ 52 <= j * S ->
  (S = 0 \/ 2 ^ 1020 <= S) -> S <= j * 2 ^ 1074 ->
  exists T, nonneg_fin (fold_left add ws acc) T /\
            Z.abs (T - (S + sumZ Ws)) * 2 ^ 49 <= S + sumZ Ws /\
            (S + sumZ Ws = 0 \/ 2 ^ 1020 <= S + sumZ Ws) /\
            S + sumZ Ws <= 8 * 2 ^ 1074.
Proof.
  induction 1 as [|w W ws Ws [Hw HW] _ IH]; intros acc P S j HP Hj Hlen Herr HS HSj.
  - exists P. cbn [fold_left sumZ fold_right]. rewrite Z.add_0_r.
    unfold len in Hlen. cbn [List.length] in Hlen.
    split; [exact HP | ].
    set (c := 2 ^ 1020) in *.
    assert (Pc : 0 < c) by reflexivity.
    change (2 ^ 1074) with (2 ^ 54 * c) in *.
    change (2 ^ 54) with 18014398509481984 in *.
    split; [ | split; [exact HS | clearbody c; nia]].
    assert (Hj8 : j * S <= 8 * S) by (clearbody c; nia).
    change (2 ^ 52) with (8 * 2 ^ 49) in Herr. clearbody c. lia.
  - cbn [fold_left sumZ fold_right]. fold (sumZ Ws).
    unfold len in Hlen. cbn [List.length] in Hlen. rewrite Nat2Z.inj_succ in Hlen.
    fold (len ws) in Hlen. pose proof (len_nonneg ws) as Hl0.
    pose proof (nonneg_fin_nonneg _ _ HP) as HP0.
    pose proof (nonneg_fin_nonneg _ _ Hw) as HW0.
    assert (HS0 : 0 <= S) by lia.
    set (a := j * S) in *.
    assert (Ha : 0 <= a <= 7 * S) by (unfold a; nia).
    set (c := 2 ^ 1020) in *.
    assert (Pc : 0 < c) by reflexivity.
    change (2 ^ 1074) with (2 ^ 54 * c) in *.
    change (2 ^ 52) with 4503599627370496 in *.
    change (2 ^ 54) with 18014398509481984 in *.
    assert (HPS : P <= 2 * S /\ (S = 0 -> P = 0) /\ (c <= S -> c <= 2 * P)) by lia.
    destruct (add_spec acc w P W HP Hw) as (P' & HP' & Herr').
    { change (2 ^ 2097) with (2 ^ 1023 * (18014398509481984 * c)).
      change (2 ^ 52) with 4503599627370496.
      apply (add_range P W S j c (2 ^ 1023)); try assumption.
      - exact pow_1020_large.
      - exact pow_1023_large.
      - clear - Hlen Hl0. lia. }
    change (2 ^ 53) with 9007199254740992 in Herr'.
    destruct (IH (add acc w) P' (S + W) (j + 1) HP' ltac:(lia) ltac:(lia))
      as (T & HT & HTerr & HTS & HTb).
    + replace ((j + 1) * (S + W)) with (a + S + (j * W + W)) by (unfold a; ring).
      assert (0 <= j * W) by nia. lia.
    + lia.
    + replace ((j + 1) * (18014398509481984 * c))
        with (j * (18014398509481984 * c) + 18014398509481984 * c) by ring.
      lia.
    + exists T. rewrite Z.add_assoc. repeat split; assumption.
Qed.

(** [sum(weights)] of at most eight weights is within a relative
    [2^-49] of their exact sum. *)
Lemma py_sum_spec (ws : list float) (Ws : list Z) :
  Forall2 weight ws Ws -> len ws <= 8 ->
  exists T, nonneg_fin (py_sum ws) T /\
            Z.abs (T - sumZ Ws) * 2 ^ 49 <= sumZ Ws /\
            (sumZ Ws = 0 \/ 2 ^ 1020 <= sumZ Ws) /\ sumZ Ws <= 8 * 2 ^ 1074.
Proof.
  intros HF Hlen. unfold py_sum.
  destruct (fold_add_spec ws Ws HF (of_int 0) 0 0 0 classify_zero
              ltac:(lia) ltac:(lia) ltac:(vm_compute; discriminate)
              ltac:(now left) ltac:(lia))
    as (T & H1 & H2 & H3 & H4).
  exists T. rewrite Z.add_0_l in *. repeat split; assumption.
Qed.

(** The integer form of the tolerance: a sum [X] of quotients, each
    within [2^-53] of [W_i / T], for a total [T] within [2^-49] of the
    exact sum [S], is within [10^-9] of one ([K] units). *)
Lemma sum_tolerance (K S T X : Z) :
  0 < K -> 0 < S ->
  Z.abs (T - S) * 2 ^ 49 <= S ->
  Z.abs (X * T - S * K) * 2 ^ 53 <= S * K ->
  10 ^ 9 * Z.abs (X - K) <= K.
Proof.
  intros HK HS HT HX.
  change (2 ^ 49) with 562949953421312 in *.
  change (2 ^ 53) with 9007199254740992 in *.
  change (10 ^ 9) with 1000000000.
  assert (HT0 : 0 < T) by lia.
  set (p := X * T) in *. set (r := S * K) in *.
  assert (Hr : 0 < r) by (unfold r; nia).
  destruct (Z_le_gt_dec (1000000000 * Z.abs (X - K)) K) as [|C]; [assumption | exfalso].
  destruct (Z_le_gt_dec K X) as [Hge|Hlt].
  - rewrite Z.abs_eq in C by lia.
    assert (H1 : 1000000000 * p > 1000000001 * (K * T)) by (unfold p; nia).
    assert (H2 : 562949953421312 * (K * T) >= 562949953421311 * r) by (unfold r; nia).
    lia.
  - rewrite Z.abs_neq in C by lia.
    assert (H1 : 1000000000 * p < 999999999 * (K * T)) by (unfold p; nia).
    assert (H2 : 562949953421312 * (K * T) <= 562949953421313 * r) by (unfold r; nia).
    lia.
Qed.

End Sums.

Section Minerals.

Import Float.

Local Open Scope list_scope.

Lemma for_each_random (l : list string) (r : rng) :
  exists r',
    for_each (fun _ : string => random_random) l r =
      Ok (weights_of r (seq 0 (List.length l)), r').
Proof.
  revert r. induction l as [|x l IH]; intros r.
  - exists r. reflexivity.
  - destruct (IH (fun n => r (S n))) as [r' Hr'].
    exists r'. cbn [for_each]. unfold bind at 1. unfold random_random at 1.
    cbn [next]. unfold bind at 1. rewrite Hr'. unfold ret.
    cbn [List.length seq weights_of map]. unfold weights_of.
    rewrite <- seq_shift, map_map. reflexivity.
Qed.

Lemma sumZ_nonneg (l : list Z) : Forall (fun z => 0 <= z) l -> 0 <= sumZ l.
Proof. induction 1; cbn [sumZ fold_right]; [lia | fold (sumZ l); lia]. Qed.

Lemma weights_spec (r : rng) (idxs : list nat) :
  exists Ws,
    Forall2 weight (weights_of r idxs) Ws /\
    Forall (fun z => 0 <= z) Ws /\
    (sumZ Ws = 0 <-> Forall (fun i => weight_draw r i = 0) idxs).
Proof.
  induction idxs as [|i idxs (Ws & HF & Hnn & Hz)].
  - exists []. repeat split; constructor.
  - assert (Hk : 0 <= weight_draw r i < 2 ^ 53)
      by (unfold weight_draw; apply Z.mod_pos_bound; reflexivity).
    destruct (random_spec _ Hk) as (W & HW & H0 & Hpos).
    pose proof (nonneg_fin_nonneg _ _ HW) as HW0.
    pose proof (sumZ_nonneg _ Hnn) as HS0.
    exists (W :: Ws). split; [ | split].
    + cbn [weights_of map]. constructor; [ | exact HF].
      split; [exact HW | ].
      destruct (Z.eq_dec (weight_draw r i) 0) as [E|E]; [left; auto | right].
      apply Hpos. lia.
    + constructor; assumption.
    + cbn [sumZ fold_right]. fold (sumZ Ws). split.
      * intros Hs. assert (W = 0 /\ sumZ Ws = 0) as [HWz HSz] by lia.
        constructor; [ | now apply Hz].
        destruct (Z.eq_dec (weight_draw r i) 0) as [E|E]; [exact E | ].
        assert (0 < weight_draw r i) by lia.
        assert (P : 0 < 2 ^ 1020) by reflexivity.
        pose proof (Hpos ltac:(assumption)). lia.
      * intros Hall. inversion Hall as [|? ? Hi Hrest]; subst.
        rewrite (H0 Hi), (proj2 Hz Hrest). reflexivity.
Qed.

Lemma dict_of_quotients_nodup (pairs : list (string * float)) (total : float)
    (acc : dict float) :
  Float.is_zero total = false -> NoDup (map fst acc ++ map fst pairs) ->
  dict_of_quotients pairs total acc =
    Ok (acc ++ map (fun kw => (fst kw, Float.div_value (snd kw) total)) pairs).
Proof.
  intros Hz. revert acc. induction pairs as [|[k w] pairs IH]; intros acc Hn.
  - cbn [dict_of_quotients map]. now rewrite app_nil_r.
  - cbn [dict_of_quotients]. unfold Float.div. rewrite Hz.
    rewrite dict_set_fresh.
    + rewrite IH.
      * cbn [map fst snd]. now rewrite <- app_assoc.
      * rewrite map_app. cbn [map fst]. rewrite <- app_assoc. exact Hn.
    + cbn [map fst] in Hn. apply NoDup_remove_2 in Hn.
      intros Hin. apply Hn. apply in_or_app. now left.
Qed.

Lemma dict_of_quotients_zero (k : string) (w : float)
    (pairs : list (string * float)) (total : float) (acc : dict float) :
  Float.is_zero total = true ->
  dict_of_quotients ((k, w) :: pairs) total acc = Raise ZeroDivisionError.
Proof. intros Hz. cbn [dict_of_quotients]. unfold Float.div. now rewrite Hz. Qed.

Lemma quotients_spec (total : float) (T : Z) (ws : list float) (Ws : list Z) :
  nonneg_fin total T -> 2 ^ 1019 <= T <= 2 ^ 1078 ->
  Forall2 weight ws Ws ->
  exists Qs,
    Forall2 nonneg_fin (map (fun w => Float.div_value w total) ws) Qs /\
    Z.abs (sumZ Qs * T - sumZ Ws * 2 ^ 1074) * 2 ^ 53 <= sumZ Ws * 2 ^ 1074.
Proof.
  intros HT HTr. induction 1 as [|w W ws Ws [Hw HW] _ (Qs & HQ & Herr)].
  - exists []. split; [constructor | simpl; lia].
  - assert (P19 : 0 < 2 ^ 1019) by reflexivity.
    destruct (div_spec w total W T Hw HT ltac:(lia)) as (Q & HQ1 & HQerr).
    { destruct HW as [HW|[HW1 HW2]]; [now left | right].
      change (2 ^ 1078) with (2 ^ 59 * 2 ^ 1019) in HTr.
      change (2 ^ 1020) with (2 * 2 ^ 1019) in HW1.
      change (2 ^ 1074) with (2 ^ 55 * 2 ^ 1019) in HW2.
      assert (2 ^ 59 <= 2 ^ 1022) by (apply Z.pow_le_mono_r; lia).
      assert (2 ^ 55 <= 2 ^ 1023) by (apply Z.pow_le_mono_r; lia).
      assert (0 < 2 ^ 59) by reflexivity. assert (0 < 2 ^ 55) by reflexivity.
      split; nia. }
    exists (Q :: Qs). split; [cbn [map]; constructor; assumption | ].
    cbn [sumZ fold_right]. fold (sumZ Qs). fold (sumZ Ws).
    replace ((Q + sumZ Qs) * T - (W + sumZ Ws) * 2 ^ 1074)
      with ((Q * T - W * 2 ^ 1074) + (sumZ Qs * T - sumZ Ws * 2 ^ 1074)) by ring.
    pose proof (Z.abs_triangle (Q * T - W * 2 ^ 1074)
                  (sumZ Qs * T - sumZ Ws * 2 ^ 1074)).
    lia.
Qed.

Lemma Qabs_tolerance (X : Z) (Kp : positive) :
  10 ^ 9 * Z.abs (X - Z.pos Kp) <= Z.pos Kp ->
  (Qabs ((X # Kp) - 1) <= 1 # 1000000000)%Q.
Proof.
  intros H. change (10 ^ 9) with 1000000000 in H.
  apply Qabs_Qle_condition. unfold Qle, Qminus, Qplus, Qopp.
  cbn [Qnum Qden]. rewrite !Pos.mul_1_r, !Z.mul_1_r.
  split; lia.
Qed.

Lemma total_value_ulps (d : dict float) :
  (total_value d == total_ulps d # Z.to_pos (2 ^ 1074))%Q.
Proof.
  induction d as [|[k x] d IH]; [reflexivity | ].
  cbn [total_value total_ulps fold_right snd].
  fold (total_value d). fold (total_ulps d). rewrite IH.
  unfold Float.value, Qeq, Qplus. cbn [Qnum Qden].
  rewrite Pos2Z.inj_mul. ring.
Qed.

End Minerals.

Section Compositions.

Import Float.

Local Open Scope list_scope.

Lemma random_minerals_unfold (r : rng) :
  exists r1,
    random_minerals r =
      lift (dict_of_quotients
              (combine MINERAL_TYPES (weights_of r (seq 0 8)))
              (py_sum (weights_of r (seq 0 8))) []) r1.
Proof.
  destruct (for_each_random MINERAL_TYPES r) as [r1 Hr1].
  exists r1. unfold random_minerals, bind. rewrite Hr1. reflexivity.
Qed.

Lemma minerals_total (r : rng) :
  exists Ws T,
    Forall2 weight (weights_of r (seq 0 8)) Ws /\
    nonneg_fin (py_sum (weights_of r (seq 0 8))) T /\
    Z.abs (T - sumZ Ws) * 2 ^ 49 <= sumZ Ws /\
    (sumZ Ws = 0 \/ 2 ^ 1020 <= sumZ Ws) /\ sumZ Ws <= 8 * 2 ^ 1074 /\
    (sumZ Ws = 0 <-> forall i, (i < 8)%nat -> weight_draw r i = 0).
Proof.
  destruct (weights_spec r (seq 0 8)) as (Ws & HF & _ & Hz).
  destruct (py_sum_spec _ _ HF) as (T & HT & Herr & HS & HSb).
  { unfold len, weights_of. rewrite length_map, length_seq. lia. }
  exists Ws, T. repeat split; try assumption.
  - intros Hs i Hi. apply Hz in Hs. rewrite Forall_forall in Hs.
    apply Hs. apply in_seq. lia.
  - intros Hall. apply Hz. apply Forall_forall. intros i Hi.
    apply in_seq in Hi. apply Hall. lia.
Qed.

Lemma mineral_keys_NoDup (ws : list float) :
  NoDup (map fst (@nil (string * float)) ++ map fst (combine MINERAL_TYPES ws)).
Proof.
  cbn [map app].
  assert (H : NoDup MINERAL_TYPES)
    by (unfold MINERAL_TYPES; repeat constructor; cbn; intuition discriminate).
  revert H. generalize MINERAL_TYPES. intros l. revert ws.
  induction l as [|k l IH]; intros ws H; [constructor | ].
  destruct ws as [|w ws]; [constructor | ].
  cbn [combine map fst]. inversion H as [|? ? Hk Hl]; subst.
  constructor; [ | now apply IH].
  intros Hin. apply Hk. clear - Hin. revert ws Hin.
  induction l as [|k' l IHl]; intros ws Hin; [destruct ws; contradiction | ].
  destruct ws as [|w ws]; [contradiction | ].
  cbn [combine map fst] in Hin. destruct Hin as [->|Hin]; [now left | right; eauto].
Qed.

(** C8: [random_minerals] divides by the sum of its eight weights
    without a guard.  When the eight draws are all 0 the weights and
    their sum are 0.0 and the first division raises
    [ZeroDivisionError]; when at least one draw is positive the sum is
    positive and the function returns a composition. *)
Theorem random_minerals_zero_division (r : rng) :
  ((forall i, (i < 8)%nat -> weight_draw r i = 0) ->
     random_minerals r = Raise ZeroDivisionError) /\
  ((exists i, (i < 8)%nat /\ weight_draw r i <> 0) ->
     exists m r', random_minerals r = Ok (m, r')).
Proof.
  destruct (random_minerals_unfold r) as [r1 Hu].
  destruct (minerals_total r) as (Ws & T & HF & HT & Herr & HS & HSb & Hz).
  pose proof (nonneg_fin_is_zero _ _ HT) as Hiz.
  pose proof (nonneg_fin_nonneg _ _ HT) as HT0.
  split.
  - intros Hall. apply Hz in Hall. rewrite Hall in Herr.
    assert (T = 0) by (change (2 ^ 49) with 562949953421312 in Herr; lia).
    subst T. rewrite Hu. unfold lift.
    cbn [seq weights_of map combine MINERAL_TYPES].
    rewrite dict_of_quotients_zero by exact Hiz. reflexivity.
  - intros (i & Hi & Hne).
    assert (HSne : sumZ Ws <> 0) by (intros E; apply Hne; now apply Hz).
    destruct HS as [HS|HS]; [contradiction | ].
    assert (P : 0 < 2 ^ 1020) by reflexivity.
    assert (HTpos : 0 < T) by (change (2 ^ 49) with 562949953421312 in Herr; lia).
    assert (Hnz : Float.is_zero (py_sum (weights_of r (seq 0 8))) = false)
      by (rewrite Hiz; apply Z.eqb_neq; lia).
    rewrite Hu. unfold lift.
    rewrite dict_of_quotients_nodup by (exact Hnz || apply mineral_keys_NoDup).
    eexists. eexists. reflexivity.
Qed.

Lemma values_spec (d : dict float) (Qs : list Z) :
  Forall2 nonneg_fin (map snd d) Qs ->
  Forall (fun kv => Float.is_finite (snd kv) = true /\
                    (0 <= Float.value (snd kv))%Q) d /\
  total_ulps d = sumZ Qs.
Proof.
  revert Qs. induction d as [|[k x] d IH]; intros Qs H.
  - inversion H; subst. split; [constructor | reflexivity].
  - cbn [map snd] in H. inversion H as [|? Q ? Qs' Hx Hrest]; subst.
    destruct (IH _ Hrest) as [IH1 IH2].
    destruct (nonneg_fin_ulps _ _ Hx) as [Hu Hf].
    pose proof (nonneg_fin_nonneg _ _ Hx) as HQ.
    split.
    + constructor; [ | exact IH1]. cbn [snd]. split; [exact Hf | ].
      unfold Float.value, Qle. cbn [Qnum Qden]. rewrite Hu. lia.
    + cbn [total_ulps sumZ fold_right snd]. fold (total_ulps d). fold (sumZ Qs').
      now rewrite Hu, IH2.
Qed.

Lemma quotient_dict_keys (f : float -> float) (l : list string) (ws : list float) :
  List.length l = List.length ws ->
  map fst (map (fun kw : string * float => (fst kw, f (snd kw))) (combine l ws)) = l /\
  map snd (map (fun kw : string * float => (fst kw, f (snd kw))) (combine l ws)) =
    map f ws.
Proof.
  revert ws. induction l as [|k l IH]; intros [|w ws] Hlen; try discriminate.
  - split; reflexivity.
  - injection Hlen as Hlen. destruct (IH ws Hlen) as [H1 H2].
    cbn [combine map fst snd]. now rewrite H1, H2.
Qed.

Lemma composition_of_quotients (total : float) (T : Z) (ws : list float)
    (Ws : list Z) :
  nonneg_fin total T -> Forall2 weight ws Ws ->
  List.length MINERAL_TYPES = List.length ws ->
  Z.abs (T - sumZ Ws) * 2 ^ 49 <= sumZ Ws -> 0 < sumZ Ws ->
  2 ^ 1019 <= T <= 2 ^ 1078 ->
  composition_ok
    (map (fun kw : string * float => (fst kw, Float.div_value (snd kw) total))
         (combine MINERAL_TYPES ws)).
Proof.
  intros HT HF Hlen Herr HSpos HTr.
  destruct (quotients_spec total T ws Ws HT HTr HF) as (Qs & HQ & HQerr).
  assert (HK : 0 < 2 ^ 1074) by reflexivity.
  pose proof (sum_tolerance (2 ^ 1074) (sumZ Ws) T (sumZ Qs) HK HSpos Herr HQerr)
    as Htol.
  destruct (quotient_dict_keys (fun w => Float.div_value w total) _ _ Hlen)
    as [Hkeys Hvals].
  rewrite <- Hvals in HQ.
  destruct (values_spec _ Qs HQ) as [Hv Hsum].
  cbv beta in Hkeys, Hv, Hsum.
  unfold composition_ok. split; [exact Hkeys | ]. split; [exact Hv | ].
  rewrite total_value_ulps, Hsum.
  apply Qabs_tolerance. rewrite Z2Pos.id by exact HK. exact Htol.
Qed.

Lemma mineral_quotients (total : float) (ws : list float) :
  List.length MINERAL_TYPES = List.length ws ->
  dict_of_quotients (combine MINERAL_TYPES ws) total [] =
    if Float.is_zero total then Raise ZeroDivisionError
    else Ok (map (fun kw : string * float =>
                    (fst kw, Float.div_value (snd kw) total))
                 (combine MINERAL_TYPES ws)).
Proof.
  intros Hlen. destruct (Float.is_zero total) eqn:Hz.
  - destruct ws as [|w ws]; [discriminate Hlen | ].
    unfold MINERAL_TYPES. cbn [combine].
    now apply dict_of_quotients_zero.
  - rewrite dict_of_quotients_nodup; [reflexivity | exact Hz | ].
    apply mineral_keys_NoDup.
Qed.

Lemma total_bounds (S T : Z) :
  0 <= T -> T <> 0 -> Z.abs (T - S) * 2 ^ 49 <= S ->
  S = 0 \/ 2 ^ 1020 <= S -> S <= 8 * 2 ^ 1074 ->
  0 < S /\ 2 ^ 1019 <= T <= 2 ^ 1078.
Proof.
  intros HT0 Hiz Herr HS HSb.
  assert (P : 0 < 2 ^ 1019) by reflexivity.
  change (2 ^ 1020) with (2 * 2 ^ 1019) in HS.
  change (2 ^ 1074) with (36028797018963968 * 2 ^ 1019) in HSb.
  change (2 ^ 1078) with (576460752303423488 * 2 ^ 1019).
  change (2 ^ 49) with 562949953421312 in Herr.
  set (c := 2 ^ 1019) in *. lia.
Qed.

Lemma minerals_facts (r : rng) :
  exists (ws : list float) (total : float) (r1 : rng) (Ws : list Z) (T : Z),
    random_minerals r =
      lift (dict_of_quotients (combine MINERAL_TYPES ws) total []) r1 /\
    List.length MINERAL_TYPES = List.length ws /\
    Forall2 weight ws Ws /\ nonneg_fin total T /\
    Z.abs (T - sumZ Ws) * 2 ^ 49 <= sumZ Ws /\
    (sumZ Ws = 0 \/ 2 ^ 1020 <= sumZ Ws) /\ sumZ Ws <= 8 * 2 ^ 1074.
Proof.
  destruct (random_minerals_unfold r) as [r1 Hu].
  destruct (minerals_total r) as (Ws & T & HF & HT & Herr & HS & HSb & _).
  exists (weights_of r (seq 0 8)), (py_sum (weights_of r (seq 0 8))), r1, Ws, T.
  split; [exact Hu | ]. split; [ | repeat split; assumption].
  unfold weights_of. rewrite length_map, length_seq. reflexivity.
Qed.

(** C3: every composition that [random_minerals] returns has the eight
    mineral names as its keys, values that are finite and not negative,
    and values whose sum is within 10^-9 of 1, for every sequence of
    draws. *)
Theorem random_minerals_composition (r r' : rng) (m : dict float) :
  random_minerals r = Ok (m, r') -> composition_ok m.
Proof.
  intros Hm.
  destruct (minerals_facts r)
    as (ws & total & r1 & Ws & T & Hu & Hlen & HF & HT & Herr & HS & HSb).
  pose proof (nonneg_fin_is_zero _ _ HT) as Hiz.
  pose proof (nonneg_fin_nonneg _ _ HT) as HT0.
  rewrite Hu in Hm. unfold lift in Hm.
  rewrite (mineral_quotients _ _ Hlen), Hiz in Hm.
  destruct (Z.eqb_spec T 0) as [HTz|HTz]; [discriminate Hm | ].
  destruct (total_bounds _ _ HT0 HTz Herr HS HSb) as [HSpos HTr].
  assert (Hc := composition_of_quotients _ T _ Ws HT HF Hlen Herr HSpos HTr).
  congruence.
Qed.

End Compositions.

Lemma random_minerals_composition_witness :
  exists m r',
    random_minerals sample_draws = Ok (m, r') /\ composition_ok m.
Proof.
  destruct (random_minerals sample_draws) as [[m r']|e] eqn:E.
  - exists m, r'. split; [reflexivity | ].
    exact (random_minerals_composition sample_draws r' m E).
  - vm_compute in E. discriminate E.
Defined.

Lemma random_minerals_zero_division_witness :
  random_minerals zero_draws = Raise ZeroDivisionError /\
  exists m r', random_minerals sample_draws = Ok (m, r').
Proof.
  split.
  - apply (proj1 (random_minerals_zero_division zero_draws)).
    intros i _. reflexivity.
  - apply (proj2 (random_minerals_zero_division sample_draws)).
    exists 0%nat. split; [lia | vm_compute; discriminate].
Defined.

(* ------------------------------------------------------------------ *)
(** * Further properties of generation *)

Section Counts.

Local Open Scope list_scope.

Lemma for_each_length {A B : Type} (f : A -> M B) (l : list A) (r r' : rng)
    (ys : list B) :
  for_each f l r = Ok (ys, r') -> List.length ys = List.length l.
Proof.
  intros H. symmetry.
  apply (Forall2_length (for_each_Forall2 f (fun _ _ => True)
                           (fun _ _ _ _ _ => I) l r ys r' H)).
Qed.

Lemma for_each_Forall {A B : Type} (f : A -> M B) (P : B -> Prop) :
  (forall x r y r', f x r = Ok (y, r') -> P y) ->
  forall l r ys r', for_each f l r = Ok (ys, r') -> Forall P ys.
Proof.
  intros Hf l r ys r' H.
  pose proof (for_each_Forall2 f (fun _ y => P y) Hf l r ys r' H) as HF.
  clear H. induction HF; constructor; assumption.
Qed.

Lemma randint_range (a b n : Z) (r r' : rng) :
  random_randint a b r = Ok (n, r') -> a <= n <= b.
Proof.
  unfold random_randint. destruct (Z.ltb_spec b a) as [|Hab]; [discriminate | ].
  cbn [next]. intros H. injection H as <- _.
  pose proof (Z.mod_pos_bound (r 0%nat) (b - a + 1)). lia.
Qed.

(** [n = random.randint(lo, hi); for i in range(n): out.append(body(i))]
    leaves between [lo] and [hi] objects in [out]. *)
Lemma counted_loop_length {A : Type} (rg : Z * Z) (body : Z -> M A)
    (r r' : rng) (l : list A) :
  well_formed rg ->
  (num <- random_randint (fst rg) (snd rg) ;; for_each body (range num)) r
    = Ok (l, r') ->
  in_range rg (len l).
Proof.
  intros Hwf H. apply bind_Ok in H. destruct H as (num & r1 & Hn & H).
  apply randint_range in Hn. apply for_each_length in H.
  unfold in_range, len. rewrite H, range_length.
  unfold well_formed in Hwf. lia.
Qed.

Lemma random_choice_In {A : Type} (seq : list A) (x : A) (r r' : rng) :
  random_choice seq r = Ok (x, r') -> In x seq.
Proof.
  unfold random_choice. destruct seq as [|y seq]; [discriminate | ].
  assert (Hl : 0 < len (y :: seq)) by (unfold len; cbn [List.length]; lia).
  remember (y :: seq) as l eqn:El. clear El.
  cbn [next]. intros H. injection H as <- _.
  apply nth_In.
  pose proof (Z.mod_pos_bound (r 0%nat) (len l) Hl) as Hb.
  unfold len in *. lia.
Qed.

Variable cfg : Config.

(** The numbers of generated objects lie in the configured ranges: as
    many galaxies as [NUM_GALAXIES], and in each galaxy a number of
    stars, black holes, nebulae, asteroids and comets, and for each star
    a number of planets, between the two ends of its count range. *)
Theorem generated_counts_in_range (r r' : rng) (gs : list Galaxy.t) :
  valid_config cfg -> generate_galaxies cfg r = Ok (gs, r') ->
  len gs = NUM_GALAXIES cfg /\ Forall (counts_ok cfg) gs.
Proof.
  intros (Hn & Hs & Hp & Hb & Hne & Ha & Hc) H. unfold generate_galaxies in H.
  split.
  - apply for_each_length in H. unfold len. rewrite H, range_length. lia.
  - eapply for_each_Forall; [ | exact H].
    intros gi r0 g r0' Hg. cbv beta zeta in Hg.
    apply bind_Ok in Hg. destruct Hg as (stars & r1 & Hst & Hg).
    apply bind_Ok in Hg. destruct Hg as (bhs & r2 & Hbh & Hg).
    apply bind_Ok in Hg. destruct Hg as (nebs & r3 & Hnb & Hg).
    apply bind_Ok in Hg. destruct Hg as (asts & r4 & Has & Hg).
    apply bind_Ok in Hg. destruct Hg as (coms & r5 & Hco & Hg).
    injection Hg as <- _. unfold counts_ok.
    cbn [Galaxy.stars Galaxy.black_holes Galaxy.nebulae Galaxy.asteroids
         Galaxy.comets].
    split; [exact (counted_loop_length _ _ _ _ _ Hs Hst) | ].
    split; [exact (counted_loop_length _ _ _ _ _ Hb Hbh) | ].
    split; [exact (counted_loop_length _ _ _ _ _ Hne Hnb) | ].
    split; [exact (counted_loop_length _ _ _ _ _ Ha Has) | ].
    split; [exact (counted_loop_length _ _ _ _ _ Hc Hco) | ].
    unfold generate_stars in Hst.
    apply bind_Ok in Hst. destruct Hst as (num & r6 & _ & Hst).
    eapply for_each_Forall; [ | exact Hst].
    intros si r7 s r7' Hb7. cbv beta zeta in Hb7.
    apply bind_Ok in Hb7. destruct Hb7 as (mass & r8 & _ & Hb7).
    apply bind_Ok in Hb7. destruct Hb7 as (temp & r9 & _ & Hb7).
    apply bind_Ok in Hb7. destruct Hb7 as (spec & r10 & _ & Hb7).
    apply bind_Ok in Hb7. destruct Hb7 as (planets & r11 & Hpl & Hb7).
    injection Hb7 as <- _. cbn [Star.planets].
    exact (counted_loop_length _ _ _ _ _ Hp Hpl).
Qed.

(** Every generated star has one of the seven spectral letters of
    [generate_stars]. *)
Theorem generated_spectral_types (r r' : rng) (gs : list Galaxy.t) :
  generate_galaxies cfg r = Ok (gs, r') -> Forall spectral_ok gs.
Proof.
  unfold generate_galaxies. apply for_each_Forall.
  intros gi r0 g r0' Hg. cbv beta zeta in Hg.
  apply bind_Ok in Hg. destruct Hg as (stars & r1 & Hst & Hg).
  apply bind_Ok in Hg. destruct Hg as (bhs & r2 & _ & Hg).
  apply bind_Ok in Hg. destruct Hg as (nebs & r3 & _ & Hg).
  apply bind_Ok in Hg. destruct Hg as (asts & r4 & _ & Hg).
  apply bind_Ok in Hg. destruct Hg as (coms & r5 & _ & Hg).
  injection Hg as <- _. unfold spectral_ok. cbn [Galaxy.stars].
  unfold generate_stars in Hst.
  apply bind_Ok in Hst. destruct Hst as (num & r6 & _ & Hst).
  eapply for_each_Forall; [ | exact Hst].
  intros si r7 s r7' Hb7. cbv beta zeta in Hb7.
  apply bind_Ok in Hb7. destruct Hb7 as (mass & r8 & _ & Hb7).
  apply bind_Ok in Hb7. destruct Hb7 as (temp & r9 & _ & Hb7).
  apply bind_Ok in Hb7. destruct Hb7 as (spec & r10 & Hsp & Hb7).
  apply bind_Ok in Hb7. destruct Hb7 as (planets & r11 & _ & Hb7).
  injection Hb7 as <- _. cbn [Star.spectral_type].
  exact (random_choice_In _ _ _ _ Hsp).
Qed.

End Counts.

(** The sample run: [small_config] on [sample_draws] returns the
    galaxies of [sample_universe]. *)
Lemma sample_generation :
  exists r', generate_galaxies small_config sample_draws = Ok (sample_galaxies, r').
Proof. eexists. vm_compute. reflexivity. Qed.

Lemma small_config_valid : valid_config small_config.
Proof. unfold valid_config, well_formed. cbn. lia. Qed.

Lemma generated_counts_in_range_witness :
  len sample_galaxies = NUM_GALAXIES small_config /\
  Forall (counts_ok small_config) sample_galaxies.
Proof.
  destruct sample_generation as [r' E].
  exact (generated_counts_in_range small_config sample_draws r' sample_galaxies
           small_config_valid E).
Defined.

Lemma generated_spectral_types_witness : Forall spectral_ok sample_galaxies.
Proof.
  destruct sample_generation as [r' E].
  exact (generated_spectral_types small_config sample_draws r' sample_galaxies E).
Defined.

(* ------------------------------------------------------------------ *)
(** * Further properties of the writer *)

Section WriterEdges.

Local Open Scope list_scope.





Lemma padded_idempotent (c : list byte) (t : Z) :
  1 <= t -> padded (padded c t) t = padded c t.
Proof.
  intros Ht. apply padded_within_unchanged.
  - rewrite padded_length by exact Ht. lia.
  - apply padded_last. exact Ht.
Qed.

(** [pad_file] is idempotent: a second call on the padded file succeeds
    and changes neither the file nor the handle. *)
Theorem pad_file_idempotent (self s1 : UniverseWriter.t) :
  UniverseWriter.pad_file self = (None, s1) ->
  UniverseWriter.pad_file s1 = (None, s1).
Proof.
  intros H.
  assert (Hinv : exists f, UniverseWriter.file_of self = Some f /\
                           closed f = false /\
                           1 <= UniverseWriter.target_size self).
  { unfold UniverseWriter.pad_file, file_seek in H.
    destruct (UniverseWriter.file_of self) as [f|]; [ | discriminate].
    destruct (closed f) eqn:Hc; [discriminate | ].
    destruct (Z.ltb_spec (UniverseWriter.target_size self - 1) 0) as [|Ht];
      [discriminate | ].
    exists f. repeat split; [exact Hc | lia]. }
  destruct Hinv as (f & Hf & Hc & Ht).
  rewrite (pad_file_spec self f Hf Hc Ht) in H. injection H as <-.
  erewrite pad_file_spec; [ | reflexivity | reflexivity | exact Ht].
  cbn [UniverseWriter.set_file UniverseWriter.target_size UniverseWriter.filename
       contents].
  now rewrite padded_idempotent by exact Ht.
Qed.


(** After the [with] block the handle is closed: [write_universe] and
    [pad_file] raise [ValueError] and leave the file as it is. *)
Theorem closed_writer_rejects (u u' : Universe.t) (t : Z) (data data' : list byte)
    (w : UniverseWriter.t) :
  Pickle.dumps (Universe.to_dict u) = Ok data -> len data < 2 ^ 64 -> 1 <= t ->
  Pickle.dumps (Universe.to_dict u') = Ok data' -> len data' < 2 ^ 64 ->
  write_and_pad u t = (None, w) ->
  UniverseWriter.write_universe w u' = (Some ValueError, w) /\
  UniverseWriter.pad_file w = (Some ValueError, w).
Proof.
  intros Hd Hl Ht Hd' Hl' Hw.
  unfold write_and_pad, UniverseWriter.with_writer in Hw.
  rewrite (write_universe_spec _ _ _ _ Hd Hl) in Hw.
  unfold UniverseWriter.exit in Hw.
  erewrite pad_file_spec in Hw; [ | reflexivity | reflexivity | assumption ].
  cbn [UniverseWriter.set_file UniverseWriter.file_of UniverseWriter.filename
       UniverseWriter.target_size] in Hw.
  injection Hw as <-. split.
  - unfold UniverseWriter.write_universe. rewrite Hd'.
    cbn [UniverseWriter.file_of].
    rewrite struct_pack_Q_ok by (pose proof (len_nonneg data'); lia).
    reflexivity.
  - reflexivity.
Qed.

End WriterEdges.



Lemma pad_file_idempotent_witness :
  let s1 := UniverseWriter.mk UNIVERSE_FILE 4
              (Some (mkFile [x00; x00; x00; x00] 4 false)) in
  UniverseWriter.pad_file s1 = (None, s1).
Proof.
  intros s1.
  apply (pad_file_idempotent
           (UniverseWriter.enter (UniverseWriter.init UNIVERSE_FILE 4)) s1).
  reflexivity.
Defined.


Lemma closed_writer_rejects_witness :
  exists w,
    write_and_pad (Universe.mk []) 40 = (None, w) /\
    UniverseWriter.write_universe w (Universe.mk []) = (Some ValueError, w).
Proof.
  destruct (write_and_pad (Universe.mk []) 40) as [[e|] w] eqn:E;
    [vm_compute in E; discriminate E | ].
  exists w. split; [reflexivity | ].
  apply (closed_writer_rejects (Universe.mk []) (Universe.mk []) 40 _ _ w
           dumps_empty_universe ltac:(reflexivity) ltac:(lia)
           dumps_empty_universe ltac:(reflexivity) E).
Defined.

(* ------------------------------------------------------------------ *)
(** * The ends of the payload *)

Section PayloadEnds.

Import Pickle.
Local Open Scope list_scope.

Lemma commit_frame_ends (cur : list op) (o : op) :
  exists ops, commit_frame (cur ++ [o]) = ops ++ [o].
Proof.
  unfold commit_frame. destruct (FRAME_SIZE_MIN <=? blen (cur ++ [o])).
  - now exists (FRAME (blen (cur ++ [o])) :: cur).
  - now exists cur.
Qed.

Lemma framer_ends_stop (evs : list ev) :
  forall cur, exists ops, framer cur (evs ++ [W STOP]) = ops ++ [STOP].
Proof.
  induction evs as [|[|o] evs IH]; intros cur; cbn [app framer].
  - cbn [is_large]. apply commit_frame_ends.
  - destruct (FRAME_SIZE_TARGET <=? blen cur); [ | apply IH].
    destruct (IH []) as [ops ->]. exists (commit_frame cur ++ ops).
    now rewrite app_assoc.
  - destruct (is_large o); [ | apply IH].
    destruct (IH []) as [ops ->]. exists (commit_frame cur ++ o :: ops).
    now rewrite <- app_assoc.
Qed.

Lemma ser_all_app (l1 l2 : list op) : ser_all (l1 ++ l2) = ser_all l1 ++ ser_all l2.
Proof. unfold ser_all. apply flat_map_app. Qed.

Lemma dumps_bytes (v : pyval) (data : list byte) :
  dumps v = Ok data ->
  exists ops, data = ser_all ([PROTO 5] ++ ops ++ [STOP]).
Proof.
  unfold dumps, dump. cbv zeta.
  destruct (framer_ends_stop (fst (save v [])) []) as [ops ->].
  destruct (forallb op_ok (PROTO 5 :: ops ++ [STOP])); [ | discriminate].
  intros H. injection H as <-. now exists ops.
Qed.

(** Every payload opens with the protocol header [80 05] and closes
    with the [STOP] opcode [2e]; it has at least three bytes. *)
Theorem payload_ends (v : pyval) (data : list byte) :
  dumps v = Ok data ->
  (exists body, data = [x80; x05] ++ body ++ [x2e]) /\ 3 <= len data.
Proof.
  intros H. destruct (dumps_bytes v data H) as [ops ->].
  rewrite !ser_all_app. split.
  - now exists (ser_all ops).
  - rewrite !len_app. pose proof (len_nonneg (ser_all ops)).
    change (len (ser_all [PROTO 5])) with 2.
    change (len (ser_all [STOP])) with 1. lia.
Qed.

Lemma padded_at_end (c : list byte) (b : byte) :
  padded (c ++ [b]) (len (c ++ [b])) = c ++ [x00].
Proof.
  pose proof (len_nonneg c) as Hc.
  assert (Hl : len (c ++ [b]) = len c + 1)
    by (rewrite len_app; reflexivity).
  rewrite padded_within by lia. rewrite Hl.
  replace (Z.to_nat (len c + 1 - 1)) with (List.length c) by (unfold len; lia).
  replace (Z.to_nat (len c + 1)) with (List.length (c ++ [b]))
    by (rewrite length_app; cbn [List.length]; unfold len; lia).
  rewrite firstn_app, firstn_all, Nat.sub_diag, skipn_all. cbn [firstn app].
  now rewrite !app_nil_r.
Qed.

(** With [target_size] equal to the bytes written, [8 + L], the
    padding write always lands on the [STOP] opcode that ends the
    payload: the file keeps its size, its last byte becomes zero, and it
    no longer holds the payload that was written. *)
Theorem exact_target_destroys_stop (u : Universe.t) (data : list byte) :
  Pickle.dumps (Universe.to_dict u) = Ok data -> len data < 2 ^ 64 ->
  exists w,
    write_and_pad u (8 + len data) = (None, w) /\
    UniverseWriter.output w = removelast (written data) ++ [x00] /\
    written data = removelast (written data) ++ [x2e] /\
    UniverseWriter.output w <> written data.
Proof.
  intros Hd Hl. pose proof (len_nonneg data) as H0.
  destruct (write_and_pad_output u (8 + len data) data Hd Hl ltac:(lia))
    as (w & Hw & Ho).
  destruct (dumps_bytes _ _ Hd) as [ops Hb]. rewrite !ser_all_app in Hb.
  set (body := ser_all ops) in Hb.
  change (ser_all [PROTO 5]) with [x80; x05] in Hb.
  change (ser_all [STOP]) with [x2e] in Hb.
  assert (Hwr : written data =
                (le_bytes 8 (len data) ++ [x80; x05] ++ body) ++ [x2e]).
  { unfold written. rewrite Hb at 2. now rewrite <- !app_assoc. }
  assert (Hrm : removelast (written data) =
                le_bytes 8 (len data) ++ [x80; x05] ++ body)
    by (rewrite Hwr; apply removelast_last).
  exists w. split; [exact Hw | ].
  assert (Hout : UniverseWriter.output w = removelast (written data) ++ [x00]).
  { rewrite Ho, <- written_length, Hrm. rewrite Hwr at 1 2. apply padded_at_end. }
  split; [exact Hout | ]. split; [now rewrite Hrm | ].
  rewrite Hout. rewrite Hwr at 2. rewrite Hrm.
  intros E. apply app_inv_head in E. discriminate E.
Qed.

End PayloadEnds.

Lemma payload_ends_witness :
  exists body,
    [x80; x05; x95; x11; x00; x00; x00; x00; x00; x00; x00; x7d; x94;
     x8c; x08; x67; x61; x6c; x61; x78; x69; x65; x73; x94; x5d; x94;
     x73; x2e] = ([x80; x05] ++ body ++ [x2e])%list.
Proof. exact (proj1 (payload_ends _ _ dumps_empty_universe)). Defined.

Lemma exact_target_destroys_stop_witness :
  exists w,
    write_and_pad (Universe.mk []) 36 = (None, w) /\
    last (UniverseWriter.output w) x01 = x00.
Proof.
  destruct (exact_target_destroys_stop (Universe.mk []) _ dumps_empty_universe
              ltac:(reflexivity)) as (w & Hw & Ho & _).
  exists w. split; [exact Hw | ]. rewrite Ho. apply last_last.
Defined.

(* ------------------------------------------------------------------ *)
(** * Compositions and spins of the generated objects *)

Section GeneratedValues.

Local Open Scope list_scope.

(** What a call of [random_minerals] ends with. *)
Lemma minerals_outcome (r : rng) :
  match random_minerals r with
  | Ok (m, _) => composition_ok m
  | Raise e => e = ZeroDivisionError
  end.
Proof.
  destruct (minerals_facts r)
    as (ws & total & r1 & Ws & T & Hu & Hlen & HF & HT & Herr & HS & HSb).
  pose proof (nonneg_fin_is_zero _ _ HT) as Hiz.
  pose proof (nonneg_fin_nonneg _ _ HT) as HT0.
  rewrite Hu. unfold lift. rewrite (mineral_quotients _ _ Hlen), Hiz.
  destruct (Z.eqb_spec T 0) as [HTz|HTz]; [reflexivity | ].
  destruct (total_bounds _ _ HT0 HTz Herr HS HSb) as [HSpos HTr].
  exact (composition_of_quotients _ T _ Ws HT HF Hlen Herr HSpos HTr).
Qed.


Lemma counted_loop_Forall {A : Type} (P : A -> Prop) (lo hi : Z)
    (body : Z -> M A) (r r' : rng) (l : list A) :
  (forall i r y r', body i r = Ok (y, r') -> P y) ->
  (num <- random_randint lo hi ;; for_each body (range num)) r = Ok (l, r') ->
  Forall P l.
Proof.
  intros Hb H. apply bind_Ok in H. destruct H as (num & r1 & _ & H).
  eapply for_each_Forall; [exact Hb | exact H].
Qed.

Lemma random_unit_interval (r r' : rng) (x : float) :
  random_random r = Ok (x, r') -> unit_interval x.
Proof.
  unfold random_random. cbn [next]. intros H. injection H as Hx _.
  change (Float.of_ratio (r 0%nat mod 2 ^ 53) (2 ^ 53) = x) in Hx.
  assert (Hk : 0 <= r 0%nat mod 2 ^ 53 < 2 ^ 53)
    by (apply Z.mod_pos_bound; reflexivity).
  destruct (random_spec _ Hk) as (W & HW & H0 & Hpos).
  destruct (nonneg_fin_ulps _ _ HW) as [Hu Hf].
  pose proof (nonneg_fin_nonneg _ _ HW) as HW0.
  assert (HW1 : W < 2 ^ 1074).
  { destruct (Z.eq_dec (r 0%nat mod 2 ^ 53) 0) as [E|E].
    - rewrite (H0 E). reflexivity.
    - apply Hpos. lia. }
  rewrite Hx in *. clear Hx. unfold unit_interval. split; [exact Hf | ].
  unfold Float.value, Qle, Qlt. cbn [Qnum Qden]. rewrite Hu.
  change (Z.pos (Z.to_pos (2 ^ 1074))) with (2 ^ 1074).
  rewrite Z.mul_0_l, Z.mul_1_r, Z.mul_1_l. split; assumption.
Qed.

Variable cfg : Config.

(** Whatever holds of every result of [random_minerals] holds of every
    composition of a generated Universe. *)
Lemma generated_each_composition (P : dict float -> Prop) (r r' : rng)
    (gs : list Galaxy.t) :
  (forall r0 m r1, random_minerals r0 = Ok (m, r1) -> P m) ->
  generate_galaxies cfg r = Ok (gs, r') -> Forall (each_composition P) gs.
Proof.
  intros HP. unfold generate_galaxies. apply for_each_Forall.
  intros gi r0 g r0' Hg. cbv beta zeta in Hg.
  apply bind_Ok in Hg. destruct Hg as (stars & r1 & Hst & Hg).
  apply bind_Ok in Hg. destruct Hg as (bhs & r2 & _ & Hg).
  apply bind_Ok in Hg. destruct Hg as (nebs & r3 & Hnb & Hg).
  apply bind_Ok in Hg. destruct Hg as (asts & r4 & Has & Hg).
  apply bind_Ok in Hg. destruct Hg as (coms & r5 & _ & Hg).
  injection Hg as <- _. unfold each_composition.
  cbn [Galaxy.stars Galaxy.nebulae Galaxy.asteroids].
  split; [ | split].
  - revert Hst. unfold generate_stars. apply counted_loop_Forall.
    intros si r6 s r6' Hs. cbv beta zeta in Hs.
    apply bind_Ok in Hs. destruct Hs as (mass & r7 & _ & Hs).
    apply bind_Ok in Hs. destruct Hs as (temp & r8 & _ & Hs).
    apply bind_Ok in Hs. destruct Hs as (spec & r9 & _ & Hs).
    apply bind_Ok in Hs. destruct Hs as (planets & r10 & Hpl & Hs).
    injection Hs as <- _. cbn [Star.planets].
    revert Hpl. unfold generate_planets. apply counted_loop_Forall.
    intros pi r11 p r11' Hp. cbv beta zeta in Hp.
    apply bind_Ok in Hp. destruct Hp as (pm & r12 & _ & Hp).
    apply bind_Ok in Hp. destruct Hp as (pt & r13 & _ & Hp).
    apply bind_Ok in Hp. destruct Hp as (life & r14 & _ & Hp).
    apply bind_Ok in Hp. destruct Hp as (mins & r15 & Hm & Hp).
    injection Hp as <- _. cbn [Planet.minerals]. exact (HP _ _ _ Hm).
  - revert Hnb. unfold generate_nebulae. apply counted_loop_Forall.
    intros ni r6 n r6' Hn. cbv beta zeta in Hn.
    apply bind_Ok in Hn. destruct Hn as (m0 & r7 & _ & Hn).
    apply bind_Ok in Hn. destruct Hn as (mass & r8 & _ & Hn).
    apply bind_Ok in Hn. destruct Hn as (t0 & r9 & _ & Hn).
    apply bind_Ok in Hn. destruct Hn as (temp & r10 & _ & Hn).
    apply bind_Ok in Hn. destruct Hn as (comp & r11 & Hm & Hn).
    injection Hn as <- _. cbn [Nebula.composition]. exact (HP _ _ _ Hm).
  - revert Has. unfold generate_asteroids. apply counted_loop_Forall.
    intros ai r6 a r6' Ha. cbv beta zeta in Ha.
    apply bind_Ok in Ha. destruct Ha as (m0 & r7 & _ & Ha).
    apply bind_Ok in Ha. destruct Ha as (mass & r8 & _ & Ha).
    apply bind_Ok in Ha. destruct Ha as (comp & r9 & Hm & Ha).
    injection Ha as <- _. cbn [Asteroid.composition]. exact (HP _ _ _ Hm).
Qed.

(** In every generated Universe each composition (the minerals of a
    planet, the composition of a nebula or an asteroid) has the eight
    mineral names as its keys and finite values that are not negative
    and sum to 1 within [10^-9]. *)
Theorem generated_compositions (r r' : rng) (gs : list Galaxy.t) :
  generate_galaxies cfg r = Ok (gs, r') -> Forall compositions_ok gs.
Proof.
  intros H. unfold compositions_ok.
  apply (generated_each_composition composition_ok r r' gs); [ | exact H].
  intros r0 m r1 Hm. pose proof (minerals_outcome r0) as Ho.
  rewrite Hm in Ho. exact Ho.
Qed.

(** The spin of every generated black hole is a finite float of
    [[0, 1)]. *)
Theorem generated_spins (r r' : rng) (gs : list Galaxy.t) :
  generate_galaxies cfg r = Ok (gs, r') -> Forall spins_ok gs.
Proof.
  unfold generate_galaxies. apply for_each_Forall.
  intros gi r0 g r0' Hg. cbv beta zeta in Hg.
  apply bind_Ok in Hg. destruct Hg as (stars & r1 & _ & Hg).
  apply bind_Ok in Hg. destruct Hg as (bhs & r2 & Hbh & Hg).
  apply bind_Ok in Hg. destruct Hg as (nebs & r3 & _ & Hg).
  apply bind_Ok in Hg. destruct Hg as (asts & r4 & _ & Hg).
  apply bind_Ok in Hg. destruct Hg as (coms & r5 & _ & Hg).
  injection Hg as <- _. unfold spins_ok. cbn [Galaxy.black_holes].
  revert Hbh. unfold generate_black_holes. apply counted_loop_Forall.
  intros bi r6 b r6' Hb. cbv beta zeta in Hb.
  apply bind_Ok in Hb. destruct Hb as (m0 & r7 & _ & Hb).
  apply bind_Ok in Hb. destruct Hb as (spin & r8 & Hsp & Hb).
  injection Hb as <- _. cbn [BlackHole.spin].
  exact (random_unit_interval _ _ _ Hsp).
Qed.

End GeneratedValues.

Lemma generated_compositions_witness : Forall compositions_ok sample_galaxies.
Proof.
  destruct sample_generation as [r' E].
  exact (generated_compositions small_config sample_draws r' sample_galaxies E).
Defined.

Lemma generated_spins_witness : Forall spins_ok sample_galaxies.
Proof.
  destruct sample_generation as [r' E].
  exact (generated_spins small_config sample_draws r' sample_galaxies E).
Defined.

(* ------------------------------------------------------------------ *)
(** * From generation to the file *)

Section EndToEnd.

Local Open Scope list_scope.








End EndToEnd.


(* ------------------------------------------------------------------ *)
(** * Rounding to nearest: exactness and monotonicity *)

Section Nearest.

Import Float.

Lemma nonneg_fin_representable (x : float) (U : Z) :
  nonneg_fin x U -> representable U.
Proof.
  intros (m & e & Hc & Hm & He & ->). exists m, e. repeat split; try assumption.
  unfold classify in Hc.
  pose proof (Z.mod_pos_bound x (2 ^ 52) eq_refl) as Hf. fold (frac x) in Hf.
  change (2 ^ 53) with (2 ^ 52 + 2 ^ 52).
  destruct (expo x =? 2047); [destruct (frac x =? 0); discriminate | ].
  pose (significand := fun v : view => match v with Fin _ m0 _ => m0 | _ => 0 end).
  destruct (expo x =? 0); apply (f_equal significand) in Hc;
    cbn [significand] in Hc; rewrite <- Hc; clear - Hf; lia.
Qed.

(** The float nearest to a ratio of the normal range, on the grid of its
    binade: [g] is the grid unit in units of [2^-1074]. *)
Lemma round_pos_grid (n d : Z) :
  0 < n -> 0 < d -> d <= n * 2 ^ 1022 -> n < d * 2 ^ 1023 ->
  exists M g,
    nonneg_fin (round_pos n d) (M * g) /\ 0 < g /\
    (exists e, -1074 <= e /\ g = 2 ^ (e + 1074)) /\
    2 ^ 52 * (g * d) <= n * 2 ^ 1074 /\ n * 2 ^ 1074 < 2 ^ 53 * (g * d) /\
    2 * Z.abs (M * (g * d) - n * 2 ^ 1074) <= g * d /\
    (forall a b, a * (g * d) <= n * 2 ^ 1074 -> n * 2 ^ 1074 < b * (g * d) ->
                 a <= M <= b).
Proof.
  intros Hn Hd Hlo Hhi. unfold round_pos.
  destruct (ilog2_ratio_spec n d Hn Hd) as [L1 L2].
  set (l := ilog2_ratio n d) in *.
  assert (Hl : -1022 <= l <= 1022).
  { split.
    - destruct (Z_le_gt_dec (-1022) l) as [|C]; [assumption | exfalso].
      rewrite (pow2_nonpos (l + 1)), (pow2_nonneg (- (l + 1))) in L2 by lia.
      assert (2 ^ 1022 <= 2 ^ (- (l + 1))) by (apply Z.pow_le_mono_r; lia).
      set (c := 2 ^ 1022) in *. set (c' := 2 ^ (- (l + 1))) in *.
      clearbody c c'. clear - Hn Hd Hlo L2 H. nia.
    - destruct (Z_le_gt_dec l 1022) as [|C]; [assumption | exfalso].
      rewrite (pow2_nonneg l), (pow2_nonpos (- l)) in L1 by lia.
      assert (2 ^ 1023 <= 2 ^ l) by (apply Z.pow_le_mono_r; lia).
      set (c := 2 ^ 1023) in *. set (c' := 2 ^ l) in *.
      clearbody c c'. clear - Hn Hd Hhi L1 H. nia. }
  rewrite Z.max_l by lia.
  set (e := l - 52) in *.
  set (N := n * pow2 (- e)). set (D := d * pow2 e).
  assert (HD : 0 < D) by (pose proof (pow2_pos e); unfold D; nia).
  assert (HN : 0 < N) by (pose proof (pow2_pos (- e)); unfold N; nia).
  assert (B1 : 2 ^ 52 * D <= N).
  { destruct (pow2_shift e 52 ltac:(lia)) as (c & Hc & E1 & E2).
    replace (e + 52) with l in * by (unfold e; lia).
    unfold N, D. rewrite <- E2.
    replace (2 ^ 52 * (d * pow2 e)) with (d * (pow2 e * 2 ^ 52)) by ring.
    rewrite <- E1. clear - L1 Hc. nia. }
  assert (B2 : N < 2 ^ 53 * D).
  { destruct (pow2_shift e 53 ltac:(lia)) as (c & Hc & E1 & E2).
    replace (e + 53) with (l + 1) in * by (unfold e; lia).
    unfold N, D. rewrite <- E2.
    replace (2 ^ 53 * (d * pow2 e)) with (d * (pow2 e * 2 ^ 53)) by ring.
    rewrite <- E1. clear - L2 Hc. nia. }
  destruct (rne_div_spec N D ltac:(lia) HD) as [R1 R2].
  pose proof (R2 (2 ^ 52) (2 ^ 53) B1 B2) as RM.
  set (M := rne_div N D) in *.
  destruct (classify_normal M e RM ltac:(unfold e; lia)) as [Hb Hc].
  rewrite Z.min_l by lia.
  destruct (pow2_scale e ltac:(unfold e; lia)) as (s & Hs & S1 & S2).
  assert (G : 2 ^ (e + 1074) * d = D * s) by (rewrite S1; unfold D; ring).
  assert (X : n * 2 ^ 1074 = N * s) by (rewrite S2; unfold N; ring).
  exists M, (2 ^ (e + 1074)).
  split; [exact Hc | ].
  split; [apply Z.pow_pos_nonneg; lia | ].
  split; [exists e; split; [unfold e; lia | reflexivity] | ].
  rewrite G, X. clear - Hs B1 B2 R1 R2 HD HN.
  set (a52 := 2 ^ 52) in *. set (a53 := 2 ^ 53) in *. clearbody a52 a53.
  repeat split.
  - nia.
  - nia.
  - replace (M * (D * s) - N * s) with ((M * D - N) * s) by ring.
    rewrite Z.abs_mul, (Z.abs_eq s) by lia. nia.
  - apply (R2 a b); nia.
  - apply (R2 a b); nia.
Qed.

(** A representable bound above or below the ratio bounds the rounded
    float; a representable ratio is returned as it is. *)
Lemma round_pos_mono (n d : Z) :
  0 < n -> 0 < d -> d <= n * 2 ^ 1022 -> n < d * 2 ^ 1023 ->
  exists U,
    nonneg_fin (round_pos n d) U /\
    Z.abs (U * d - n * 2 ^ 1074) * 2 ^ 53 <= n * 2 ^ 1074 /\
    (forall B, representable B -> n * 2 ^ 1074 <= B * d -> U <= B) /\
    (forall B, representable B -> B * d <= n * 2 ^ 1074 -> B <= U).
Proof.
  intros Hn Hd Hlo Hhi.
  destruct (round_pos_grid n d Hn Hd Hlo Hhi)
    as (M & g & HU & Hg & (e & He & Eg) & G1 & G2 & Near & Mono).
  pose proof (Mono (2 ^ 52) (2 ^ 53) ltac:(lia) ltac:(lia)) as HM.
  exists (M * g). split; [exact HU | ].
  assert (Hgd : 0 < g * d) by nia.
  set (X := n * 2 ^ 1074) in *. set (gd := g * d) in *.
  split.
  { replace (M * g * d) with (M * gd) by (unfold gd; ring).
    change (2 ^ 53) with (2 * 2 ^ 52). set (a52 := 2 ^ 52) in *.
    assert (0 < a52) by reflexivity. clearbody a52 X gd.
    clear - Near G1 H Hgd. nia. }
  assert (Grid : forall B, representable B ->
            (exists j, B = j * g) \/ B < 2 ^ 52 * g).
  { intros B (mb & eb & Hmb & Heb & ->). subst g.
    destruct (Z_le_gt_dec e eb) as [Hle|Hgt].
    - left. exists (mb * 2 ^ (eb - e)).
      rewrite <- Z.mul_assoc, <- Z.pow_add_r by lia. do 2 f_equal. lia.
    - right.
      assert (E : 2 ^ (e + 1074) = 2 ^ (e - eb) * 2 ^ (eb + 1074))
        by (rewrite <- Z.pow_add_r by lia; f_equal; lia).
      assert (2 <= 2 ^ (e - eb))
        by (change 2 with (2 ^ 1) at 1; apply Z.pow_le_mono_r; lia).
      assert (0 < 2 ^ (eb + 1074)) by (apply Z.pow_pos_nonneg; lia).
      rewrite E. change (2 ^ 53) with (2 * 2 ^ 52) in Hmb.
      set (a52 := 2 ^ 52) in *. assert (0 < a52) by reflexivity.
      set (p := 2 ^ (eb + 1074)) in *. set (q := 2 ^ (e - eb)) in *.
      clearbody a52 p q. clear - Hmb H H0 H1.
      assert (L1 : mb * p < 2 * a52 * p) by (apply Z.mul_lt_mono_pos_r; lia).
      assert (L2 : 0 < a52 * p) by (apply Z.mul_pos_pos; lia).
      assert (L3 : 2 * (a52 * p) <= q * (a52 * p))
        by (apply Z.mul_le_mono_nonneg_r; lia).
      lia. }
  set (a52 := 2 ^ 52) in *. set (a53 := 2 ^ 53) in *.
  assert (P52 : 0 < a52) by reflexivity.
  split.
  - intros B HB HXB. destruct (Grid B HB) as [[j ->]|Hsmall].
    + apply Z.mul_le_mono_nonneg_r; [lia | ].
      replace (j * g * d) with (j * gd) in HXB by (unfold gd; ring).
      destruct (Z.eq_dec X (j * gd)) as [E|E].
      * rewrite E in Near.
        replace (M * gd - j * gd) with ((M - j) * gd) in Near by ring.
        rewrite Z.abs_mul, (Z.abs_eq gd) in Near by lia.
        clearbody gd. clear - Near Hgd. nia.
      * apply (Mono (a52) j); [exact G1 | lia].
    + exfalso. clearbody a52 X. clear - Hsmall G1 HXB Hd Hg gd. subst gd. nia.
  - intros B HB HBX. destruct (Grid B HB) as [[j ->]|Hsmall].
    + apply Z.mul_le_mono_nonneg_r; [lia | ].
      replace (j * g * d) with (j * gd) in HBX by (unfold gd; ring).
      apply (Mono j a53); [exact HBX | exact G2].
    + clearbody a52. clear - Hsmall HM Hg. nia.
Qed.

Lemma round_ratio_mono (n d : Z) :
  0 <= n -> 0 < d -> (n = 0 \/ (d <= n * 2 ^ 1022 /\ n < d * 2 ^ 1023)) ->
  exists U,
    nonneg_fin (round_ratio false n d) U /\
    Z.abs (U * d - n * 2 ^ 1074) * 2 ^ 53 <= n * 2 ^ 1074 /\
    (forall B, representable B -> n * 2 ^ 1074 <= B * d -> U <= B) /\
    (forall B, representable B -> B * d <= n * 2 ^ 1074 -> B <= U).
Proof.
  intros Hn Hd Hr. unfold round_ratio, sign_bits. rewrite Z.add_0_l.
  destruct (Z.eqb_spec n 0) as [->|Hne].
  - exists 0. split; [exact classify_zero | ].
    rewrite !Z.mul_0_l. split; [reflexivity | ]. split.
    + intros B (mb & eb & Hmb & Heb & ->) _.
      apply Z.mul_nonneg_nonneg; [lia | apply Z.pow_nonneg; lia].
    + intros B _ HB. clear - HB Hd. nia.
  - destruct Hr as [|[H1 H2]]; [contradiction | ].
    apply round_pos_mono; lia.
Qed.

End Nearest.

Section Operations.

Import Float.

(** [random.random()] is exact: the float of value [k / 2^53]. *)
Lemma random_exact (k : Z) :
  0 <= k < 2 ^ 53 -> nonneg_fin (of_ratio k (2 ^ 53)) (k * 2 ^ 1021).
Proof.
  intros Hk. unfold of_ratio.
  destruct (round_ratio_mono k (2 ^ 53) ltac:(lia) eq_refl)
    as (U & HU & _ & Hle & Hge).
  { destruct (Z.eq_dec k 0); [now left | right].
    change (2 ^ 1022) with (2 ^ 53 * 2 ^ 969).
    change (2 ^ 1023) with (2 * 2 ^ 1022).
    set (a := 2 ^ 53) in *. set (b := 2 ^ 969). set (c := 2 ^ 1022).
    assert (0 < a) by reflexivity. assert (0 < b) by reflexivity.
    assert (0 < c) by reflexivity. clearbody a b c.
    assert (1 <= k * b) by nia. assert (a * 1 <= a * (2 * c)) by nia.
    split; nia. }
  assert (HB : representable (k * 2 ^ 1021)).
  { exists k, (-53). repeat split; try lia. }
  assert (E : k * 2 ^ 1074 = k * 2 ^ 1021 * 2 ^ 53).
  { change (2 ^ 1074) with (2 ^ 1021 * 2 ^ 53). ring. }
  pose proof (Hle _ HB (Z.eq_le_incl _ _ E)) as H1.
  pose proof (Hge _ HB (Z.eq_le_incl _ _ (eq_sym E))) as H2.
  replace (k * 2 ^ 1021) with U by (apply Z.le_antisymm; assumption).
  exact HU.
Qed.

(** [x < y] on finite floats that are not negative compares their
    values. *)
Lemma ltb_spec (x y : float) (X Y : Z) :
  nonneg_fin x X -> nonneg_fin y Y -> ltb x y = (X <? Y).
Proof.
  intros (m & e & Hx & Hm & He & ->) (m' & e' & Hy & Hm' & He' & ->).
  unfold ltb. rewrite Hx, Hy. cbv zeta. unfold signed.
  set (e0 := Z.min e e').
  assert (E1 : m * 2 ^ (e + 1074) = m * 2 ^ (e - e0) * 2 ^ (e0 + 1074)).
  { rewrite <- Z.mul_assoc, <- Z.pow_add_r by (unfold e0; lia).
    do 2 f_equal. lia. }
  assert (E2 : m' * 2 ^ (e' + 1074) = m' * 2 ^ (e' - e0) * 2 ^ (e0 + 1074)).
  { rewrite <- Z.mul_assoc, <- Z.pow_add_r by (unfold e0; lia).
    do 2 f_equal. lia. }
  rewrite E1, E2.
  assert (Hp : 0 < 2 ^ (e0 + 1074)) by (apply Z.pow_pos_nonneg; unfold e0; lia).
  set (p := 2 ^ (e0 + 1074)) in *. set (u := m * 2 ^ (e - e0)).
  set (v := m' * 2 ^ (e' - e0)). clearbody p u v. clear - Hp.
  destruct (Z.ltb_spec u v) as [H|H]; symmetry.
  - apply Z.ltb_lt. apply Z.mul_lt_mono_pos_r; assumption.
  - apply Z.ltb_ge. apply Z.mul_le_mono_nonneg_r; lia.
Qed.

(** Multiplication of finite floats that are not negative: nearest to
    the product [A * B / 2^1074] (in units of [2^-1074]). *)
Lemma mul_spec (a b : float) (A B : Z) :
  nonneg_fin a A -> nonneg_fin b B ->
  (A * B = 0 \/ (2 ^ 52 * 2 ^ 1074 <= A * B /\ A * B < 2 ^ 2097 * 2 ^ 1074)) ->
  exists P,
    nonneg_fin (mul a b) P /\
    Z.abs (P * 2 ^ 1074 - A * B) * 2 ^ 53 <= A * B /\
    (forall Bd, representable Bd -> A * B <= Bd * 2 ^ 1074 -> P <= Bd) /\
    (forall Bd, representable Bd -> Bd * 2 ^ 1074 <= A * B -> Bd <= P).
Proof.
  intros (m & e & Ha & Hm & He & ->) (m' & e' & Hb & Hm' & He' & ->) Hr.
  unfold mul. rewrite Ha, Hb. cbn [xorb].
  set (E := e + e').
  set (n := m * m' * pow2 E). set (d := pow2 (- E)).
  pose proof (pow2_pos E) as P1. pose proof (pow2_pos (- E)) as P2.
  fold d in P2.
  assert (HK : 0 < 2 ^ 1074) by reflexivity.
  assert (Hprod : m * 2 ^ (e + 1074) * (m' * 2 ^ (e' + 1074)) * d
                  = n * 2 ^ 1074 * 2 ^ 1074).
  { unfold n, d.
    replace (m * 2 ^ (e + 1074) * (m' * 2 ^ (e' + 1074)))
      with (m * m' * (2 ^ (e + 1074) * 2 ^ (e' + 1074))) by ring.
    rewrite <- Z.pow_add_r by lia.
    replace (e + 1074 + (e' + 1074)) with (E + 2148) by (unfold E; lia).
    replace (m * m' * pow2 E * 2 ^ 1074 * 2 ^ 1074)
      with (m * m' * (pow2 E * (2 ^ 1074 * 2 ^ 1074))) by ring.
    rewrite <- Z.mul_assoc. f_equal.
    change (2 ^ 1074 * 2 ^ 1074) with (2 ^ 2148).
    destruct (Z_le_gt_dec 0 E) as [H|H].
    - rewrite (pow2_nonneg E), (pow2_nonpos (- E)) by lia.
      rewrite Z.mul_1_r. rewrite <- Z.pow_add_r by lia. reflexivity.
    - rewrite (pow2_nonpos E), (pow2_nonneg (- E)) by lia.
      rewrite Z.mul_1_l. rewrite <- Z.pow_add_r by (unfold E; lia).
      f_equal. lia. }
  set (AB := m * 2 ^ (e + 1074) * (m' * 2 ^ (e' + 1074))) in *.
  assert (Hn : 0 <= n).
  { unfold n. apply Z.mul_nonneg_nonneg; [ | lia].
    apply Z.mul_nonneg_nonneg; assumption. }
  set (K := 2 ^ 1074) in *.
  destruct (round_ratio_mono n d Hn P2) as (P & HP & Herr & Hle & Hge).
  { destruct Hr as [Hr|[Hr1 Hr2]].
    - left. clearbody K AB d n. clear - Hr Hprod HK P2 Hn. nia.
    - right.
      change (2 ^ 2097) with (2 ^ 1023 * K) in Hr2.
      change (2 ^ 1074) with K in Hr1.
      assert (H52 : 2 ^ 52 * 2 ^ 1022 = K) by reflexivity.
      set (a52 := 2 ^ 52) in *. set (a1022 := 2 ^ 1022) in *.
      set (a1023 := 2 ^ 1023) in *.
      assert (0 < a52) by reflexivity. assert (0 < a1022) by reflexivity.
      assert (0 < a1023) by reflexivity.
      clearbody K AB d n a52 a1022 a1023.
      clear - Hr1 Hr2 Hprod HK P2 Hn H52 H H0 H1.
      assert (Q1 : a52 * K * d <= n * K * K) by nia.
      assert (Q2 : n * K * K < a1023 * K * K * d) by nia.
      split.
      + apply (Z.mul_le_mono_pos_r _ _ (a52 * K)); [nia | ]. subst K. nia.
      + apply (Z.mul_lt_mono_pos_r (K * K)); [nia | ]. nia. }
  fold K in Herr, Hle, Hge. exists P. split; [exact HP | ].
  clearbody K AB d n. clear - Herr Hle Hge Hprod HK P2 Hn.
  assert (HAB : 0 <= AB) by nia.
  split; [ | split].
  - apply (Z.mul_le_mono_pos_r _ _ d P2).
    replace (Z.abs (P * K - AB) * 2 ^ 53 * d)
      with (Z.abs ((P * K - AB) * d) * 2 ^ 53)
      by (rewrite Z.abs_mul, (Z.abs_eq d) by lia; ring).
    replace ((P * K - AB) * d) with ((P * d - n * K) * K) by nia.
    rewrite Z.abs_mul, (Z.abs_eq K) by lia.
    rewrite Hprod. set (t := Z.abs (P * d - n * K)) in *.
    set (a53 := 2 ^ 53) in *. clearbody t a53. nia.
  - intros Bd HBd H. apply Hle; [exact HBd | ].
    apply (Z.mul_le_mono_pos_r _ _ K HK).
    assert (AB * d <= Bd * K * d) by (apply Z.mul_le_mono_nonneg_r; lia).
    replace (n * K * K) with (AB * d) by exact Hprod.
    replace (Bd * d * K) with (Bd * K * d) by ring. assumption.
  - intros Bd HBd H. apply Hge; [exact HBd | ].
    apply (Z.mul_le_mono_pos_r _ _ K HK).
    assert (Bd * K * d <= AB * d) by (apply Z.mul_le_mono_nonneg_r; lia).
    replace (n * K * K) with (AB * d) by exact Hprod.
    replace (Bd * d * K) with (Bd * K * d) by ring. assumption.
Qed.

(** Addition of finite floats that are not negative: nearest to the sum. *)
Lemma add_mono (a b : float) (A B : Z) :
  nonneg_fin a A -> nonneg_fin b B ->
  (A + B = 0 \/ (2 ^ 52 <= A + B /\ A + B < 2 ^ 2097)) ->
  exists U,
    nonneg_fin (add a b) U /\
    (forall Bd, representable Bd -> A + B <= Bd -> U <= Bd) /\
    (forall Bd, representable Bd -> Bd <= A + B -> Bd <= U).
Proof.
  intros (m & e & Ha & Hm & He & ->) (m' & e' & Hb & Hm' & He' & ->) Hr.
  unfold add. rewrite Ha, Hb. cbv zeta. unfold signed.
  set (e0 := Z.min e e').
  set (n := m * 2 ^ (e - e0) + m' * 2 ^ (e' - e0)).
  assert (He0 : -1074 <= e0) by (unfold e0; lia).
  assert (Hsum : m * 2 ^ (e + 1074) + m' * 2 ^ (e' + 1074) = n * 2 ^ (e0 + 1074)).
  { unfold n. rewrite Z.mul_add_distr_r, <- !Z.mul_assoc, <- !Z.pow_add_r
      by (unfold e0; lia).
    f_equal; do 2 f_equal; lia. }
  rewrite Hsum in *.
  assert (Hn : 0 <= n).
  { unfold n. apply Z.add_nonneg_nonneg; apply Z.mul_nonneg_nonneg;
      try assumption; apply Z.pow_nonneg; lia. }
  assert (Hp : 0 < 2 ^ (e0 + 1074)) by (apply Z.pow_pos_nonneg; lia).
  destruct (Z.eqb_spec n 0) as [Hz|Hnz].
  - exists 0. split; [exact classify_zero | ]. rewrite Hz, Z.mul_0_l. split.
    + intros Bd _ H. exact H.
    + intros Bd _ H. exact H.
  - destruct (Z.ltb_spec n 0) as [Hlt|_]; [clear - Hn Hlt; lia | ].
    rewrite Z.abs_eq by exact Hn.
    destruct Hr as [Hr|[Hr1 Hr2]];
      [apply Z.mul_eq_0 in Hr; destruct Hr as [Hr|Hr];
       [contradiction | rewrite Hr in Hp; discriminate Hp] | ].
    destruct (pow2_scale e0 He0) as (s & Hs & S1 & S2).
    pose proof (pow2_pos e0) as P1. pose proof (pow2_pos (- e0)) as P2.
    set (n' := n * pow2 e0) in *. set (d' := pow2 (- e0)) in *.
    assert (Hid : n * 2 ^ (e0 + 1074) * d' = n' * 2 ^ 1074)
      by (rewrite S1, S2; unfold n', d'; ring).
    assert (Hn' : 0 < n')
      by (unfold n'; apply Z.mul_pos_pos; [clear - Hn Hnz; lia | exact P1]).
    destruct (round_ratio_mono n' d' (Z.lt_le_incl _ _ Hn') P2)
      as (U & HU & _ & Hle & Hge).
    { right.
      apply (ratio_bounds (n * 2 ^ (e0 + 1074)) d' n' (2 ^ 52) (2 ^ 1022)
               (2 ^ 1023) (2 ^ 1074));
        solve [reflexivity | assumption]. }
    exists U. split; [exact HU | ]. rewrite <- Hid in Hle, Hge. split.
    + intros Bd HBd H. apply Hle; [exact HBd | ].
      apply Z.mul_le_mono_nonneg_r; [lia | exact H].
    + intros Bd HBd H. apply Hge; [exact HBd | ].
      apply Z.mul_le_mono_nonneg_r; [lia | exact H].
Qed.

End Operations.

Section Uniform.

Import Float.

(** No float lies strictly between a float of significand [m > 2^52] and
    the next one below it. *)
Lemma representable_below (P m e : Z) :
  representable P -> 2 ^ 52 < m -> -1074 <= e ->
  P < m * 2 ^ (e + 1074) -> P <= (m - 1) * 2 ^ (e + 1074).
Proof.
  intros (mp & ep & Hmp & Hep & ->) Hm He Hlt.
  destruct (Z_le_gt_dec e ep) as [Hle|Hgt].
  - assert (E : 2 ^ (ep + 1074) = 2 ^ (ep - e) * 2 ^ (e + 1074))
      by (rewrite <- Z.pow_add_r by lia; f_equal; lia).
    rewrite E in *. rewrite Z.mul_assoc in *.
    assert (Hg : 0 < 2 ^ (e + 1074)) by (apply Z.pow_pos_nonneg; lia).
    set (g := 2 ^ (e + 1074)) in *. set (j := mp * 2 ^ (ep - e)) in *.
    clearbody g j. clear - Hlt Hg.
    apply Z.mul_le_mono_nonneg_r; [lia | ].
    assert (j < m) by (apply (Z.mul_lt_mono_pos_r g); assumption). lia.
  - assert (E : 2 ^ (e + 1074) = 2 ^ (e - ep) * 2 ^ (ep + 1074))
      by (rewrite <- Z.pow_add_r by lia; f_equal; lia).
    assert (H2 : 2 <= 2 ^ (e - ep))
      by (change 2 with (2 ^ 1) at 1; apply Z.pow_le_mono_r; lia).
    assert (Hg : 0 < 2 ^ (ep + 1074)) by (apply Z.pow_pos_nonneg; lia).
    rewrite E. change (2 ^ 53) with (2 * 2 ^ 52) in Hmp.
    set (a52 := 2 ^ 52) in *. assert (0 < a52) by reflexivity.
    set (g := 2 ^ (ep + 1074)) in *. set (q := 2 ^ (e - ep)) in *.
    clearbody a52 g q. clear - Hmp Hm H2 Hg H.
    assert (L1 : mp * g <= 2 * a52 * g) by (apply Z.mul_le_mono_nonneg_r; lia).
    assert (L2 : 2 * (a52 * g) <= q * (a52 * g))
      by (apply Z.mul_le_mono_nonneg_r; nia).
    assert (L3 : a52 * (q * g) <= (m - 1) * (q * g))
      by (apply Z.mul_le_mono_nonneg_r; nia).
    lia.
Qed.

(** [a + (b - a) * random()] for floats [0 < a <= b] of the normal
    range lies in [[a, b]]: [Dv] is the float [b - a], and no float
    below it, added to [a], passes [b]. *)
Lemma uniform_range (a b d : float) (A B Dv k : Z) :
  nonneg_fin a A -> nonneg_fin b B -> nonneg_fin d Dv ->
  2 ^ 52 <= A -> B < 2 ^ 2097 -> 2 ^ 105 <= Dv -> Dv < 2 ^ 2097 ->
  (forall P, representable P -> P < Dv -> A + P <= B) ->
  0 <= k < 2 ^ 53 ->
  exists R, nonneg_fin (add a (mul d (of_ratio k (2 ^ 53)))) R /\ A <= R <= B.
Proof.
  intros Ha Hb Hd HA HB HD1 HD2 Hgap Hk.
  pose proof (random_exact k Hk) as Hu.
  assert (HK : 2 ^ 1074 = 2 ^ 53 * 2 ^ 1021) by reflexivity.
  assert (H105 : 2 ^ 105 * 2 ^ 1021 = 2 ^ 52 * 2 ^ 1074) by reflexivity.
  assert (P53 : 0 < 2 ^ 53) by reflexivity.
  assert (P52 : 0 < 2 ^ 52) by reflexivity.
  assert (P105 : 0 < 2 ^ 105) by reflexivity.
  assert (P1021 : 0 < 2 ^ 1021) by reflexivity.
  assert (P2097 : 0 < 2 ^ 2097) by reflexivity.
  destruct (mul_spec d _ Dv (k * 2 ^ 1021) Hd Hu) as (P & HP & Herr & _ & _).
  { destruct (Z.eq_dec k 0) as [->|Hk0]; [left; ring | right].
    rewrite <- H105, HK.
    set (c53 := 2 ^ 53) in *. set (c105 := 2 ^ 105) in *.
    set (c1021 := 2 ^ 1021) in *. set (c2097 := 2 ^ 2097) in *.
    clearbody c53 c105 c1021 c2097.
    clear - HD1 HD2 Hk Hk0 P53 P105 P1021 P2097. split.
    - assert (c105 * 1 <= Dv * k) by nia. nia.
    - assert (Dv * k < c2097 * c53) by nia.
      replace (Dv * (k * c1021)) with (Dv * k * c1021) by ring.
      replace (c2097 * (c53 * c1021)) with (c2097 * c53 * c1021) by ring.
      apply Z.mul_lt_mono_pos_r; assumption. }
  pose proof (nonneg_fin_nonneg _ _ HP) as HP0.
  pose proof (nonneg_fin_representable _ _ HP) as HPr.
  assert (HPD : P < Dv).
  { rewrite HK in Herr.
    set (c53 := 2 ^ 53) in *. set (c1021 := 2 ^ 1021) in *.
    set (c105 := 2 ^ 105) in *.
    clearbody c53 c1021 c105. clear - Herr Hk HD1 P53 P1021 P105 HP0.
    destruct (Z_lt_le_dec P Dv) as [|C]; [assumption | exfalso].
    assert (E : P * (c53 * c1021) - Dv * (k * c1021)
                = (P * c53 - Dv * k) * c1021) by ring.
    rewrite E, Z.abs_mul, (Z.abs_eq c1021) in Herr by lia.
    assert (H1 : Dv * c53 <= P * c53) by (apply Z.mul_le_mono_nonneg_r; lia).
    assert (H2 : Dv * k + Dv <= Dv * c53) by nia.
    rewrite Z.abs_eq in Herr by lia.
    assert (H3 : (P * c53 - Dv * k) * c53 <= Dv * k).
    { apply (Z.mul_le_mono_pos_r _ _ c1021); [lia | ]. nia. }
    assert (H4 : Dv * c53 <= (P * c53 - Dv * k) * c53)
      by (apply Z.mul_le_mono_nonneg_r; lia).
    nia. }
  pose proof (Hgap P HPr HPD) as HAP.
  destruct (add_mono a _ A P Ha HP) as (R & HR & Hle & Hge).
  { right. clear - HA HAP HB HP0. lia. }
  exists R. split; [exact HR | ]. split.
  - apply Hge; [exact (nonneg_fin_representable _ _ Ha) | clear - HP0; lia].
  - apply Hle; [exact (nonneg_fin_representable _ _ Hb) | exact HAP].
Qed.

Lemma between_of_ulps (lo hi x : float) (L H X : Z) :
  nonneg_fin lo L -> nonneg_fin hi H -> nonneg_fin x X -> L <= X <= H ->
  between lo hi x.
Proof.
  intros Hl Hh Hx [H1 H2].
  destruct (nonneg_fin_ulps _ _ Hl) as [El _].
  destruct (nonneg_fin_ulps _ _ Hh) as [Eh _].
  destruct (nonneg_fin_ulps _ _ Hx) as [Ex Hf].
  unfold between. split; [exact Hf | ].
  unfold value, Qle. cbn [Qnum Qden]. rewrite El, Eh, Ex.
  split; apply Z.mul_le_mono_nonneg_r; (assumption || discriminate).
Qed.

Ltac concrete_fin m e :=
  exists m, e; split; [vm_compute; reflexivity | ];
  split; [discriminate | ]; split; [discriminate | reflexivity].

Lemma min_mass_fin : nonneg_fin MIN_MASS (6103515625000000 * 2 ^ (14 + 1074)).
Proof. concrete_fin 6103515625000000 14. Qed.

Lemma max_mass_fin : nonneg_fin MAX_MASS (8271806125530277 * 2 ^ (80 + 1074)).
Proof. concrete_fin 8271806125530277 80. Qed.

Lemma mass_width_fin :
  nonneg_fin (sub MAX_MASS MIN_MASS) (8271806125530277 * 2 ^ (80 + 1074)).
Proof. concrete_fin 8271806125530277 80. Qed.

Lemma min_temp_fin : nonneg_fin MIN_TEMP (4503599627370496 * 2 ^ (-51 + 1074)).
Proof. concrete_fin 4503599627370496 (-51). Qed.

Lemma max_temp_fin : nonneg_fin MAX_TEMP (5368709120000000 * 2 ^ (-29 + 1074)).
Proof. concrete_fin 5368709120000000 (-29). Qed.

Lemma temp_width_fin :
  nonneg_fin (sub MAX_TEMP MIN_TEMP) (5368708046258176 * 2 ^ (-29 + 1074)).
Proof. concrete_fin 5368708046258176 (-29). Qed.

Lemma min_tail_fin : nonneg_fin MIN_TAIL (8796093022208000 * 2 ^ (-43 + 1074)).
Proof. concrete_fin 8796093022208000 (-43). Qed.

Lemma max_tail_fin : nonneg_fin MAX_TAIL (6871947673600000 * 2 ^ (-36 + 1074)).
Proof. concrete_fin 6871947673600000 (-36). Qed.

Lemma tail_width_fin :
  nonneg_fin (sub MAX_TAIL MIN_TAIL) (6803228196864000 * 2 ^ (-36 + 1074)).
Proof. concrete_fin 6803228196864000 (-36). Qed.

Lemma uniform_value (a b : float) (r r' : rng) (x : float) :
  random_uniform a b r = Ok (x, r') ->
  x = add a (mul (sub b a) (of_ratio (weight_draw r 0) (2 ^ 53))).
Proof.
  unfold random_uniform, bind, random_random, ret, next, weight_draw.
  intros H. injection H as <- _. reflexivity.
Qed.

Lemma draw_bound (r : rng) (i : nat) : 0 <= weight_draw r i < 2 ^ 53.
Proof. unfold weight_draw. apply Z.mod_pos_bound. reflexivity. Qed.

(** [random.uniform(a, b)] lies between its two ends. *)
Lemma uniform_between (a b : float) (A B Dv : Z) :
  nonneg_fin a A -> nonneg_fin b B -> nonneg_fin (sub b a) Dv ->
  2 ^ 52 <= A -> B < 2 ^ 2097 -> 2 ^ 105 <= Dv -> Dv < 2 ^ 2097 ->
  (forall P, representable P -> P < Dv -> A + P <= B) ->
  forall (r r' : rng) (x : float),
    random_uniform a b r = Ok (x, r') -> between a b x.
Proof.
  intros Ha Hb Hd HA HB HD1 HD2 Hgap r r' x H.
  apply uniform_value in H. rewrite H. clear H x.
  destruct (uniform_range a b _ A B Dv (weight_draw r 0) Ha Hb Hd HA HB HD1 HD2
              Hgap (draw_bound r 0)) as (R & HR & HRb).
  exact (between_of_ulps _ _ _ _ _ _ Ha Hb HR HRb).
Qed.

Ltac closed_fact := vm_compute; first [reflexivity | discriminate].

(** [random_mass()] lies between [MIN_MASS] and [MAX_MASS]. *)
Lemma random_mass_range (r r' : rng) (x : float) :
  random_mass r = Ok (x, r') -> between MIN_MASS MAX_MASS x.
Proof.
  unfold random_mass.
  apply (uniform_between MIN_MASS MAX_MASS _ _ _
           min_mass_fin max_mass_fin mass_width_fin);
    [closed_fact | closed_fact | closed_fact | closed_fact | ].
  intros P HP Hlt.
  apply (representable_below P 8271806125530277 80 HP) in Hlt;
    [ | reflexivity | discriminate].
  change (2 ^ (80 + 1074)) with (73786976294838206464 * 2 ^ (14 + 1074)) in *.
  set (g := 2 ^ (14 + 1074)) in *. assert (0 < g) by reflexivity.
  clearbody g. nia.
Qed.

(** [random_temperature()] lies between [MIN_TEMP] and [MAX_TEMP]. *)
Lemma random_temperature_range (r r' : rng) (x : float) :
  random_temperature r = Ok (x, r') -> between MIN_TEMP MAX_TEMP x.
Proof.
  unfold random_temperature.
  apply (uniform_between MIN_TEMP MAX_TEMP _ _ _
           min_temp_fin max_temp_fin temp_width_fin);
    [closed_fact | closed_fact | closed_fact | closed_fact | ].
  intros P HP Hlt.
  change (2 ^ (-29 + 1074)) with (4194304 * 2 ^ (-51 + 1074)) in *.
  set (g := 2 ^ (-51 + 1074)) in *. clearbody g. lia.
Qed.

(** [random.uniform(1E3, 1E5)] lies between the two ends. *)
Lemma random_tail_range (r r' : rng) (x : float) :
  random_uniform MIN_TAIL MAX_TAIL r = Ok (x, r') ->
  between MIN_TAIL MAX_TAIL x.
Proof.
  apply (uniform_between MIN_TAIL MAX_TAIL _ _ _
           min_tail_fin max_tail_fin tail_width_fin);
    [closed_fact | closed_fact | closed_fact | closed_fact | ].
  intros P HP Hlt.
  change (2 ^ (-36 + 1074)) with (128 * 2 ^ (-43 + 1074)) in *.
  set (g := 2 ^ (-43 + 1074)) in *. clearbody g. lia.
Qed.

End Uniform.

Section GeneratedRanges.

Local Open Scope list_scope.

Variable cfg : Config.

(** Every value that generation takes from [random.uniform] as it is
    lies between the two ends given: the mass and temperature of each
    star and planet between [MIN_MASS] and [MAX_MASS], [MIN_TEMP] and
    [MAX_TEMP], the tail length of each comet between 1E3 and 1E5. *)
Theorem generated_uniform_values (r r' : rng) (gs : list Galaxy.t) :
  generate_galaxies cfg r = Ok (gs, r') -> Forall uniform_values_ok gs.
Proof.
  unfold generate_galaxies. apply for_each_Forall.
  intros gi r0 g r0' Hg. cbv beta zeta in Hg.
  apply bind_Ok in Hg. destruct Hg as (stars & r1 & Hst & Hg).
  apply bind_Ok in Hg. destruct Hg as (bhs & r2 & _ & Hg).
  apply bind_Ok in Hg. destruct Hg as (nebs & r3 & _ & Hg).
  apply bind_Ok in Hg. destruct Hg as (asts & r4 & _ & Hg).
  apply bind_Ok in Hg. destruct Hg as (coms & r5 & Hco & Hg).
  injection Hg as <- _. unfold uniform_values_ok.
  cbn [Galaxy.stars Galaxy.comets]. split.
  - revert Hst. unfold generate_stars. apply counted_loop_Forall.
    intros si r6 s r6' Hs. cbv beta zeta in Hs.
    apply bind_Ok in Hs. destruct Hs as (mass & r7 & Hm & Hs).
    apply bind_Ok in Hs. destruct Hs as (temp & r8 & Ht & Hs).
    apply bind_Ok in Hs. destruct Hs as (spec & r9 & _ & Hs).
    apply bind_Ok in Hs. destruct Hs as (planets & r10 & Hpl & Hs).
    injection Hs as <- _. cbn [Star.mass Star.temperature Star.planets].
    split; [exact (random_mass_range _ _ _ Hm) | ].
    split; [exact (random_temperature_range _ _ _ Ht) | ].
    revert Hpl. unfold generate_planets. apply counted_loop_Forall.
    intros pi r11 p r11' Hp. cbv beta zeta in Hp.
    apply bind_Ok in Hp. destruct Hp as (pm & r12 & Hpm & Hp).
    apply bind_Ok in Hp. destruct Hp as (pt & r13 & Hpt & Hp).
    apply bind_Ok in Hp. destruct Hp as (life & r14 & _ & Hp).
    apply bind_Ok in Hp. destruct Hp as (mins & r15 & _ & Hp).
    injection Hp as <- _. cbn [Planet.mass Planet.temperature].
    split; [exact (random_mass_range _ _ _ Hpm) | ].
    exact (random_temperature_range _ _ _ Hpt).
  - revert Hco. unfold generate_comets. apply counted_loop_Forall.
    intros ci r6 c r6' Hc. cbv beta zeta in Hc.
    apply bind_Ok in Hc. destruct Hc as (m0 & r7 & _ & Hc).
    apply bind_Ok in Hc. destruct Hc as (mass & r8 & _ & Hc).
    apply bind_Ok in Hc. destruct Hc as (tail & r9 & Ht & Hc).
    injection Hc as <- _. cbn [Comet.tail_length_km].
    change (Float.of_ratio 1000 1) with MIN_TAIL in Ht.
    change (Float.of_ratio 100000 1) with MAX_TAIL in Ht.
    exact (random_tail_range _ _ _ Ht).
Qed.

End GeneratedRanges.

Lemma generated_uniform_values_witness : Forall uniform_values_ok sample_galaxies.
Proof.
  destruct sample_generation as [r' E].
  exact (generated_uniform_values small_config sample_draws r' sample_galaxies E).
Defined.

Section Chance.

Import Float.

Lemma bool_chance_value (p : float) (r : rng) :
  random_bool_chance p r =
    Ok (ltb (of_ratio (weight_draw r 0) (2 ^ 53)) p, snd (next r)).
Proof. reflexivity. Qed.

Lemma life_probability_fin :
  nonneg_fin LIFE_PROBABILITY (4611686018427388 * 2 ^ (-63 + 1074)).
Proof.
  exists 4611686018427388, (-63). split; [vm_compute; reflexivity | ].
  split; [discriminate | ]. split; [discriminate | reflexivity].
Qed.

(** [random_bool_chance(p)] for a finite [p >= 0] compares the exact
    value [k / 2^53] of the draw with [p]: it is never true for
    [p = 0.0], always true for [p >= 1.0], and for [LIFE_PROBABILITY]
    true exactly for the 4503599627371 smallest of the [2^53] values of
    the draw. *)
Theorem random_bool_chance_threshold (r : rng) :
  (forall p P, nonneg_fin p P ->
     random_bool_chance p r =
       Ok (weight_draw r 0 * 2 ^ 1021 <? P, snd (next r))) /\
  random_bool_chance (Float.zero false) r = Ok (false, snd (next r)) /\
  (forall p P, nonneg_fin p P -> 2 ^ 1074 <= P ->
     random_bool_chance p r = Ok (true, snd (next r))) /\
  random_bool_chance LIFE_PROBABILITY r =
    Ok (weight_draw r 0 <? 4503599627371, snd (next r)).
Proof.
  pose proof (draw_bound r 0) as Hk.
  assert (G : forall p P, nonneg_fin p P ->
            random_bool_chance p r =
              Ok (weight_draw r 0 * 2 ^ 1021 <? P, snd (next r))).
  { intros p P Hp. rewrite bool_chance_value.
    now rewrite (ltb_spec _ _ _ _ (random_exact _ Hk) Hp). }
  split; [exact G | ]. split; [ | split].
  - change (Float.zero false) with 0.
    rewrite (G _ 0 classify_zero). do 2 f_equal. apply Z.ltb_ge.
    apply Z.mul_nonneg_nonneg; [lia | discriminate].
  - intros p P Hp HP. rewrite (G p P Hp). do 2 f_equal. apply Z.ltb_lt.
    change (2 ^ 1074) with (2 ^ 53 * 2 ^ 1021) in HP.
    set (g := 2 ^ 1021) in *. assert (0 < g) by reflexivity.
    set (c := 2 ^ 53) in *. clearbody g c. nia.
  - rewrite (G _ _ life_probability_fin). do 2 f_equal.
    change (2 ^ 1021) with (1024 * 2 ^ (-63 + 1074)).
    set (g := 2 ^ (-63 + 1074)). assert (0 < g) by reflexivity. clearbody g.
    destruct (Z.ltb_spec (weight_draw r 0) 4503599627371) as [H1|H1].
    + apply Z.ltb_lt. nia.
    + apply Z.ltb_ge. nia.
Qed.

End Chance.

(* ------------------------------------------------------------------ *)
(** * random_name *)

Section RandomName.

Import Float.
Local Open Scope list_scope.

(** [math.floor] of a finite float that is not negative. *)
Lemma floor_spec (x : float) (P : Z) :
  nonneg_fin x P ->
  exists i, math_floor x = Ok i /\ 0 <= i /\ i * 2 ^ 1074 <= P.
Proof.
  intros (m & e & Hc & Hm & He & ->). unfold math_floor. rewrite Hc.
  cbn [signed]. eexists. split; [reflexivity | ].
  destruct (Z.leb_spec 0 e) as [H|H].
  - assert (0 < 2 ^ e) by (apply Z.pow_pos_nonneg; lia).
    split; [apply Z.mul_nonneg_nonneg; lia | ].
    rewrite Z.pow_add_r by lia. apply Z.eq_le_incl. ring.
  - assert (Hp : 0 < 2 ^ (- e)) by (apply Z.pow_pos_nonneg; lia).
    split; [apply Z.div_pos; assumption | ].
    assert (E : 2 ^ 1074 = 2 ^ (- e) * 2 ^ (e + 1074))
      by (rewrite <- Z.pow_add_r by lia; f_equal; lia).
    rewrite E, Z.mul_assoc. apply Z.mul_le_mono_nonneg_r;
      [apply Z.pow_nonneg; lia | ].
    rewrite Z.mul_comm. apply Z.mul_div_le. exact Hp.
Qed.

Lemma get_In (s : string) (n : nat) :
  (n < String.length s)%nat ->
  exists c, String.get n s = Some c /\ In c (list_ascii_of_string s).
Proof.
  revert n. induction s as [|a s IH]; intros n Hn; [inversion Hn | ].
  destruct n as [|n].
  - exists a. split; [reflexivity | now left].
  - cbn [String.length] in Hn. destruct (IH n ltac:(lia)) as (c & Hc & Hin).
    exists c. split; [exact Hc | now right].
Qed.

Lemma str_index_In (s : string) (i : Z) :
  0 <= i < Z.of_nat (String.length s) ->
  exists c, str_index s i = Ok (String c EmptyString) /\
            In c (list_ascii_of_string s).
Proof.
  intros Hi. unfold str_index. cbv zeta.
  destruct (Z.ltb_spec i 0) as [|_]; [lia | ].
  destruct (Z.leb_spec 0 i) as [_|]; [ | lia].
  destruct (Z.ltb_spec i (Z.of_nat (String.length s))) as [_|]; [ | lia].
  cbn [andb]. destruct (get_In s (Z.to_nat i) ltac:(lia)) as (c & -> & Hin).
  now exists c.
Qed.

(** The float [n] of [random.choices] for the 36 characters. *)
Lemma alphabet_size_fin :
  nonneg_fin (add (of_int (Z.of_nat (String.length (ascii_uppercase ++ digits))))
                  (zero false))
             (36 * 2 ^ 1074).
Proof.
  exists 5066549580791808, (-47). split; [vm_compute; reflexivity | ].
  split; [discriminate | ]. split; [discriminate | reflexivity].
Qed.

(** The index [floor(random() * 36.0)] is one of [0 .. 35]. *)
Lemma index_in_alphabet (n : float) (k : Z) :
  nonneg_fin n (36 * 2 ^ 1074) -> 0 <= k < 2 ^ 53 ->
  exists i, math_floor (mul (of_ratio k (2 ^ 53)) n) = Ok i /\ 0 <= i < 36.
Proof.
  intros Hn Hk. pose proof (random_exact k Hk) as Hu.
  assert (HK : 2 ^ 1074 = 2 ^ 53 * 2 ^ 1021) by reflexivity.
  assert (P53 : 0 < 2 ^ 53) by reflexivity.
  assert (P1021 : 0 < 2 ^ 1021) by reflexivity.
  assert (P1074 : 0 < 2 ^ 1074) by reflexivity.
  assert (Hlo : 2 ^ 52 <= 36 * 2 ^ 1021) by (vm_compute; discriminate).
  assert (Hhi : 36 * 2 ^ 53 * 2 ^ 1021 <= 2 ^ 2097) by (vm_compute; discriminate).
  set (c52 := 2 ^ 52) in *. set (c53 := 2 ^ 53) in *.
  set (c1021 := 2 ^ 1021) in *. set (K := 2 ^ 1074) in *.
  set (c2097 := 2 ^ 2097) in *.
  set (T := 36 * k * c1021).
  assert (HT : k * c1021 * (36 * K) = T * K) by (unfold T; ring).
  assert (HT0 : 0 <= T) by (unfold T; clearbody c1021; nia).
  destruct (mul_spec _ n (k * c1021) (36 * K) Hu Hn) as (P & HP & Herr & _ & _).
  { rewrite HT. fold c52 c2097 K.
    destruct (Z.eq_dec k 0) as [Hk0|Hk0]; [left; unfold T; rewrite Hk0; ring | right].
    split.
    - apply Z.mul_le_mono_nonneg_r; [clearbody K; lia | ].
      unfold T. clearbody c52 c1021. clear - Hk Hk0 Hlo P1021. nia.
    - apply Z.mul_lt_mono_pos_r; [exact P1074 | ].
      assert (T < 36 * c53 * c1021).
      { unfold T. apply Z.mul_lt_mono_pos_r; [exact P1021 | ].
        clearbody c53. clear - Hk. lia. }
      clearbody c2097 c53 c1021 T. clear - H Hhi. lia. }
  fold K in Herr. rewrite HT in Herr.
  destruct (floor_spec _ _ HP) as (i & Hi & Hi0 & HiP). fold K in HiP.
  exists i. split; [exact Hi | ]. split; [exact Hi0 | ].
  assert (HPK : P < 36 * K).
  { replace (P * K - T * K) with ((P - T) * K) in Herr by ring.
    rewrite Z.abs_mul, (Z.abs_eq K) in Herr by (clearbody K; lia).
    assert (H1 : Z.abs (P - T) * c53 <= T).
    { apply (Z.mul_le_mono_pos_r _ _ K P1074).
      replace (Z.abs (P - T) * c53 * K) with (Z.abs (P - T) * K * c53) by ring.
      exact Herr. }
    assert (H2 : T + c1021 * 36 <= 36 * K).
    { unfold T. rewrite HK. clearbody c53 c1021. clear - Hk P1021. nia. }
    assert (H3 : T < c53 * (c1021 * 36)).
    { unfold T. clearbody c53 c1021. clear - Hk P1021. nia. }
    clearbody T K c53 c1021. clear - H1 H2 H3 P53 P1021.
    destruct (Z_lt_le_dec P (36 * K)) as [|C]; [assumption | exfalso].
    rewrite Z.abs_eq in H1 by lia.
    assert ((c1021 * 36) * c53 <= (P - T) * c53)
      by (apply Z.mul_le_mono_nonneg_r; lia).
    lia. }
  apply (Z.mul_lt_mono_pos_r K); [exact P1074 | ].
  clearbody K. clear - HiP HPK. lia.
Qed.

(** One round of [random.choices] over the 36 characters returns one
    of them and takes one draw. *)
Lemma choice_round (r : rng) :
  exists c,
    (u <- random_random ;;
     i <- lift (math_floor
                  (mul u (add (of_int (Z.of_nat (String.length
                                                   (ascii_uppercase ++ digits))))
                              (zero false)))) ;;
     lift (str_index (ascii_uppercase ++ digits) i)) r
      = Ok (String c EmptyString, snd (next r)) /\
    In c name_alphabet.
Proof.
  destruct (index_in_alphabet _ (weight_draw r 0) alphabet_size_fin
              (draw_bound r 0)) as (i & Hi & Hr).
  destruct (str_index_In (ascii_uppercase ++ digits) i Hr) as (c & Hc & Hin).
  exists c. split; [ | exact Hin].
  unfold bind at 1. unfold random_random, next. fold (weight_draw r 0).
  cbv iota beta. unfold bind. unfold lift at 1. rewrite Hi.
  unfold lift. rewrite Hc. reflexivity.
Qed.

Lemma choices_spec (l : list Z) :
  forall r, exists parts r',
    for_each (fun _ : Z =>
      u <- random_random ;;
      i <- lift (math_floor
                   (mul u (add (of_int (Z.of_nat (String.length
                                                    (ascii_uppercase ++ digits))))
                               (zero false)))) ;;
      lift (str_index (ascii_uppercase ++ digits) i)) l r = Ok (parts, r') /\
    String.length (join parts) = List.length l /\
    Forall (fun c => In c name_alphabet) (list_ascii_of_string (join parts)).
Proof.
  induction l as [|x l IH]; intros r.
  - exists [], r. repeat split. constructor.
  - destruct (choice_round r) as (c & Hc & Hin).
    destruct (IH (snd (next r))) as (parts & r' & Hl & Hlen & Hall).
    exists (String c EmptyString :: parts), r'. split; [ | split].
    + cbn [for_each]. unfold bind at 1. rewrite Hc.
      unfold bind at 1. rewrite Hl. reflexivity.
    + cbn [join fold_right String.append List.length String.length].
      fold (join parts). now rewrite Hlen.
    + cbn [join fold_right String.append list_ascii_of_string].
      fold (join parts). constructor; assumption.
Qed.

(** [random_name] never raises: for every prefix, every length and
    every sequence of draws it returns the prefix, a hyphen and [length]
    characters (none for a negative length), each an upper-case letter
    or a digit. *)
Theorem random_name_shape (prefix : string) (length : Z) (r : rng) :
  exists part r',
    random_name prefix length r = Ok ((prefix ++ "-" ++ part)%string, r') /\
    String.length part = Z.to_nat length /\
    Forall (fun c => In c name_alphabet) (list_ascii_of_string part).
Proof.
  destruct (choices_spec (range length) r) as (parts & r' & Hl & Hlen & Hall).
  exists (join parts), r'. split; [ | split].
  - unfold random_name. unfold bind at 1. unfold random_choices. cbv zeta.
    rewrite Hl. reflexivity.
  - rewrite Hlen. apply range_length.
  - exact Hall.
Qed.

End RandomName.

Lemma random_bool_chance_threshold_witness :
  random_bool_chance LIFE_PROBABILITY zero_draws = Ok (true, snd (next zero_draws)).
Proof.
  exact (proj2 (proj2 (proj2 (random_bool_chance_threshold zero_draws)))).
Defined.

Lemma generation_only_zero_division_witness :
  only_zero_division (generate_galaxies default_config).
Proof.
  apply generation_only_zero_division.
  unfold valid_config, well_formed. cbn. lia.
Defined.

Section Monotone.

Import Float.

Lemma nonneg_fin_unique (x : float) (U V : Z) :
  nonneg_fin x U -> nonneg_fin x V -> U = V.
Proof.
  intros HU HV. destruct (nonneg_fin_ulps _ _ HU) as [<- _].
  destruct (nonneg_fin_ulps _ _ HV) as [<- _]. reflexivity.
Qed.

(** The rounded float is at least as near to the ratio as any other
    double. *)
Lemma round_pos_nearest (n d U : Z) :
  0 < n -> 0 < d -> d <= n * 2 ^ 1022 -> n < d * 2 ^ 1023 ->
  nonneg_fin (round_pos n d) U ->
  forall B, representable B ->
    Z.abs (U * d - n * 2 ^ 1074) <= Z.abs (B * d - n * 2 ^ 1074).
Proof.
  intros Hn Hd Hlo Hhi HU B HB.
  destruct (round_pos_grid n d Hn Hd Hlo Hhi)
    as (M & g & HMg & Hg & (e & He & Eg) & G1 & G2 & Near & Mono).
  rewrite (nonneg_fin_unique _ _ _ HU HMg). clear HU U.
  assert (Hgd : 0 < g * d) by (apply Z.mul_pos_pos; assumption).
  replace (M * g * d) with (M * (g * d)) by ring.
  assert (Cases : (exists j, B * d = j * (g * d)) \/
                  2 * (B * d) <= 2 ^ 53 * (g * d) - g * d).
  { destruct HB as (mb & eb & Hmb & Heb & ->). subst g.
    destruct (Z_le_gt_dec e eb) as [Hle|Hgt].
    - left. exists (mb * 2 ^ (eb - e)).
      replace (mb * 2 ^ (eb - e) * (2 ^ (e + 1074) * d))
        with (mb * (2 ^ (eb - e) * 2 ^ (e + 1074)) * d) by ring.
      rewrite <- Z.pow_add_r by lia. do 3 f_equal. lia.
    - right.
      assert (E : 2 ^ (e + 1074) = 2 ^ (e - eb) * 2 ^ (eb + 1074))
        by (rewrite <- Z.pow_add_r by lia; f_equal; lia).
      assert (Hq : exists q', 2 ^ (e - eb) = 2 * q' /\ 1 <= q').
      { exists (2 ^ (e - eb - 1)). split.
        - replace (e - eb) with (1 + (e - eb - 1)) at 1 by lia.
          rewrite Z.pow_add_r by lia. reflexivity.
        - assert (0 < 2 ^ (e - eb - 1)) by (apply Z.pow_pos_nonneg; lia). lia. }
      destruct Hq as (q' & Eq & Hq').
      assert (Hp : 0 < 2 ^ (eb + 1074)) by (apply Z.pow_pos_nonneg; lia).
      rewrite E, Eq. change (2 ^ 53) with (2 * 2 ^ 52) in *.
      set (a52 := 2 ^ 52) in *. assert (P52 : 0 < a52) by reflexivity.
      set (p := 2 ^ (eb + 1074)) in *.
      clearbody a52 p. clear - Hmb Hq' Hp P52 Hd.
      assert (L : 2 * (mb * p) <= 2 * a52 * (2 * q' * p) - 2 * q' * p).
      { assert (mb + 1 <= 2 * a52) by lia.
        assert (L1 : (mb + 1) * p <= 2 * a52 * p)
          by (apply Z.mul_le_mono_nonneg_r; lia).
        assert (L2 : 0 < a52 * p) by (apply Z.mul_pos_pos; assumption).
        assert (L3 : 0 < q' * p) by (apply Z.mul_pos_pos; lia).
        destruct (Z.eq_dec q' 1) as [->|Hq1].
        - lia.
        - assert (2 <= q') by lia.
          assert (L4 : 2 * (a52 * p) <= q' * (a52 * p))
            by (apply Z.mul_le_mono_nonneg_r; lia).
          assert (L5 : q' * p <= q' * (a52 * p)) by nia.
          nia. }
      replace (2 * (mb * p * d)) with (2 * (mb * p) * d) by ring.
      replace (2 * a52 * (2 * q' * p * d) - 2 * q' * p * d)
        with ((2 * a52 * (2 * q' * p) - 2 * q' * p) * d) by ring.
      apply Z.mul_le_mono_nonneg_r; lia. }
  set (X := n * 2 ^ 1074) in *. set (gd := g * d) in *.
  set (Bd := B * d) in *. set (a52 := 2 ^ 52) in *. set (a53 := 2 ^ 53) in *.
  assert (E53 : a53 = 2 * a52) by reflexivity.
  clearbody X gd Bd a52 a53.
  clear - Cases Near G1 G2 Hgd E53.
  destruct Cases as [[j ->]|Hsmall].
  - destruct (Z.eq_dec j M) as [->|Hj]; [lia | ].
    assert (gd <= Z.abs ((j - M) * gd)).
    { rewrite Z.abs_mul, (Z.abs_eq gd) by lia.
      assert (1 <= Z.abs (j - M)) by lia. nia. }
    replace (j * gd - X) with ((j - M) * gd + (M * gd - X)) by ring.
    lia.
  - lia.
Qed.

(** Rounding is monotone: of two ratios in the normal range the larger
    is rounded to the larger or the same float. *)
Lemma nearest_order (X Y x y s : Z) :
  0 < s -> x < y -> representable X -> representable Y ->
  (forall B, representable B -> x <= B * s -> X <= B) ->
  (forall B, representable B -> B * s <= y -> B <= Y) ->
  (forall B, representable B -> Z.abs (X * s - x) <= Z.abs (B * s - x)) ->
  (forall B, representable B -> Z.abs (Y * s - y) <= Z.abs (B * s - y)) ->
  X <= Y.
Proof.
  intros Hs Hxy HX HY Hle Hge NX NY.
  destruct (Z_le_gt_dec X Y) as [|C]; [assumption | exfalso].
  assert (H1 : Y * s < x).
  { destruct (Z_lt_le_dec (Y * s) x) as [|H]; [assumption | ].
    specialize (Hle Y HY H). lia. }
  assert (H2 : y < X * s).
  { destruct (Z_lt_le_dec y (X * s)) as [|H]; [assumption | ].
    specialize (Hge X HX H). lia. }
  specialize (NX Y HY). specialize (NY X HX).
  set (Xs := X * s) in *. set (Ys := Y * s) in *. clearbody Xs Ys. lia.
Qed.

End Monotone.

Section Scaled.

Import Float.

(** Rounding the ratio [n / d], whose value in units of [2^-1074] is
    [x / s]: bounds by doubles above and below, and nearness. *)
Lemma round_scaled (n d x s : Z) :
  0 <= n -> 0 < d -> 0 < s -> x * d = n * 2 ^ 1074 * s ->
  (x = 0 \/ (2 ^ 52 * s <= x /\ x < 2 ^ 2097 * s)) ->
  exists U,
    nonneg_fin (round_ratio false n d) U /\
    (forall B, representable B -> x <= B * s -> U <= B) /\
    (forall B, representable B -> B * s <= x -> B <= U) /\
    (forall B, representable B -> Z.abs (U * s - x) <= Z.abs (B * s - x)).
Proof.
  intros Hn Hd Hs Hx Hr.
  assert (HK : 0 < 2 ^ 1074) by reflexivity.
  assert (E1 : 2 ^ 1074 = 2 ^ 52 * 2 ^ 1022) by reflexivity.
  assert (E2 : 2 ^ 2097 = 2 ^ 1074 * 2 ^ 1023) by reflexivity.
  assert (P52 : 0 < 2 ^ 52) by reflexivity.
  assert (P1022 : 0 < 2 ^ 1022) by reflexivity.
  assert (P1023 : 0 < 2 ^ 1023) by reflexivity.
  set (K := 2 ^ 1074) in *. set (c52 := 2 ^ 52) in *.
  set (c1022 := 2 ^ 1022) in *. set (c1023 := 2 ^ 1023) in *.
  set (c2097 := 2 ^ 2097) in *.
  assert (Hrange : n = 0 \/ (d <= n * c1022 /\ n < d * c1023)).
  { clearbody K c52 c1022 c1023 c2097.
    clear - Hn Hd Hs Hx Hr HK E1 E2 P52 P1022 P1023.
    destruct Hr as [->|[H1 H2]].
    - left. assert (n * (K * s) = 0) by lia.
      assert (0 < K * s) by (apply Z.mul_pos_pos; assumption). nia.
    - right. subst K c2097. split.
      + apply (Z.mul_le_mono_pos_r _ _ (c52 * s)); [nia | ].
        replace (n * c1022 * (c52 * s)) with (n * (c52 * c1022) * s) by ring.
        rewrite <- Hx. nia.
      + apply (Z.mul_lt_mono_pos_r (c52 * c1022 * s)); [nia | ].
        replace (n * (c52 * c1022 * s)) with (n * (c52 * c1022) * s) by ring.
        rewrite <- Hx. nia. }
  destruct (round_ratio_mono n d Hn Hd Hrange) as (U & HU & _ & Hle & Hge).
  fold K in Hle, Hge.
  exists U. split; [exact HU | ].
  assert (Conv : forall B, (B * s - x) * d = (B * d - n * K) * s)
    by (intros B; rewrite Z.mul_sub_distr_r, Hx; ring).
  split; [ | split].
  - intros B HB H. apply Hle; [exact HB | ].
    apply (Z.mul_le_mono_pos_r _ _ s Hs).
    rewrite <- Hx. replace (B * d * s) with (B * s * d) by ring.
    apply Z.mul_le_mono_nonneg_r; [lia | exact H].
  - intros B HB H. apply Hge; [exact HB | ].
    apply (Z.mul_le_mono_pos_r _ _ s Hs).
    rewrite <- Hx. replace (B * d * s) with (B * s * d) by ring.
    apply Z.mul_le_mono_nonneg_r; [lia | exact H].
  - intros B HB.
    assert (Near : Z.abs (U * d - n * K) <= Z.abs (B * d - n * K)).
    { unfold round_ratio, sign_bits in HU. rewrite Z.add_0_l in HU.
      destruct (Z.eqb_spec n 0) as [Hz|Hnz].
      - rewrite (nonneg_fin_unique _ _ _ HU classify_zero). rewrite Hz.
        rewrite !Z.mul_0_l, Z.sub_0_r. cbn [Z.abs]. apply Z.abs_nonneg.
      - destruct Hrange as [|[R1 R2]]; [contradiction | ].
        apply (round_pos_nearest n d U); try assumption. lia. }
    assert (AbsConv : forall B0, Z.abs (B0 * s - x) * d
                                 = Z.abs (B0 * d - n * K) * s).
    { intros B0. transitivity (Z.abs ((B0 * s - x) * d)).
      - rewrite Z.abs_mul, (Z.abs_eq d) by lia. reflexivity.
      - rewrite Conv, Z.abs_mul, (Z.abs_eq s) by lia. reflexivity. }
    apply (Z.mul_le_mono_pos_r _ _ d Hd). rewrite !AbsConv.
    apply Z.mul_le_mono_nonneg_r; [lia | exact Near].
Qed.

(** The two kinds of finite floats: subnormal, and normal with a
    significand of exactly 53 bits. *)
Lemma classify_normalised (x : float) (s : bool) (m e : Z) :
  classify x = Fin s m e ->
  (e = -1074 /\ 0 <= m < 2 ^ 52) \/ (2 ^ 52 <= m < 2 ^ 53 /\ -1074 <= e).
Proof.
  unfold classify. intros Hc.
  pose proof (Z.mod_pos_bound x (2 ^ 52) eq_refl) as Hf. fold (frac x) in Hf.
  pose proof (Z.mod_pos_bound (x / 2 ^ 52) 2048 eq_refl) as He.
  fold (expo x) in He.
  pose (significand := fun v : view => match v with Fin _ m0 _ => m0 | _ => 0 end).
  pose (exponent := fun v : view => match v with Fin _ _ e0 => e0 | _ => 0 end).
  destruct (expo x =? 2047); [destruct (frac x =? 0); discriminate | ].
  destruct (Z.eqb_spec (expo x) 0) as [Hz|Hnz].
  - left. pose proof (f_equal significand Hc) as Hm.
    pose proof (f_equal exponent Hc) as Hx. cbn [significand exponent] in Hm, Hx.
    rewrite <- Hm, <- Hx. clear - Hf. lia.
  - right. pose proof (f_equal significand Hc) as Hm.
    pose proof (f_equal exponent Hc) as Hx. cbn [significand exponent] in Hm, Hx.
    rewrite <- Hm, <- Hx. change (2 ^ 53) with (2 ^ 52 + 2 ^ 52).
    clear - Hf He Hnz. lia.
Qed.

Lemma normalised_unique (m e m' e' : Z) :
  (e = -1074 /\ 0 <= m < 2 ^ 52) \/ (2 ^ 52 <= m < 2 ^ 53 /\ -1074 <= e) ->
  (e' = -1074 /\ 0 <= m' < 2 ^ 52) \/ (2 ^ 52 <= m' < 2 ^ 53 /\ -1074 <= e') ->
  m * 2 ^ (e + 1074) = m' * 2 ^ (e' + 1074) -> m = m' /\ e = e'.
Proof.
  assert (Key : forall m e m' e',
            0 <= m < 2 ^ 53 -> 2 ^ 52 <= m' -> -1074 <= e < e' ->
            m * 2 ^ (e + 1074) < m' * 2 ^ (e' + 1074)).
  { clear. intros m e m' e' Hm Hm' He.
    assert (E : 2 ^ (e' + 1074) = 2 ^ (e' - e) * 2 ^ (e + 1074))
      by (rewrite <- Z.pow_add_r by lia; f_equal; lia).
    assert (H2 : 2 <= 2 ^ (e' - e))
      by (change 2 with (2 ^ 1) at 1; apply Z.pow_le_mono_r; lia).
    assert (Hp : 0 < 2 ^ (e + 1074)) by (apply Z.pow_pos_nonneg; lia).
    rewrite E. change (2 ^ 53) with (2 * 2 ^ 52) in Hm.
    set (a52 := 2 ^ 52) in *. assert (0 < a52) by reflexivity.
    set (p := 2 ^ (e + 1074)) in *. set (q := 2 ^ (e' - e)) in *.
    clearbody a52 p q.
    assert (L1 : m * p < 2 * a52 * p) by (apply Z.mul_lt_mono_pos_r; lia).
    assert (L2 : 2 * (a52 * p) <= q * (a52 * p))
      by (apply Z.mul_le_mono_nonneg_r; nia).
    assert (L3 : a52 * (q * p) <= m' * (q * p))
      by (apply Z.mul_le_mono_nonneg_r; nia).
    lia. }
  intros H H' E.
  assert (He : e = e').
  { destruct (Z.lt_trichotomy e e') as [Hlt|[Heq|Hgt]]; [exfalso | exact Heq | exfalso].
    - destruct H' as [[-> _]|[Hm' He']].
      + destruct H as [[-> _]|[_ He]]; lia.
      + assert (Hm : 0 <= m < 2 ^ 53).
        { clear - H. change (2 ^ 53) with 9007199254740992 in *.
          change (2 ^ 52) with 4503599627370496 in *.
          destruct H as [[_ Hm]|[Hm _]]; lia. }
        assert (He : -1074 <= e) by (destruct H as [[-> _]|[_ He]]; lia).
        pose proof (Key m e m' e' Hm (proj1 Hm') (conj He Hlt)). lia.
    - destruct H as [[-> _]|[Hm He]].
      + destruct H' as [[-> _]|[_ He']]; lia.
      + assert (Hm' : 0 <= m' < 2 ^ 53).
        { clear - H'. change (2 ^ 53) with 9007199254740992 in *.
          change (2 ^ 52) with 4503599627370496 in *.
          destruct H' as [[_ Hm']|[Hm' _]]; lia. }
        assert (He' : -1074 <= e') by (destruct H' as [[-> _]|[_ He']]; lia).
        pose proof (Key m' e' m e Hm' (proj1 Hm) (conj He' Hgt)). lia. }
  subst e'. split; [ | reflexivity].
  assert (He : -1074 <= e) by (destruct H as [[-> _]|[_ He]]; lia).
  assert (Hp : 0 < 2 ^ (e + 1074)) by (apply Z.pow_pos_nonneg; lia).
  apply (Z.mul_cancel_r _ _ (2 ^ (e + 1074))); [lia | exact E].
Qed.

(** Two finite floats that are not negative and have the same value are
    read as the same number. *)
Lemma nonneg_fin_same (x y : float) (U : Z) :
  nonneg_fin x U -> nonneg_fin y U -> classify x = classify y.
Proof.
  intros (m & e & Hx & _ & _ & E) (m' & e' & Hy & _ & _ & E').
  destruct (normalised_unique m e m' e' (classify_normalised _ _ _ _ Hx)
              (classify_normalised _ _ _ _ Hy)) as [-> ->]; [congruence | ].
  now rewrite Hx, Hy.
Qed.

End Scaled.

Section Order.

Import Float.

(** The ratio that [mul] rounds. *)
Lemma mul_ratio (a b : float) (A B : Z) :
  nonneg_fin a A -> nonneg_fin b B ->
  exists n d, mul a b = round_ratio false n d /\ 0 <= n /\ 0 < d /\
              A * B * d = n * 2 ^ 1074 * 2 ^ 1074.
Proof.
  intros (m & e & Ha & Hm & He & ->) (m' & e' & Hb & Hm' & He' & ->).
  unfold mul. rewrite Ha, Hb. cbn [xorb].
  set (E := e + e').
  exists (m * m' * pow2 E), (pow2 (- E)).
  pose proof (pow2_pos E) as P1. pose proof (pow2_pos (- E)) as P2.
  split; [reflexivity | ]. split; [ | split; [exact P2 | ]].
  - apply Z.mul_nonneg_nonneg; [ | lia]. apply Z.mul_nonneg_nonneg; assumption.
  - replace (m * 2 ^ (e + 1074) * (m' * 2 ^ (e' + 1074)))
      with (m * m' * (2 ^ (e + 1074) * 2 ^ (e' + 1074))) by ring.
    rewrite <- Z.pow_add_r by lia.
    replace (e + 1074 + (e' + 1074)) with (E + 2148) by (unfold E; lia).
    replace (m * m' * pow2 E * 2 ^ 1074 * 2 ^ 1074)
      with (m * m' * (pow2 E * (2 ^ 1074 * 2 ^ 1074))) by ring.
    rewrite <- Z.mul_assoc. f_equal.
    change (2 ^ 1074 * 2 ^ 1074) with (2 ^ 2148).
    destruct (Z_le_gt_dec 0 E) as [H|H].
    + rewrite (pow2_nonneg E), (pow2_nonpos (- E)) by lia.
      rewrite Z.mul_1_r. rewrite <- Z.pow_add_r by lia. reflexivity.
    + rewrite (pow2_nonpos E), (pow2_nonneg (- E)) by lia.
      rewrite Z.mul_1_l. rewrite <- Z.pow_add_r by (unfold E; lia).
      f_equal. lia.
Qed.

(** The ratio that [div_value] rounds. *)
Lemma div_ratio (w t : float) (W T : Z) :
  nonneg_fin w W -> nonneg_fin t T -> 0 < T ->
  exists n d, div_value w t = round_ratio false n d /\ 0 <= n /\ 0 < d /\
              n * T = d * W.
Proof.
  intros (m & e & Hw & Hm & He & ->) (m' & e' & Ht & Hm' & He' & ->) HT.
  unfold div_value. rewrite Hw, Ht. cbn [xorb].
  exists (m * pow2 (e - e')), (m' * pow2 (e' - e)).
  pose proof (pow2_pos (e - e')) as P1. pose proof (pow2_pos (e' - e)) as P2.
  assert (Pe' : 0 < 2 ^ (e' + 1074)) by (apply Z.pow_pos_nonneg; lia).
  assert (Hm'0 : 0 < m').
  { destruct (Z.eq_dec m' 0) as [->|]; [rewrite Z.mul_0_l in HT | ]; lia. }
  split; [reflexivity | ]. split; [ | split].
  - apply Z.mul_nonneg_nonneg; lia.
  - apply Z.mul_pos_pos; assumption.
  - pose proof (pow2_cross e e' He He') as E.
    replace (m * pow2 (e - e') * (m' * 2 ^ (e' + 1074)))
      with (m * m' * (pow2 (e - e') * 2 ^ (e' + 1074))) by ring.
    rewrite E. ring.
Qed.

Lemma mul_same (a a' c : float) :
  classify a = classify a' -> mul a c = mul a' c.
Proof. intros H. unfold mul. now rewrite H. Qed.

Lemma div_value_same (w w' t : float) :
  classify w = classify w' -> div_value w t = div_value w' t.
Proof. intros H. unfold div_value. now rewrite H. Qed.

(** Multiplication by a finite float that is not negative is monotone. *)
Lemma mul_order (a a' c : float) (A A' C : Z) :
  nonneg_fin a A -> nonneg_fin a' A' -> nonneg_fin c C -> A <= A' ->
  (A * C = 0 \/ (2 ^ 52 * 2 ^ 1074 <= A * C /\ A * C < 2 ^ 2097 * 2 ^ 1074)) ->
  (A' * C = 0 \/ (2 ^ 52 * 2 ^ 1074 <= A' * C /\ A' * C < 2 ^ 2097 * 2 ^ 1074)) ->
  exists P P', nonneg_fin (mul a c) P /\ nonneg_fin (mul a' c) P' /\ P <= P'.
Proof.
  intros Ha Ha' Hc HAA Hr Hr'.
  assert (HK : 0 < 2 ^ 1074) by reflexivity.
  destruct (mul_ratio a c A C Ha Hc) as (n & d & En & Hn & Hd & Hx).
  destruct (mul_ratio a' c A' C Ha' Hc) as (n' & d' & En' & Hn' & Hd' & Hx').
  destruct (round_scaled n d (A * C) (2 ^ 1074) Hn Hd HK Hx Hr)
    as (P & HP & Ple & Pge & Pnear).
  destruct (round_scaled n' d' (A' * C) (2 ^ 1074) Hn' Hd' HK Hx' Hr')
    as (P' & HP' & Ple' & Pge' & Pnear').
  rewrite <- En in HP. rewrite <- En' in HP'.
  exists P, P'. split; [exact HP | ]. split; [exact HP' | ].
  pose proof (nonneg_fin_nonneg _ _ Hc) as HC0.
  destruct (Z.eq_dec (A * C) (A' * C)) as [Heq|Hne].
  - destruct (Z.eq_dec A A') as [E|E].
    + subst A'. rewrite (mul_same a a' c (nonneg_fin_same _ _ _ Ha Ha')) in HP.
      rewrite (nonneg_fin_unique _ _ _ HP HP'). lia.
    + assert (C = 0) by nia. subst C.
      apply Ple; [exact (nonneg_fin_representable _ _ HP') | ].
      pose proof (nonneg_fin_nonneg _ _ HP').
      rewrite Z.mul_0_r. set (K := 2 ^ 1074) in *. clearbody K. nia.
  - apply (nearest_order P P' (A * C) (A' * C) (2 ^ 1074)); try assumption.
    + assert (A * C <= A' * C) by (apply Z.mul_le_mono_nonneg_r; assumption). lia.
    + exact (nonneg_fin_representable _ _ HP).
    + exact (nonneg_fin_representable _ _ HP').
Qed.

(** Division by a positive finite float is monotone. *)
Lemma div_order (w w' t : float) (W W' T : Z) :
  nonneg_fin w W -> nonneg_fin w' W' -> nonneg_fin t T -> 0 < T -> W <= W' ->
  (W = 0 \/ (2 ^ 52 * T <= W * 2 ^ 1074 /\ W * 2 ^ 1074 < 2 ^ 2097 * T)) ->
  (W' = 0 \/ (2 ^ 52 * T <= W' * 2 ^ 1074 /\ W' * 2 ^ 1074 < 2 ^ 2097 * T)) ->
  exists Q Q', nonneg_fin (div_value w t) Q /\ nonneg_fin (div_value w' t) Q' /\
               Q <= Q'.
Proof.
  intros Hw Hw' Ht HT HWW Hr Hr'.
  assert (HK : 0 < 2 ^ 1074) by reflexivity.
  destruct (div_ratio w t W T Hw Ht HT) as (n & d & En & Hn & Hd & Hx).
  destruct (div_ratio w' t W' T Hw' Ht HT) as (n' & d' & En' & Hn' & Hd' & Hx').
  set (K := 2 ^ 1074) in *.
  assert (Sx : W * K * d = n * K * T)
    by (replace (n * K * T) with (n * T * K) by ring; rewrite Hx; ring).
  assert (Sx' : W' * K * d' = n' * K * T)
    by (replace (n' * K * T) with (n' * T * K) by ring; rewrite Hx'; ring).
  assert (Rx : W * K = 0 \/ (2 ^ 52 * T <= W * K /\ W * K < 2 ^ 2097 * T)).
  { destruct Hr as [->|H]; [left; reflexivity | right; exact H]. }
  assert (Rx' : W' * K = 0 \/ (2 ^ 52 * T <= W' * K /\ W' * K < 2 ^ 2097 * T)).
  { destruct Hr' as [->|H]; [left; reflexivity | right; exact H]. }
  destruct (round_scaled n d (W * K) T Hn Hd HT Sx Rx)
    as (Q & HQ & Qle & Qge & Qnear).
  destruct (round_scaled n' d' (W' * K) T Hn' Hd' HT Sx' Rx')
    as (Q' & HQ' & Qle' & Qge' & Qnear').
  rewrite <- En in HQ. rewrite <- En' in HQ'.
  exists Q, Q'. split; [exact HQ | ]. split; [exact HQ' | ].
  destruct (Z.eq_dec W W') as [E|E].
  - subst W'. rewrite (div_value_same w w' t (nonneg_fin_same _ _ _ Hw Hw')) in HQ.
    rewrite (nonneg_fin_unique _ _ _ HQ HQ'). lia.
  - apply (nearest_order Q Q' (W * K) (W' * K) T); try assumption.
    + apply Z.mul_lt_mono_pos_r; [exact HK | lia].
    + exact (nonneg_fin_representable _ _ HQ).
    + exact (nonneg_fin_representable _ _ HQ').
Qed.

End Order.

Section ScaledRanges.

Import Float.
Local Open Scope list_scope.

Ltac fin_of m e :=
  exists m, e; split; [vm_compute; reflexivity | ];
  split; [discriminate | ]; split; [discriminate | reflexivity].

Ltac closed := vm_compute; first [reflexivity | discriminate].

Lemma mul_between (lo hi x c : float) (L H X C : Z) :
  nonneg_fin lo L -> nonneg_fin hi H -> nonneg_fin x X -> nonneg_fin c C ->
  L <= X <= H ->
  2 ^ 52 * 2 ^ 1074 <= L * C -> H * C < 2 ^ 2097 * 2 ^ 1074 ->
  between (mul lo c) (mul hi c) (mul x c).
Proof.
  intros Hlo Hhi Hx Hc [HLX HXH] Hmin Hmax.
  pose proof (nonneg_fin_nonneg _ _ Hc) as HC0.
  assert (O1 : L * C <= X * C) by (apply Z.mul_le_mono_nonneg_r; assumption).
  assert (O2 : X * C <= H * C) by (apply Z.mul_le_mono_nonneg_r; assumption).
  destruct (mul_order lo x c L X C Hlo Hx Hc HLX) as (P1 & P2 & F1 & F2 & Le1);
    [right; lia | right; lia | ].
  destruct (mul_order x hi c X H C Hx Hhi Hc HXH) as (P2' & P3 & F2' & F3 & Le2);
    [right; lia | right; lia | ].
  rewrite (nonneg_fin_unique _ _ _ F2' F2) in Le2.
  exact (between_of_ulps _ _ _ _ _ _ F1 F3 F2 (conj Le1 Le2)).
Qed.

Lemma div_between (lo hi x t : float) (L H X T : Z) :
  nonneg_fin lo L -> nonneg_fin hi H -> nonneg_fin x X -> nonneg_fin t T ->
  0 < T -> L <= X <= H ->
  2 ^ 52 * T <= L * 2 ^ 1074 -> H * 2 ^ 1074 < 2 ^ 2097 * T ->
  between (div_value lo t) (div_value hi t) (div_value x t).
Proof.
  intros Hlo Hhi Hx Ht HT [HLX HXH] Hmin Hmax.
  assert (HK : 0 <= 2 ^ 1074) by discriminate.
  assert (O1 : L * 2 ^ 1074 <= X * 2 ^ 1074)
    by (apply Z.mul_le_mono_nonneg_r; assumption).
  assert (O2 : X * 2 ^ 1074 <= H * 2 ^ 1074)
    by (apply Z.mul_le_mono_nonneg_r; assumption).
  destruct (div_order lo x t L X T Hlo Hx Ht HT HLX) as (Q1 & Q2 & F1 & F2 & Le1);
    [right; lia | right; lia | ].
  destruct (div_order x hi t X H T Hx Hhi Ht HT HXH) as (Q2' & Q3 & F2' & F3 & Le2);
    [right; lia | right; lia | ].
  rewrite (nonneg_fin_unique _ _ _ F2' F2) in Le2.
  exact (between_of_ulps _ _ _ _ _ _ F1 F3 F2 (conj Le1 Le2)).
Qed.

(** The value of [random.uniform(a, b)] in units of [2^-1074]. *)
Lemma uniform_fin (a b : float) (A B Dv : Z) :
  nonneg_fin a A -> nonneg_fin b B -> nonneg_fin (sub b a) Dv ->
  2 ^ 52 <= A -> B < 2 ^ 2097 -> 2 ^ 105 <= Dv -> Dv < 2 ^ 2097 ->
  (forall P, representable P -> P < Dv -> A + P <= B) ->
  forall (r r' : rng) (x : float),
    random_uniform a b r = Ok (x, r') ->
    exists R, nonneg_fin x R /\ A <= R <= B.
Proof.
  intros Ha Hb Hd HA HB HD1 HD2 Hgap r r' x H.
  apply uniform_value in H. rewrite H. clear H x.
  exact (uniform_range a b _ A B Dv (weight_draw r 0) Ha Hb Hd HA HB HD1 HD2
           Hgap (draw_bound r 0)).
Qed.

Lemma random_mass_fin (r r' : rng) (x : float) :
  random_mass r = Ok (x, r') ->
  exists R, nonneg_fin x R /\
            6103515625000000 * 2 ^ (14 + 1074) <= R
              <= 8271806125530277 * 2 ^ (80 + 1074).
Proof.
  unfold random_mass.
  apply (uniform_fin MIN_MASS MAX_MASS _ _ _
           min_mass_fin max_mass_fin mass_width_fin);
    [closed | closed | closed | closed | ].
  intros P HP Hlt.
  apply (representable_below P 8271806125530277 80 HP) in Hlt;
    [ | reflexivity | discriminate].
  change (2 ^ (80 + 1074)) with (73786976294838206464 * 2 ^ (14 + 1074)) in *.
  set (g := 2 ^ (14 + 1074)) in *. assert (0 < g) by reflexivity.
  clearbody g. nia.
Qed.

Lemma random_temperature_fin (r r' : rng) (x : float) :
  random_temperature r = Ok (x, r') ->
  exists R, nonneg_fin x R /\
            4503599627370496 * 2 ^ (-51 + 1074) <= R
              <= 5368709120000000 * 2 ^ (-29 + 1074).
Proof.
  unfold random_temperature.
  apply (uniform_fin MIN_TEMP MAX_TEMP _ _ _
           min_temp_fin max_temp_fin temp_width_fin);
    [closed | closed | closed | closed | ].
  intros P HP Hlt.
  change (2 ^ (-29 + 1074)) with (4194304 * 2 ^ (-51 + 1074)) in *.
  set (g := 2 ^ (-51 + 1074)) in *. clearbody g. lia.
Qed.

Lemma ten_fin : nonneg_fin (of_ratio 10 1) (5629499534213120 * 2 ^ (-49 + 1074)).
Proof. fin_of 5629499534213120 (-49). Qed.

Lemma thousand_fin :
  nonneg_fin (of_ratio 1000 1) (8796093022208000 * 2 ^ (-43 + 1074)).
Proof. fin_of 8796093022208000 (-43). Qed.

Lemma million_fin :
  nonneg_fin (of_ratio (10 ^ 6) 1) (8589934592000000 * 2 ^ (-33 + 1074)).
Proof. fin_of 8589934592000000 (-33). Qed.

(** [x / t] for a constant [t] that is not zero. *)
Lemma lift_div (x t y : float) (r r' : rng) :
  is_zero t = false -> lift (div x t) r = Ok (y, r') -> y = div_value x t.
Proof.
  intros Hz. unfold lift, div. rewrite Hz. intros H. injection H as <- _.
  reflexivity.
Qed.

Lemma scaled_mass (r r' : rng) (m : float) :
  random_mass r = Ok (m, r') ->
  between (mul MIN_MASS (of_ratio 1000 1)) (mul MAX_MASS (of_ratio 1000 1))
          (mul m (of_ratio 1000 1)) /\
  between (div_value MIN_MASS (of_ratio 10 1)) (div_value MAX_MASS (of_ratio 10 1))
          (div_value m (of_ratio 10 1)) /\
  between (div_value MIN_MASS (of_ratio 1000 1))
          (div_value MAX_MASS (of_ratio 1000 1))
          (div_value m (of_ratio 1000 1)) /\
  between (div_value MIN_MASS (of_ratio (10 ^ 6) 1))
          (div_value MAX_MASS (of_ratio (10 ^ 6) 1))
          (div_value m (of_ratio (10 ^ 6) 1)).
Proof.
  intros H. destruct (random_mass_fin _ _ _ H) as (R & HR & Hb).
  split; [ | split; [ | split]].
  - apply (mul_between _ _ _ _ _ _ R _ min_mass_fin max_mass_fin HR thousand_fin Hb);
      closed.
  - apply (div_between _ _ _ _ _ _ R _ min_mass_fin max_mass_fin HR ten_fin);
      [closed | exact Hb | closed | closed].
  - apply (div_between _ _ _ _ _ _ R _ min_mass_fin max_mass_fin HR thousand_fin);
      [closed | exact Hb | closed | closed].
  - apply (div_between _ _ _ _ _ _ R _ min_mass_fin max_mass_fin HR million_fin);
      [closed | exact Hb | closed | closed].
Qed.

Lemma scaled_temperature (r r' : rng) (t : float) :
  random_temperature r = Ok (t, r') ->
  between (div_value MIN_TEMP (of_ratio 10 1)) (div_value MAX_TEMP (of_ratio 10 1))
          (div_value t (of_ratio 10 1)).
Proof.
  intros H. destruct (random_temperature_fin _ _ _ H) as (R & HR & Hb).
  apply (div_between _ _ _ _ _ _ R _ min_temp_fin max_temp_fin HR ten_fin);
    [closed | exact Hb | closed | closed].
Qed.

Variable cfg : Config.

(** The scaled masses and temperatures of a generated Universe lie
    between the scaled ends: the mass of each black hole between
    [MIN_MASS * 1e3] and [MAX_MASS * 1e3], of each nebula between
    [MIN_MASS / 10.0] and [MAX_MASS / 10.0], of each asteroid between
    [MIN_MASS / 1e3] and [MAX_MASS / 1e3], of each comet between
    [MIN_MASS / 1e6] and [MAX_MASS / 1e6], and the temperature of each
    nebula between [MIN_TEMP / 10.0] and [MAX_TEMP / 10.0]. *)
Theorem generated_scaled_values (r r' : rng) (gs : list Galaxy.t) :
  generate_galaxies cfg r = Ok (gs, r') -> Forall scaled_values_ok gs.
Proof.
  unfold generate_galaxies. apply for_each_Forall.
  intros gi r0 g r0' Hg. cbv beta zeta in Hg.
  apply bind_Ok in Hg. destruct Hg as (stars & r1 & _ & Hg).
  apply bind_Ok in Hg. destruct Hg as (bhs & r2 & Hbh & Hg).
  apply bind_Ok in Hg. destruct Hg as (nebs & r3 & Hnb & Hg).
  apply bind_Ok in Hg. destruct Hg as (asts & r4 & Has & Hg).
  apply bind_Ok in Hg. destruct Hg as (coms & r5 & Hco & Hg).
  injection Hg as <- _. unfold scaled_values_ok.
  cbn [Galaxy.black_holes Galaxy.nebulae Galaxy.asteroids Galaxy.comets].
  split; [ | split; [ | split]].
  - revert Hbh. unfold generate_black_holes. apply counted_loop_Forall.
    intros bi r6 b r6' Hb. cbv beta zeta in Hb.
    apply bind_Ok in Hb. destruct Hb as (m0 & r7 & Hm & Hb).
    apply bind_Ok in Hb. destruct Hb as (spin & r8 & _ & Hb).
    injection Hb as <- _. cbn [BlackHole.mass].
    exact (proj1 (scaled_mass _ _ _ Hm)).
  - revert Hnb. unfold generate_nebulae. apply counted_loop_Forall.
    intros ni r6 n r6' Hn. cbv beta zeta in Hn.
    apply bind_Ok in Hn. destruct Hn as (m0 & r7 & Hm & Hn).
    apply bind_Ok in Hn. destruct Hn as (mass & r8 & Hmass & Hn).
    apply bind_Ok in Hn. destruct Hn as (t0 & r9 & Ht & Hn).
    apply bind_Ok in Hn. destruct Hn as (temp & r10 & Htemp & Hn).
    apply bind_Ok in Hn. destruct Hn as (comp & r11 & _ & Hn).
    injection Hn as <- _. cbn [Nebula.mass Nebula.temperature].
    apply lift_div in Hmass; [ | closed].
    apply lift_div in Htemp; [ | closed].
    rewrite Hmass, Htemp. split.
    + exact (proj1 (proj2 (scaled_mass _ _ _ Hm))).
    + exact (scaled_temperature _ _ _ Ht).
  - revert Has. unfold generate_asteroids. apply counted_loop_Forall.
    intros ai r6 a r6' Ha. cbv beta zeta in Ha.
    apply bind_Ok in Ha. destruct Ha as (m0 & r7 & Hm & Ha).
    apply bind_Ok in Ha. destruct Ha as (mass & r8 & Hmass & Ha).
    apply bind_Ok in Ha. destruct Ha as (comp & r9 & _ & Ha).
    injection Ha as <- _. cbn [Asteroid.mass].
    apply lift_div in Hmass; [ | closed]. rewrite Hmass.
    exact (proj1 (proj2 (proj2 (scaled_mass _ _ _ Hm)))).
  - revert Hco. unfold generate_comets. apply counted_loop_Forall.
    intros ci r6 c r6' Hc. cbv beta zeta in Hc.
    apply bind_Ok in Hc. destruct Hc as (m0 & r7 & Hm & Hc).
    apply bind_Ok in Hc. destruct Hc as (mass & r8 & Hmass & Hc).
    apply bind_Ok in Hc. destruct Hc as (tail & r9 & _ & Hc).
    injection Hc as <- _. cbn [Comet.mass].
    apply lift_div in Hmass; [ | closed]. rewrite Hmass.
    exact (proj2 (proj2 (proj2 (scaled_mass _ _ _ Hm)))).
Qed.

End ScaledRanges.

Lemma generated_scaled_values_witness : Forall scaled_values_ok sample_galaxies.
Proof.
  destruct sample_generation as [r' E].
  exact (generated_scaled_values small_config sample_draws r' sample_galaxies E).
Defined.
